(** * Store pages generator: a model of the two page generators

    The repository holds two variants of one script:
    - [src/generate_pages.py]         (module [Root] below), and
    - [src/scripts/generate_pages.py] (module [Scripts] below).

    Both read a CSV of store listings and a CSV of images, build store
    records, and write an index page and one page per store.

    Python values are embedded as follows.
    - [str]: the list of its Unicode code points ([list N]);
    - [Optional[T]]: [option T];  [dict]: [gmap];  [set]: [gset];
    - a [while] loop: a function with a bound on its iterations, returning
      [None] when the bound is hit (it is shown never to be hit);
    - the file system: a record of directories and file contents, threaded
      through the writing functions together with the raised exception. *)

From Stdlib Require Import NArith String Ascii List DecimalPos DecimalN DecimalFacts Lia.
From stdpp Require Import gmap list.

Local Open Scope N_scope.

(** ** Python's built-in string operations *)

Module Py.

Abbreviation str := (list N).

(** Source text is UTF-8; a literal denotes the code points it encodes. *)
Definition bytes_of (s : string) : list N :=
  List.map (fun b => N_of_ascii (ascii_of_byte b)) (list_byte_of_string s).

Fixpoint utf8_decode (bs : list N) : str :=
  match bs with
  | [] => []
  | b0 :: r0 =>
    if b0 <? 0x80 then b0 :: utf8_decode r0
    else match r0 with
    | [] => [b0]
    | b1 :: r1 =>
      if b0 <? 0xE0 then ((b0 - 0xC0) * 64 + (b1 - 0x80)) :: utf8_decode r1
      else match r1 with
      | [] => [b0]
      | b2 :: r2 =>
        if b0 <? 0xF0
        then ((b0 - 0xE0) * 4096 + (b1 - 0x80) * 64 + (b2 - 0x80)) :: utf8_decode r2
        else match r2 with
        | [] => [b0]
        | b3 :: r3 =>
          ((b0 - 0xF0) * 262144 + (b1 - 0x80) * 4096 + (b2 - 0x80) * 64 + (b3 - 0x80))
            :: utf8_decode r3
        end
      end
    end
  end.

(** [u "..."] is the Python literal ["..."]. *)
Definition u (s : string) : str := utf8_decode (bytes_of s).

(** [tpl "..."] is a literal in which a backquote stands for the double
    quote character (no template of the scripts contains a backquote). *)
Definition tpl (s : string) : str :=
  List.map (fun c => if c =? 0x60 then 0x22 else c) (u s).

(** Truthiness of a string, and the idiom [x or None]. *)
Definition truthy (s : str) : bool :=
  match s with [] => false | _ => true end.

Definition or_none (s : str) : option str :=
  if truthy s then Some s else None.

(** Truthiness of an [Optional[str]]. *)
Definition truthy_opt (o : option str) : bool :=
  match o with Some s => truthy s | None => false end.

(** [f(x) if x else d] for an [Optional[str]] [x], and [x or d]. *)
Definition if_truthy {A : Type} (o : option str) (f : str -> A) (d : A) : A :=
  match o with
  | Some s => if truthy s then f s else d
  | None => d
  end.

Definition or_else (o : option str) (d : str) : str := if_truthy o (fun s => s) d.

(** [str.isspace] on one character, as used by [str.strip()]. *)
Definition isspace (c : N) : bool :=
  ((0x09 <=? c) && (c <=? 0x0D)) || ((0x1C <=? c) && (c <=? 0x20))
  || (c =? 0x85) || (c =? 0xA0) || (c =? 0x1680)
  || ((0x2000 <=? c) && (c <=? 0x200A))
  || (c =? 0x2028) || (c =? 0x2029) || (c =? 0x202F) || (c =? 0x205F)
  || (c =? 0x3000).

Definition mem_char (chars : str) (c : N) : bool := existsb (N.eqb c) chars.

Fixpoint lstrip_by (p : N -> bool) (s : str) : str :=
  match s with
  | [] => []
  | c :: s' => if p c then lstrip_by p s' else s
  end.

Definition rstrip_by (p : N -> bool) (s : str) : str :=
  rev (lstrip_by p (rev s)).

Definition strip_by (p : N -> bool) (s : str) : str :=
  rstrip_by p (lstrip_by p s).

(** [s.strip()], [s.strip(chars)], [s.lstrip(chars)], [s.rstrip(chars)]. *)
Definition strip (s : str) : str := strip_by isspace s.
Definition strip_chars (chars s : str) : str := strip_by (mem_char chars) s.
Definition lstrip_chars (chars s : str) : str := lstrip_by (mem_char chars) s.
Definition rstrip_chars (chars s : str) : str := rstrip_by (mem_char chars) s.

(** [s.replace(old, new)] for a one-character [old]. *)
Definition replace_char (old : N) (new : str) (s : str) : str :=
  flat_map (fun c => if c =? old then new else [c]) s.

(** [s.startswith(prefix)]. *)
Fixpoint startswith (prefix s : str) : bool :=
  match prefix, s with
  | [], _ => true
  | p :: prefix', c :: s' => (c =? p) && startswith prefix' s'
  | _ :: _, [] => false
  end.

(** [needle in hay] for strings. *)
Fixpoint contains (needle hay : str) : bool :=
  startswith needle hay ||
  match hay with
  | [] => false
  | _ :: hay' => contains needle hay'
  end.

(** [s.lower()].  It is only applied to strings over ASCII letters, ASCII
    digits, hyphens and the ideographs U+4E00..U+9FFF, where only the ASCII
    capitals have a lower-case form. *)
Definition lower_char (c : N) : N :=
  if (0x41 <=? c) && (c <=? 0x5A) then c + 0x20 else c.

Definition lower (s : str) : str := List.map lower_char s.

(** [sep.join(pieces)]. *)
Fixpoint join (sep : str) (pieces : list str) : str :=
  match pieces with
  | [] => []
  | [p] => p
  | p :: rest => p ++ sep ++ join sep rest
  end.

(** Decimal digits: [str(n)] and the format [{n:02d}] for [n >= 0]. *)
Fixpoint digits_of_uint (d : Decimal.uint) : str :=
  match d with
  | Decimal.Nil => []
  | Decimal.D0 d => 0x30 :: digits_of_uint d
  | Decimal.D1 d => 0x31 :: digits_of_uint d
  | Decimal.D2 d => 0x32 :: digits_of_uint d
  | Decimal.D3 d => 0x33 :: digits_of_uint d
  | Decimal.D4 d => 0x34 :: digits_of_uint d
  | Decimal.D5 d => 0x35 :: digits_of_uint d
  | Decimal.D6 d => 0x36 :: digits_of_uint d
  | Decimal.D7 d => 0x37 :: digits_of_uint d
  | Decimal.D8 d => 0x38 :: digits_of_uint d
  | Decimal.D9 d => 0x39 :: digits_of_uint d
  end.

Definition str_of_int (n : N) : str := digits_of_uint (N.to_uint n).

Definition format_02d (n : N) : str :=
  let d := str_of_int n in
  repeat 0x30 (2 - length d)%nat ++ d.

(** A digit string with [k] zeros put in front. *)
Definition pad_uint (k : nat) (d : Decimal.uint) : Decimal.uint :=
  Nat.iter k Decimal.D0 d.

(** [int(digits)] for a string of ASCII digits. *)
Definition is_digit (c : N) : bool := (0x30 <=? c) && (c <=? 0x39).

Definition int_of_digits (digits : str) : N :=
  fold_left (fun acc c => 10 * acc + (c - 0x30)) digits 0.

(** [html.escape(s)] (with the default [quote=True]). *)
Definition escape (s : str) : str :=
  let s := replace_char 0x26 (u "&amp;") s in
  let s := replace_char 0x3C (u "&lt;") s in
  let s := replace_char 0x3E (u "&gt;") s in
  let s := replace_char 0x22 (u "&quot;") s in
  replace_char 0x27 (u "&#x27;") s.

(** An optional text, when there is one, occurs escaped in [hay]. *)
Definition shown (o : option str) (hay : str) : bool :=
  match o with
  | Some s => contains (escape s) hay
  | None => true
  end.

(** A text has no white space at either end. *)
Definition trimmed (s : str) : bool :=
  match s with [] => true | c :: _ => negb (isspace c) end
  && match rev s with [] => true | c :: _ => negb (isspace c) end.

(** The characters that [html.escape] replaces, other than the ampersand:
    the angle brackets and the two quotes. *)
Definition markup_char (c : N) : bool :=
  (c =? 0x3C) || (c =? 0x3E) || (c =? 0x22) || (c =? 0x27).

(** The separator glyphs: the middle dot U+00B7 and the small dot U+22C5. *)
Definition separator (c : N) : bool := (c =? 0xB7) || (c =? 0x22C5).

(** A text that holds a character other than the separator glyphs and
    white space: it is not empty and not a separator-only token. *)
Definition meaningful (t : str) : bool :=
  existsb (fun c => negb (separator c || isspace c)) t.

End Py.



(** ** Files, directories and the outcome of a run *)

Module World.
Import Py.

(** A path is the list of its components below the directory the script
    works in. *)
Abbreviation path := (list str).

(** What a run can change: directories, files with their text, and the
    lines printed. *)
Record world := mkWorld {
  dirs : gset path;
  files : gmap path str;
  stdout : list str
}.

(** [AttributeError]: a method was called on [None]. *)
Inductive exn :=
  | SystemExit (msg : str)
  | FileNotFoundError (p : path)
  | AttributeError.

(** A run returns, raises, or is cut by the bound put on a loop. *)
Inductive outcome (A : Type) :=
  | Ok (a : A)
  | Raise (e : exn)
  | Unfinished.
Arguments Ok {A} a.
Arguments Raise {A} e.
Arguments Unfinished {A}.

(** Code that touches no file returns or raises without a world. *)
#[global] Instance outcome_ret : MRet outcome := fun A a => Ok a.

#[global] Instance outcome_bind : MBind outcome := fun A B k m =>
  match m with
  | Ok a => k a
  | Raise e => Raise e
  | Unfinished => Unfinished
  end.

#[global] Instance outcome_fmap : FMap outcome := fun A B f m =>
  match m with
  | Ok a => Ok (f a)
  | Raise e => Raise e
  | Unfinished => Unfinished
  end.

(** [for x in l: st = f(st, x)], which the first exception ends. *)
Fixpoint fold_loop {S A : Type} (f : S -> A -> outcome S) (l : list A) (st : S)
    : outcome S :=
  match l with
  | [] => Ok st
  | x :: l' => f st x ≫= fold_loop f l'
  end.

Definition run (A : Type) : Type := world -> outcome A * world.

#[global] Instance run_ret : MRet run := fun A a w => (Ok a, w).

#[global] Instance run_bind : MBind run := fun A B k m w =>
  match m w with
  | (Ok a, w') => k a w'
  | (Raise e, w') => (Raise e, w')
  | (Unfinished, w') => (Unfinished, w')
  end.

Definition raise {A : Type} (e : exn) : run A := fun w => (Raise e, w).

(** A step of a run that touches no file. *)
Definition lift {A : Type} (o : outcome A) : run A := fun w => (o, w).

(** [for x in l: f(x)] *)
Fixpoint for_each {A : Type} (f : A -> run unit) (l : list A) : run unit :=
  match l with
  | [] => mret tt
  | x :: l' => f x ≫= fun _ => for_each f l'
  end.

(** The directory a path lies in exists: it is the working directory or a
    directory made before. *)
Definition parent_exists (p : path) (w : world) : bool :=
  match removelast p with
  | [] => true
  | d => bool_decide (d ∈ dirs w)
  end.

(** The path itself and the directories above it. *)
Definition ancestors (p : path) : list path :=
  List.map (fun n => take n p) (seq 1 (length p)).

(** [p.mkdir(parents=True, exist_ok=True)].  A file standing where a
    directory is made, or a directory where a file is written, is not
    modelled. *)
Definition mkdir_parents (p : path) : run unit := fun w =>
  (Ok tt, {| dirs := list_to_set (ancestors p) ∪ dirs w;
             files := files w; stdout := stdout w |}).

(** [p.mkdir(exist_ok=True)] *)
Definition mkdir (p : path) : run unit := fun w =>
  if parent_exists p w
  then (Ok tt, {| dirs := {[p]} ∪ dirs w; files := files w; stdout := stdout w |})
  else (Raise (FileNotFoundError p), w).

(** [p.exists()] *)
Definition path_exists (p : path) : run bool := fun w =>
  (Ok (bool_decide (p ∈ dirs w) || bool_decide (is_Some (files w !! p))), w).

(** [p.write_text(text, encoding="utf-8")] *)
Definition write_text (p : path) (text : str) : run unit := fun w =>
  if parent_exists p w
  then (Ok tt, {| dirs := dirs w; files := <[p := text]> (files w);
                  stdout := stdout w |})
  else (Raise (FileNotFoundError p), w).

(** [print(line)] *)
Definition print (line : str) : run unit := fun w =>
  (Ok tt, {| dirs := dirs w; files := files w; stdout := stdout w ++ [line] |}).

(** A world in which nothing was made or printed yet. *)
Definition fresh : world := {| dirs := ∅; files := ∅; stdout := [] |}.

(** [returns m Q w]: run from [w], [m] returns a value and a world that
    satisfy [Q]. *)
Definition returns {A : Type} (m : run A) (Q : A -> world -> Prop) (w : world) : Prop :=
  exists a w', m w = (Ok a, w') /\ Q a w'.

End World.
(** ** [src/generate_pages.py] *)

Module Root.
Import Py.

Record Store := mkStore {
  name : str;
  map_url : str;
  rating : option str;
  review_count : option str;
  category : option str;
  address : option str;
  status : option str;
  hours : option str;
  website : option str;
  phone : option str;
  features : list str;
  image_url : option str;
  slug : str
}.

(** A row of [csv.DictReader]: header name to cell.  A row shorter than
    the header holds [None] for the cells it lacks (a longer row keeps its
    surplus under the key [None], which no [get] below reads). *)
Abbreviation row := (gmap str (option str)).

(** [row.get(key, "")]: the cell, which is [None] where the row is short,
    and [""] for a column that the header does not have. *)
Definition get (r : row) (key : str) : option str := default (Some []) (r !! key).

(** A method call on what [row.get] returned, such as [cell.strip()], or a
    function that starts with one, such as [clean_value(cell)]: on [None]
    it raises [AttributeError]. *)
Definition call {A : Type} (cell : option str) (f : str -> A) : World.outcome A :=
  match cell with
  | Some text => World.Ok (f text)
  | None => World.Raise World.AttributeError
  end.

(** The character class [[a-zA-Z0-9\u4e00-\u9fff]]. *)
Definition slug_char (c : N) : bool :=
  ((0x61 <=? c) && (c <=? 0x7A)) || ((0x41 <=? c) && (c <=? 0x5A))
  || ((0x30 <=? c) && (c <=? 0x39)) || ((0x4E00 <=? c) && (c <=? 0x9FFF)).

(** [re.sub(r"[^a-zA-Z0-9\u4e00-\u9fff]+", "-", name)]: every maximal run
    of characters outside the class becomes one hyphen.  [in_run] tells
    that the previous character was outside the class. *)
Fixpoint sub_runs (in_run : bool) (s : str) : str :=
  match s with
  | [] => []
  | c :: s' =>
    if slug_char c then c :: sub_runs false s'
    else if in_run then sub_runs true s'
    else 0x2D :: sub_runs true s'
  end.

Definition slug_base (name : str) : str :=
  let base := lower (strip_chars (u "-") (sub_runs false name)) in
  if truthy base then base else u "store".

(** The loop [while slug in existing: slug = f"{base}-{counter}"; counter += 1],
    run for at most [fuel] tests of its condition. *)
Fixpoint slug_loop (fuel : nat) (base : str) (existing : gset str)
    (slug : str) (counter : N) : option str :=
  match fuel with
  | O => None
  | S fuel' =>
    if decide (slug ∈ existing)
    then slug_loop fuel' base existing (base ++ u "-" ++ str_of_int counter) (counter + 1)
    else Some slug
  end.

(** [slugify(name, existing)] returns the slug and the updated set.  The
    loop can test its condition at most [size existing + 1] times. *)
Definition slugify (name : str) (existing : gset str) : option (str * gset str) :=
  let base := slug_base name in
  match slug_loop (S (size existing)) base existing base 2 with
  | Some slug => Some (slug, {[slug]} ∪ existing)
  | None => None
  end.

(** [load_images()]; [detail] is [None] when the detail file does not exist. *)
Definition load_images_row (mapping : gmap str str) (r : row)
    : World.outcome (gmap str str) :=
  map_url ← call (get r (u "hfpxzc href")) strip;
  img ← call (get r (u "aoRNLd src")) strip;
  mret (if truthy map_url && truthy img then <[map_url := img]> mapping else mapping).

Definition load_images (detail : option (list row)) : World.outcome (gmap str str) :=
  match detail with
  | None => World.Ok ∅
  | Some rows => World.fold_loop load_images_row rows ∅
  end.

Definition clean_value (text : str) : str :=
  strip (replace_char 0xB7 [] (replace_char 0x22C5 [] text)).

(** The inner loop [for key in ["ah5Ghc", "ah5Ghc (2)"]]. *)
Definition add_feature (r : row) (feats : list str) (key : str)
    : World.outcome (list str) :=
  value ← call (get r key) clean_value;
  mret (if truthy value then feats ++ [value] else feats).

(** The state of the loop of [load_stores]: the image mapping, the records
    built so far and the set of slugs given out. *)
Record loader := mkLoader {
  images : gmap str str;
  stores : list Store;
  seen_slugs : gset str
}.

(** One iteration of [for row in reader]. *)
Definition load_stores_row (st : loader) (r : row) : World.outcome loader :=
  name ← call (get r (u "qBF1Pd")) strip;
  map_url ← call (get r (u "hfpxzc href")) strip;
  if negb (truthy name) then mret st
  else
    rating ← call (get r (u "MW4etd")) clean_value;
    review_count ← call (get r (u "UY7F9"))
                     (fun cell => clean_value (strip_chars (u "()") cell));
    category ← call (get r (u "W4Efsd")) clean_value;
    address ← call (get r (u "W4Efsd (3)")) clean_value;
    status ← call (get r (u "W4Efsd (4)")) clean_value;
    hours ← call (get r (u "W4Efsd (5)")) clean_value;
    website ← call (get r (u "lcr4fd href")) (fun cell => or_none (strip cell));
    phone ← call (get r (u "UsdlK")) (fun cell => or_none (clean_value cell));
    feats ← World.fold_loop (add_feature r) [u "ah5Ghc"; u "ah5Ghc (2)"] [];
    match slugify name (seen_slugs st) with
    | None => World.Unfinished
    | Some (slug, seen) =>
      let store := {|
        name := name;
        map_url := map_url;
        rating := Some rating;
        review_count := Some review_count;
        category := Some category;
        address := Some address;
        status := Some status;
        hours := Some hours;
        website := website;
        phone := phone;
        features := feats;
        image_url := images st !! map_url;
        slug := slug
      |} in
      mret {| images := images st;
              stores := stores st ++ [store];
              seen_slugs := seen |}
    end.

Definition load_stores_from (imgs : gmap str str) (rows : list row)
    : World.outcome loader :=
  World.fold_loop load_stores_row rows {| images := imgs; stores := []; seen_slugs := ∅ |}.

(** [load_stores()] on the rows of the two files, when the data file
    exists. *)
Definition load_stores (detail : option (list row)) (data : list row)
    : World.outcome (list Store) :=
  imgs ← load_images detail;
  st ← load_stores_from imgs data;
  mret (stores st).
(** *** Pages *)

Import World.

Definition DATA_FILE : path := [u "google-2025-12-28.csv"].
Definition OUTPUT_DIR : path := [u "docs"].
Definition ASSETS_DIR : path := OUTPUT_DIR ++ [u "assets"].

(** The style sheet written by [ensure_assets]. *)
Definition style_css : str :=
  u "@import url('https://fonts.googleapis.com/css2?family=Noto+Sans+TC:wght@400;600;700&display=swap');
:root{--bg:#f8fafc;--card:#ffffff;--accent:#ff9f43;--text:#0f172a;--muted:#475569;--border:#e2e8f0;}
*{box-sizing:border-box;}body{margin:0;font-family:'Noto Sans TC',system-ui,sans-serif;background:var(--bg);color:var(--text);}a{text-decoration:none;color:inherit;}
header{padding:32px 24px 16px;max-width:1080px;margin:auto;}
h1,h2,h3{margin:0 0 12px;font-weight:700;line-height:1.2;}
p{margin:0 0 12px;color:var(--muted);}
.chip{display:inline-flex;align-items:center;gap:6px;padding:6px 10px;border-radius:999px;border:1px solid var(--border);background:#fff;}
.grid{display:grid;grid-template-columns:repeat(auto-fit,minmax(260px,1fr));gap:16px;padding:0 24px 32px;max-width:1080px;margin:auto;}
.card{background:var(--card);border:1px solid var(--border);border-radius:16px;overflow:hidden;display:flex;flex-direction:column;transition:transform .15s ease,box-shadow .15s ease;}
.card:hover{transform:translateY(-3px);box-shadow:0 10px 30px rgba(15,23,42,.1);}
.thumb{height:160px;background:linear-gradient(120deg,#ffe4c4,#ffd0a8);position:relative;}
.thumb img{width:100%;height:100%;object-fit:cover;display:block;}
.card-body{padding:16px;display:flex;flex-direction:column;gap:8px;}
.meta{display:flex;flex-wrap:wrap;gap:8px;color:var(--muted);font-size:14px;}
.button-row{display:flex;flex-wrap:wrap;gap:10px;margin-top:4px;}
.button{padding:10px 12px;border-radius:10px;border:1px solid var(--border);background:#fff;font-weight:600;display:inline-flex;gap:6px;align-items:center;}
.button.primary{background:var(--accent);color:#1f2937;border:none;}
.layout{max-width:920px;margin:auto;padding:0 24px 40px;}
.hero{background:var(--card);border-bottom:1px solid var(--border);padding:28px 24px 16px;}
.section{margin-top:24px;padding:20px;border-radius:14px;background:var(--card);border:1px solid var(--border);}
.info-list{list-style:none;padding:0;margin:0;display:grid;grid-template-columns:repeat(auto-fit,minmax(240px,1fr));gap:12px;}
.info-item{padding:12px;border-radius:12px;border:1px dashed var(--border);background:#fdfdfd;}
.badge{display:inline-block;padding:6px 10px;border-radius:8px;background:rgba(255,159,67,.15);color:#c05d00;font-weight:600;margin-right:8px;}
".

Definition ensure_assets : run unit :=
  mkdir_parents ASSETS_DIR;;
  let style_path := ASSETS_DIR ++ [u "style.css"] in
  present ← path_exists style_path;
  if negb present then write_text style_path style_css else mret tt.

(** [store.name.rstrip("|｜") or store.name] *)
Definition display_name (store : Store) : str :=
  let stripped := rstrip_chars (u "|｜") (name store) in
  if truthy stripped then stripped else name store.

(** The card of one store: the body of the loop of [render_index]. *)
Definition card_html (store : Store) : str :=
  let image_tag :=
    if_truthy (image_url store)
      (fun image => concat [u "<img src='"; escape image; u "' alt='"; escape (name store); u "'>"])
      [] in
  let card_parts := [
    u "<article class='card'>";
    concat [u "<div class='thumb'>"; image_tag; u "</div>"];
    u "<div class='card-body'>";
    concat [u "<a href='"; slug store; u "/index.html'><h3>"; escape (display_name store); u "</h3></a>"];
    u "<div class='meta'>";
    concat [u "<span>⭐ "; escape (or_else (rating store) (u "尚無評分")); u "</span>"]
  ] in
  let card_parts :=
    if_truthy (review_count store)
      (fun count => card_parts ++ [concat [u "<span>("; escape count; u " 則評論)</span>"]])
      card_parts in
  let card_parts :=
    if_truthy (category store)
      (fun cat => card_parts ++ [concat [u "<span>"; escape cat; u "</span>"]])
      card_parts in
  let card_parts := card_parts ++ [
    u "</div>";
    concat [u "<p>"; escape (or_else (address store) (u "地址未提供")); u "</p>"];
    u "<div class='button-row'>";
    concat [u "<a class='button primary' href='"; escape (map_url store); u "' target='_blank' rel='noreferrer'>查看地圖</a>"]
  ] in
  let card_parts :=
    if_truthy (website store)
      (fun site => card_parts ++ [concat [u "<a class='button' href='"; escape site; u "' target='_blank' rel='noreferrer'>官方網站</a>"]])
      card_parts in
  let card_parts := card_parts ++ [u "</div>"; u "</div></article>"] in
  concat card_parts.

Definition index_html (stores : list Store) : str :=
  let cards := List.map card_html stores in
  concat [u "<!doctype html>
<html lang='zh-Hant'>
<head>
  <meta charset='utf-8'>
  <meta name='viewport' content='width=device-width, initial-scale=1'>
  <title>寵物美容店家索引</title>
  <link rel='stylesheet' href='assets/style.css'>
</head>
<body>
  <header>
    <p class='chip'>GitHub Pages · 寵物美容</p>
    <h1>寵物美容店家索引</h1>
    <p>為您整理台中多家寵物美容與自助洗澡店家的基本資訊，點擊卡片即可查看專屬分頁。</p>
  </header>
  <section class='grid'>
    "; concat cards; u "
  </section>
</body>
</html>"].

Definition render_index (stores : list Store) : run unit :=
  mkdir OUTPUT_DIR;;
  ensure_assets;;
  write_text (OUTPUT_DIR ++ [u "index.html"]) (index_html stores).

(** The local variables [meta_items], [features_html] and [image_block] of
    [render_store_page]. *)
Definition meta_items (store : Store) : list str :=
  let meta_items := [] in
  let meta_items :=
    if_truthy (address store)
      (fun a => meta_items ++ [concat [u "<li class='info-item'><strong>地址</strong><br>"; escape a; u "</li>"]]) meta_items in
  let meta_items :=
    if_truthy (phone store)
      (fun p => meta_items ++ [concat [u "<li class='info-item'><strong>電話</strong><br>"; escape p; u "</li>"]]) meta_items in
  let meta_items :=
    if_truthy (status store)
      (fun s => meta_items ++ [concat [u "<li class='info-item'><strong>營業狀態</strong><br>"; escape s; u "</li>"]]) meta_items in
  let meta_items :=
    if_truthy (hours store)
      (fun h => meta_items ++ [concat [u "<li class='info-item'><strong>營業時間</strong><br>"; escape h; u "</li>"]]) meta_items in
  meta_items.

Definition features_html (store : Store) : str :=
  concat (List.map (fun feature => concat [u "<span class='badge'>"; escape feature; u "</span>"])
            (features store)).

Definition image_block (store : Store) : str :=
  if_truthy (image_url store)
    (fun image =>
       concat [u "<div class='thumb'><img src='"; escape image; u "' alt='"; escape (display_name store); u "'></div>"])
    (u "<div class='thumb'></div>").

(** The detail document of one store. *)
Definition store_html (store : Store) : str :=
  concat [
    u "<!doctype html>
<html lang='zh-Hant'>
  <head>
    <meta charset='utf-8'>
    <meta name='viewport' content='width=device-width, initial-scale=1'>
    <title>";
    escape (display_name store);
    u "｜寵物美容店家</title>
    <link rel='stylesheet' href='../assets/style.css'>
  </head>
  <body>
    <div class='hero'>
      <a class='chip' href='../index.html'>← 返回列表</a>
      <h1>";
    escape (display_name store);
    u "</h1>
      <p class='meta'>
        <span>⭐ ";
    escape (or_else (rating store) (u "尚無評分"));
    u "</span>
        ";
    if_truthy (review_count store)
      (fun count => concat [u "<span>("; escape count; u " 則評論)</span>"]) [];
    u "
        ";
    if_truthy (category store)
      (fun cat => concat [u "<span>"; escape cat; u "</span>"]) [];
    u "
      </p>
    </div>
    <div class='layout'>
      <div class='section'>
        ";
    image_block store;
    u "
        <div class='button-row' style='margin-top:12px;'>
          <a class='button primary' href='";
    escape (map_url store);
    u "' target='_blank' rel='noreferrer'>在地圖查看</a>
          ";
    if_truthy (website store)
      (fun site => concat [u "<a class='button' href='"; escape site; u "' target='_blank' rel='noreferrer'>官方網站</a>"]) [];
    u "
        </div>
        ";
    (if truthy (features_html store)
     then concat [u "<div style='margin-top:12px;'>"; features_html store; u "</div>"] else []);
    u "
      </div>

      <div class='section'>
        <h2>店家資訊</h2>
        <ul class='info-list'>
          ";
    concat (meta_items store);
    u "
        </ul>
      </div>
    </div>
  </body>
</html>"
  ].

Definition render_store_page (store : Store) : run unit :=
  mkdir OUTPUT_DIR;;
  ensure_assets;;
  let store_dir := OUTPUT_DIR ++ [slug store] in
  mkdir_parents store_dir;;
  write_text (store_dir ++ [u "index.html"]) (store_html store).

(** The two input files as read by [csv.DictReader]; [None] for a file
    that does not exist. *)
Record inputs := mkInputs {
  data_file : option (list row);
  detail_file : option (list row)
}.

(** [load_stores()] as a step of a run: the detail file is read first, and
    opening a missing data file raises. *)
Definition load_stores_run (inp : inputs) : run (list Store) :=
  imgs ← lift (load_images (detail_file inp));
  match data_file inp with
  | None => raise (FileNotFoundError DATA_FILE)
  | Some data => st ← lift (load_stores_from imgs data); mret (stores st)
  end.

Definition build_site (inp : inputs) : run unit :=
  stores ← load_stores_run inp;
  render_index stores;;
  for_each render_store_page stores;;
  print (concat [u "Generated "; str_of_int (N.of_nat (length stores)); u " store pages in ";
                 join (u "/") OUTPUT_DIR; u "/"]).

(** *** Notions used to state the properties of [load_stores] *)

(** A cell is there: the row is long enough for its column. *)
Definition present (cell : option str) : bool :=
  match cell with Some _ => true | None => false end.

(** The rows that [load_stores] turns into a record, when it returns. *)
Definition accepted (r : row) : bool :=
  match get r (u "qBF1Pd") with
  | Some cell => truthy (strip cell)
  | None => false
  end.

(** The rows that [load_stores] can read: the name cell and the map link
    cell are there, and so is every other cell that is read when the name
    is not empty. *)
Definition readable (r : row) : bool :=
  present (get r (u "qBF1Pd")) && present (get r (u "hfpxzc href"))
  && (negb (accepted r)
      || forallb (fun key => present (get r key))
           [u "MW4etd"; u "UY7F9"; u "W4Efsd"; u "W4Efsd (3)"; u "W4Efsd (4)";
            u "W4Efsd (5)"; u "lcr4fd href"; u "UsdlK"; u "ah5Ghc"; u "ah5Ghc (2)"]).

(** The rows of the detail file that [load_images] can read. *)
Definition image_readable (r : row) : bool :=
  present (get r (u "hfpxzc href")) && present (get r (u "aoRNLd src")).

(** The record built from a row in which every cell is there, given the
    slug it receives. *)
Definition record_of (imgs : gmap str str) (r : row) (slug : str) : option Store :=
  name_cell ← get r (u "qBF1Pd");
  link_cell ← get r (u "hfpxzc href");
  rating_cell ← get r (u "MW4etd");
  review_cell ← get r (u "UY7F9");
  category_cell ← get r (u "W4Efsd");
  address_cell ← get r (u "W4Efsd (3)");
  status_cell ← get r (u "W4Efsd (4)");
  hours_cell ← get r (u "W4Efsd (5)");
  website_cell ← get r (u "lcr4fd href");
  phone_cell ← get r (u "UsdlK");
  feature_cell ← get r (u "ah5Ghc");
  feature_cell2 ← get r (u "ah5Ghc (2)");
  Some {|
    name := strip name_cell;
    map_url := strip link_cell;
    rating := Some (clean_value rating_cell);
    review_count := Some (clean_value (strip_chars (u "()") review_cell));
    category := Some (clean_value category_cell);
    address := Some (clean_value address_cell);
    status := Some (clean_value status_cell);
    hours := Some (clean_value hours_cell);
    website := or_none (strip website_cell);
    phone := or_none (clean_value phone_cell);
    features := List.filter truthy [clean_value feature_cell; clean_value feature_cell2];
    image_url := imgs !! strip link_cell;
    slug := slug
  |}.

(** The slugs of a list of records. *)
Definition slugs (l : list Store) : list str := List.map slug l.

(** The [k]-th candidate tried by the loop of [slugify]. *)
Definition candidate (base : str) (k : N) : str := base ++ u "-" ++ str_of_int k.

(** What holds of the loop state between two rows: the slugs given out are
    pairwise distinct, not empty, and all recorded in [seen_slugs]. *)
Definition slugs_fresh (st : loader) : Prop :=
  NoDup (slugs (stores st))
  /\ Forall (fun s => s <> []) (slugs (stores st))
  /\ (forall s, In s (slugs (stores st)) -> s ∈ seen_slugs st).

(** The record of each accepted row, in row order. *)
Definition built_from (imgs : gmap str str) (r : row) (s : Store) : Prop :=
  record_of imgs r (slug s) = Some s.

(** The files written by [build_site]. *)
Definition index_path : path := OUTPUT_DIR ++ [u "index.html"].

Definition style_path : path := ASSETS_DIR ++ [u "style.css"].

Definition page_path (store : Store) : path :=
  (OUTPUT_DIR ++ [slug store]) ++ [u "index.html"].

(** [w'] has the directories and files of [w], with the same index page. *)
Definition extends (w w' : world) : Prop :=
  dirs w ⊆ dirs w'
  /\ files w' !! index_path = files w !! index_path
  /\ (forall p, is_Some (files w !! p) -> is_Some (files w' !! p)).

(** What a row of the detail file gives for the key [k], if anything. *)
Definition image_entry (k : str) (r : row) : option str :=
  link_cell ← get r (u "hfpxzc href");
  image_cell ← get r (u "aoRNLd src");
  if truthy (strip link_cell) && truthy (strip image_cell)
     && bool_decide (strip link_cell = k)
  then Some (strip image_cell) else None.

(** The characters a slug can hold: lower-case ASCII letters, ASCII digits,
    the ideographs U+4E00..U+9FFF and the hyphen. *)
Definition slug_safe (c : N) : bool :=
  ((0x61 <=? c) && (c <=? 0x7A)) || ((0x30 <=? c) && (c <=? 0x39))
  || ((0x4E00 <=? c) && (c <=? 0x9FFF)) || (c =? 0x2D).

(** The bars that [display_name] removes from the end of a name. *)
Definition bar (c : N) : bool := (c =? 0x7C) || (c =? 0xFF5C).

(** A text that is its own base slug: it is not empty, and replacing the
    runs, removing the hyphens at both ends and lower-casing all leave it as
    it is. *)
Definition own_slug (s : str) : Prop :=
  s <> [] /\ sub_runs false s = s /\ strip_chars (u "-") s = s /\ lower s = s.

(** The directory of the assets and the style sheet are there. *)
Definition assets_made (w : world) : Prop :=
  list_to_set (ancestors ASSETS_DIR) ⊆ dirs w
  /\ (style_path ∈ dirs w \/ is_Some (files w !! style_path)).

(** The directory and the detail document of a record are there. *)
Definition page_made (s : Store) (w : world) : Prop :=
  list_to_set (ancestors (OUTPUT_DIR ++ [slug s])) ⊆ dirs w
  /\ files w !! page_path s = Some (store_html s).

(** A world that holds the site of [stores]. *)
Definition site_made (stores : list Store) (w : world) : Prop :=
  assets_made w
  /\ files w !! index_path = Some (index_html stores)
  /\ Forall (fun s => page_made s w) stores.

End Root.

(** ** [src/scripts/generate_pages.py] *)

Module Scripts.
Import Py.

(** A row of [csv.reader]. *)
Abbreviation row := (list str).

Section Records.

(** Python's [float] values, the conversion [float(value)] ([None] when it
    raises [ValueError]) and the format [f"{x:.1f}"] are taken as given. *)
Context {float : Type}.
Variable float_of_str : str -> option float.
Variable format_1f : float -> str.

Record Store := mkStore {
  slug : str;
  name : str;
  map_url : str;
  rating : option float;
  review_count : option N;
  category : option str;
  address : option str;
  status : option str;
  hours_note : option str;
  website : option str;
  phone : option str;
  services : list str;
  image_url : option str
}.

Definition badge_text (self : Store) : str :=
  let pieces := [] in
  let pieces := if truthy_opt (category self)
                then pieces ++ [default [] (category self)] else pieces in
  let pieces := if truthy_opt (status self)
                then pieces ++ [default [] (status self)] else pieces in
  let pieces := if truthy_opt (hours_note self)
                then pieces ++ [default [] (hours_note self)] else pieces in
  join (u " · ") pieces.

(** [load_images()] on all the rows of the detail file, header included. *)
Definition load_images_row (images : gmap str str) (r : row) : gmap str str :=
  if (length r <? 2)%nat then images
  else
    let map_url := strip (nth 0 r []) in
    let image_url := strip (nth 1 r []) in
    if truthy map_url && truthy image_url then <[map_url := image_url]> images
    else images.

Definition load_images (detail : list row) : gmap str str :=
  fold_left load_images_row (tail detail) ∅.

Definition coerce_float (value : str) : option float := float_of_str value.

Definition coerce_int (value : str) : option N :=
  let digits := List.filter is_digit value in
  if truthy digits then Some (int_of_digits digits) else None.

Definition clean_text (value : option str) : option str :=
  match value with
  | None => None
  | Some v =>
    if negb (truthy v) then None
    else or_none (strip (lstrip_chars (u "⋅") (strip v)))
  end.

(** The inner loop [for chunk in row[17:]]. *)
Definition add_service (services : list str) (chunk : str) : list str :=
  match clean_text (Some chunk) with
  | Some text =>
    if truthy text && negb (bool_decide (text = u "·"))
    then services ++ [text] else services
  | None => services
  end.

(** The state of the loop of [parse_stores]: the mapping it was given and
    the records built so far. *)
Record parser := mkParser {
  image_lookup : gmap str str;
  stores : list Store
}.

(** One iteration of [for row in reader]. *)
Definition parse_row (st : parser) (r : row) : parser :=
  if (length r <? 3)%nat then st
  else
    let map_url := strip (nth 1 r []) in
    let name := strip (nth 2 r []) in
    if negb (truthy map_url && truthy name && startswith (u "http") map_url) then st
    else
      let rating := r !! 3%nat ≫= (fun v => coerce_float (strip v)) in
      let review_count := r !! 4%nat ≫= coerce_int in
      let category := clean_text (r !! 5%nat) in
      let address := clean_text (r !! 7%nat) in
      let status := clean_text (r !! 8%nat) in
      let hours_note := clean_text (r !! 9%nat) in
      let website_raw := default [] (strip <$> r !! 10%nat) in
      let website := if startswith (u "http") website_raw
                     then Some website_raw else None in
      let phone := clean_text (r !! 16%nat) in
      let services := fold_left add_service (drop 17 r) [] in
      let slug := u "store-" ++ format_02d (N.of_nat (length (stores st) + 1)) in
      let image_url := image_lookup st !! map_url in
      {| image_lookup := image_lookup st;
         stores := stores st ++ [ {|
           slug := slug; name := name; map_url := map_url;
           rating := rating; review_count := review_count;
           category := category; address := address; status := status;
           hours_note := hours_note; website := website; phone := phone;
           services := services; image_url := image_url |} ] |}.

(** [parse_stores(image_lookup)] on all the rows of the data file, header
    included. *)
Definition parse_stores_from (lookup : gmap str str) (data : list row) : parser :=
  fold_left parse_row (tail data) {| image_lookup := lookup; stores := [] |}.

Definition parse_stores (lookup : gmap str str) (data : list row) : list Store :=
  stores (parse_stores_from lookup data).

(** *** Pages *)

Import World.

Definition DATA_CSV : path := [u "google-2025-12-28.csv"].
Definition DETAIL_CSV : path := [u "寵物美容detail.csv"].
Definition DOCS_DIR : path := [u "docs"].
Definition ASSETS_DIR : path := DOCS_DIR ++ [u "assets"].
Definition STORES_DIR : path := DOCS_DIR ++ [u "stores"].
Definition DATA_DIR : path := DOCS_DIR ++ [u "data"].

(** [json.dumps(payload, ensure_ascii=False, indent=2)] is taken as given. *)
Variable json_dumps : list Store -> str.

Definition write_json (stores : list Store) : run unit :=
  mkdir_parents DATA_DIR;;
  write_text (DATA_DIR ++ [u "stores.json"]) (json_dumps stores).

Definition ensure_assets : run unit := mkdir_parents ASSETS_DIR.

(** [f"{store.rating:.1f}" if store.rating is not None else "--"] *)
Definition rating_text (store : Store) : str :=
  match rating store with
  | Some x => format_1f x
  | None => u "--"
  end.

(** [f"（{store.review_count} 則評論）" if store.review_count is not None else ""] *)
Definition reviews_text (store : Store) : str :=
  match review_count store with
  | Some n => concat [u "（"; str_of_int n; u " 則評論）"]
  | None => []
  end.

Definition render_card (store : Store) : str :=
  let image :=
    escape (or_else (image_url store)
              (u "https://via.placeholder.com/640x360?text=Pet+Grooming")) in
  let badge := escape (badge_text store) in
  let rating := rating_text store in
  let reviews := reviews_text store in
  let address := escape (or_else (address store) (u "地址未提供")) in
  concat [
    tpl "
      <article class=`card`>
        <a class=`card__link` href=`stores/";
    slug store;
    tpl "/index.html`>
          <div class=`card__image`>
            <img src=`";
    image;
    tpl "` alt=`";
    escape (name store);
    tpl "` loading=`lazy` />
          </div>
          <div class=`card__body`>
            <p class=`badge`>";
    (if truthy badge then badge else u "寵物美容");
    tpl "</p>
            <h2 class=`card__title`>";
    escape (name store);
    tpl "</h2>
            <p class=`card__meta`>⭐ ";
    rating;
    u " ";
    reviews;
    tpl "</p>
            <p class=`card__text`>";
    address;
    u "</p>
          </div>
        </a>
      </article>
    "
  ].

Definition render_index (stores : list Store) : str :=
  let cards := join [0x0A] (List.map render_card stores) in
  concat [tpl "<!doctype html>
<html lang=`zh-Hant`>
<head>
  <meta charset=`utf-8` />
  <meta name=`viewport` content=`width=device-width, initial-scale=1` />
  <title>台中寵物美容地圖｜獨立店家網站索引</title>
  <link rel=`stylesheet` href=`assets/style.css` />
</head>
<body>
  <header class=`hero`>
    <div class=`container`>
      <p class=`eyebrow`>GitHub Pages 專案</p>
      <h1>台中寵物美容店家索引</h1>
      <p class=`lede`>每間店都有自己的介紹頁面、地圖連結與聯絡資訊。點擊下方卡片即可瀏覽。</p>
    </div>
  </header>
  <main class=`container`>
    <section class=`grid`>"; cards; tpl "</section>
  </main>
  <footer class=`footer`>
    <div class=`container`>
      <p>資料來源：repo 內建 CSV，網站自動生成，可直接透過 GitHub Pages 發佈。</p>
    </div>
  </footer>
</body>
</html>
"].

(** [<li>] items of the services: the left operand of [or] in the local
    variable [services] of [render_store]. *)
Definition service_items (store : Store) : str :=
  concat (List.map (fun item => concat [u "<li>"; escape item; u "</li>"])
            (services store)).

(** The detail document of one store. *)
Definition render_store (store : Store) : str :=
  let image :=
    escape (or_else (image_url store)
              (u "https://via.placeholder.com/960x540?text=Pet+Grooming")) in
  let rating := rating_text store in
  let reviews := reviews_text store in
  let services :=
    if truthy (service_items store) then service_items store
    else u "<li>歡迎電話洽詢服務內容</li>" in
  let address := escape (or_else (address store) (u "地址未提供")) in
  let status_line := escape (or_else (status store) (u "營業狀態未提供")) in
  let hours_line := escape (or_else (hours_note store) (u "歡迎電話詢問營業時間")) in
  let website_link :=
    if_truthy (website store)
      (fun site => concat [tpl "<a class=`button` href=`"; escape site; tpl "` target=`_blank` rel=`noopener`>造訪官方網站</a>"]) [] in
  let phone_line :=
    if_truthy (phone store)
      (fun p => concat [tpl "<a class=`button button--ghost` href=`tel:"; escape p; tpl "`>撥打 "; escape p; u " </a>"]) [] in
  let map_link := escape (map_url store) in
  concat [
    tpl "<!doctype html>
<html lang=`zh-Hant`>
<head>
  <meta charset=`utf-8` />
  <meta name=`viewport` content=`width=device-width, initial-scale=1` />
  <title>";
    escape (name store);
    tpl "｜台中寵物美容店</title>
  <link rel=`stylesheet` href=`../../assets/style.css` />
</head>
<body>
  <header class=`hero`>
    <div class=`container`>
      <p class=`eyebrow`>獨立店家頁面</p>
      <h1>";
    escape (name store);
    tpl "</h1>
      <p class=`lede`>";
    escape (let badge := badge_text store in
            if truthy badge then badge else u "提供專業寵物美容服務");
    tpl "</p>
      <div class=`actions`>
        <a class=`button` href=`";
    map_link;
    tpl "` target=`_blank` rel=`noopener`>查看地圖 / 導航</a>
        ";
    website_link;
    u "
        ";
    phone_line;
    tpl "
        <a class=`button button--ghost` href=`../../index.html`>回到店家索引</a>
      </div>
    </div>
  </header>
  <main class=`container layout`>
    <div class=`layout__media`>
      <img src=`";
    image;
    tpl "` alt=`";
    escape (name store);
    tpl "` />
    </div>
    <div class=`layout__content`>
      <div class=`pill`>⭐ ";
    rating;
    u " ";
    reviews;
    tpl "</div>
      <p class=`detail`><strong>地址：</strong>";
    address;
    tpl "</p>
      <p class=`detail`><strong>營業狀態：</strong>";
    status_line;
    tpl "</p>
      <p class=`detail`><strong>營業時間：</strong>";
    hours_line;
    tpl "</p>
      <p class=`detail`><strong>聯絡電話：</strong>";
    if_truthy (phone store) escape (u "未提供");
    tpl "</p>
      <p class=`detail`><strong>地圖連結：</strong><a href=`";
    map_link;
    tpl "` target=`_blank` rel=`noopener`>在地圖上查看</a></p>
      <h2>服務與備註</h2>
      <ul class=`list`>";
    services;
    tpl "</ul>
    </div>
  </main>
  <footer class=`footer`>
    <div class=`container`>
      <p>此頁面由 CSV 自動生成，可直接透過 GitHub Pages 發佈。</p>
    </div>
  </footer>
</body>
</html>
"
  ].

(** The two input files as read by [csv.reader]; [None] for a file that
    does not exist. *)
Record inputs := mkInputs {
  data_csv : option (list row);
  detail_csv : option (list row)
}.

(** [load_images()] and [parse_stores(image_lookup)] as steps of a run:
    opening a missing file raises. *)
Definition load_images_run (inp : inputs) : run (gmap str str) :=
  match detail_csv inp with
  | None => raise (FileNotFoundError DETAIL_CSV)
  | Some detail => mret (load_images detail)
  end.

Definition parse_stores_run (inp : inputs) (lookup : gmap str str)
    : run (list Store) :=
  match data_csv inp with
  | None => raise (FileNotFoundError DATA_CSV)
  | Some data => mret (parse_stores lookup data)
  end.

(** The loop [for store in stores] of [generate_pages]. *)
Definition write_store_page (store : Store) : run unit :=
  let store_dir := STORES_DIR ++ [slug store] in
  mkdir_parents store_dir;;
  write_text (store_dir ++ [u "index.html"]) (render_store store).

Definition generate_pages (inp : inputs) : run unit :=
  image_lookup ← load_images_run inp;
  stores ← parse_stores_run inp image_lookup;
  match stores with
  | [] => raise (SystemExit (u "No stores found to generate"))
  | _ :: _ =>
    ensure_assets;;
    mkdir_parents STORES_DIR;;
    write_json stores;;
    write_text (DOCS_DIR ++ [u "index.html"]) (render_index stores);;
    for_each write_store_page stores
  end.

(** *** Notions used to state the properties of [parse_stores] *)

(** The rows that [parse_stores] turns into a record. *)
Definition accepted (r : row) : bool :=
  negb (length r <? 3)%nat &&
  (truthy (strip (nth 1 r [])) && truthy (strip (nth 2 r []))
   && startswith (u "http") (strip (nth 1 r []))).

(** The slug given to the [n]-th record, counting from 1. *)
Definition ordinal_slug (n : nat) : str := u "store-" ++ format_02d (N.of_nat n).

(** What a cell of the tail columns adds to [services], if anything. *)
Definition service_of (chunk : str) : option str :=
  match clean_text (Some chunk) with
  | Some text =>
    if truthy text && negb (bool_decide (text = u "·")) then Some text else None
  | None => None
  end.

(** The record built from an accepted row that is the [n]-th accepted one,
    counting from 1. *)
Definition record_of (lookup : gmap str str) (r : row) (n : nat) : Store := {|
  slug := ordinal_slug n;
  name := strip (nth 2 r []);
  map_url := strip (nth 1 r []);
  rating := r !! 3%nat ≫= (fun v => coerce_float (strip v));
  review_count := r !! 4%nat ≫= coerce_int;
  category := clean_text (r !! 5%nat);
  address := clean_text (r !! 7%nat);
  status := clean_text (r !! 8%nat);
  hours_note := clean_text (r !! 9%nat);
  website := if startswith (u "http") (default [] (strip <$> r !! 10%nat))
             then Some (default [] (strip <$> r !! 10%nat)) else None;
  phone := clean_text (r !! 16%nat);
  services := omap service_of (drop 17 r);
  image_url := lookup !! strip (nth 1 r [])
|}.

Definition slugs (l : list Store) : list str := List.map slug l.

(** The rows are numbered in the order in which they are accepted. *)
Fixpoint records_from (lookup : gmap str str) (n : nat) (rows : list row)
    : list Store :=
  match rows with
  | [] => []
  | r :: rows' => record_of lookup r n :: records_from lookup (S n) rows'
  end.

(** The files written by [generate_pages]. *)
Definition index_path : path := DOCS_DIR ++ [u "index.html"].

Definition page_path (store : Store) : path :=
  (STORES_DIR ++ [slug store]) ++ [u "index.html"].

(** What a row of the detail file gives for the key [k], if anything. *)
Definition image_entry (k : str) (r : row) : option str :=
  if (length r <? 2)%nat then None
  else
    let map_url := strip (nth 0 r []) in
    let image_url := strip (nth 1 r []) in
    if truthy map_url && truthy image_url && bool_decide (map_url = k)
    then Some image_url else None.

(** A world that holds the snapshot [json], the index page [index], the
    printed lines [out] and the directories [ds]. *)
Definition kept (json index : str) (out : list str) (ds : gset path) (v : world) : Prop :=
  files v !! (DATA_DIR ++ [u "stores.json"]) = Some json
  /\ files v !! index_path = Some index
  /\ stdout v = out
  /\ ds ⊆ dirs v.

(** The directories that [generate_pages] makes before it writes. *)
Definition site_dirs : gset path :=
  list_to_set (ancestors ASSETS_DIR) ∪ list_to_set (ancestors STORES_DIR)
  ∪ list_to_set (ancestors DATA_DIR).

(** The directory and the detail document of a record are there. *)
Definition page_made (s : Store) (w : world) : Prop :=
  list_to_set (ancestors (STORES_DIR ++ [slug s])) ⊆ dirs w
  /\ files w !! page_path s = Some (render_store s).

(** A world that holds the site of [stores]. *)
Definition site_made (stores : list Store) (w : world) : Prop :=
  kept (json_dumps stores) (render_index stores) (stdout w) site_dirs w
  /\ Forall (fun s => page_made s w) stores.

End Records.


End Scripts.

(** ** Sample inputs *)

Module Samples.
Import Py.

(** A listing with a name, a category cell that holds only a separator and
    an empty phone cell. *)
Definition bare_listing : Root.row :=
  <[ u "W4Efsd" := Some (u " · ") ]>
  (<[ u "UsdlK" := Some (u "") ]> {[ u "qBF1Pd" := Some (u "A") ]}).

(** A listing whose review cell has no digit, whose rating cell is not a
    number and whose website cell is not an absolute link. *)
Definition odd_listing : Root.row :=
  <[ u "lcr4fd href" := Some (u "example.com") ]>
  (<[ u "UY7F9" := Some (u "(abc)") ]>
  (<[ u "MW4etd" := Some (u "N/A") ]> {[ u "qBF1Pd" := Some (u "Paws") ]})).

(** The rows of a data file for [parse_stores]: a header, then one listing
    whose tail columns (from column 17 on) hold the same text twice. *)
Definition header : Scripts.row := [u "id"; u "href"; u "name"].

Definition twice_listing : Scripts.row :=
  [u ""; u "https://maps/x"; u "Happy Paws"]
  ++ repeat [] 14 ++ [u "Spa"; u "Spa"].

(** A text that [clean_text] does not clean fully in one pass. *)
Definition dotted : str := u "⋅ ⋅x".

(** A listing whose name ends with a vertical bar, and without an address. *)
Definition barred_listing : Root.row := {[ u "qBF1Pd" := Some (u "Paws|") ]}.

(** The record that [load_stores] builds for that listing. *)
Definition barred_store : Root.Store := {|
  Root.name := u "Paws|"; Root.map_url := [];
  Root.rating := Some []; Root.review_count := Some []; Root.category := Some [];
  Root.address := Some []; Root.status := Some []; Root.hours := Some [];
  Root.website := None; Root.phone := None; Root.features := [];
  Root.image_url := None; Root.slug := u "paws"
|}.

(** Input files for [build_site] in which the data file has a header and no
    listing, and there is no detail file. *)
Definition no_listings : Root.inputs :=
  {| Root.data_file := Some []; Root.detail_file := None |}.

End Samples.

(** * Properties *)

(** ** Facts about the string operations *)

Module PyFacts.
Import Py.

Lemma truthy_true (s : str) : truthy s = true <-> s <> [].
Proof. destruct s; simpl; split; congruence. Qed.

Lemma truthy_false (s : str) : truthy s = false <-> s = [].
Proof. destruct s; simpl; split; congruence. Qed.

Lemma or_none_None (s : str) : or_none s = None <-> s = [].
Proof. unfold or_none. destruct s; simpl; split; congruence. Qed.

Lemma or_none_Some (s t : str) : or_none s = Some t <-> s = t /\ t <> [].
Proof.
  unfold or_none. destruct s; simpl; split.
  - discriminate.
  - intros [<- H]. congruence.
  - intros [= <-]. split; [reflexivity | discriminate].
  - intros [<- _]. reflexivity.
Qed.

(** *** Decimal digits *)

Lemma digits_of_uint_inj (d e : Decimal.uint) :
  digits_of_uint d = digits_of_uint e -> d = e.
Proof.
  revert e. induction d; intros [] Heq; simpl in Heq;
    try discriminate; try reflexivity;
    injection Heq as Heq; f_equal; auto.
Qed.

Lemma str_of_int_inj (m n : N) : str_of_int m = str_of_int n -> m = n.
Proof.
  intros Heq. apply digits_of_uint_inj in Heq.
  rewrite <- (DecimalN.Unsigned.of_to m), <- (DecimalN.Unsigned.of_to n).
  now rewrite Heq.
Qed.

Lemma digits_of_uint_nil (d : Decimal.uint) :
  digits_of_uint d = [] -> d = Decimal.Nil.
Proof. destruct d; simpl; congruence. Qed.

Lemma str_of_int_nonempty (n : N) : str_of_int n <> [].
Proof.
  unfold str_of_int. intros H. apply digits_of_uint_nil in H.
  destruct n as [|q]; simpl in H; [discriminate |].
  revert H. apply DecimalPos.Unsigned.to_uint_nonnil.
Qed.

(** The value of a digit string with leading zeros is the value without. *)
Lemma of_uint_D0 (d : Decimal.uint) : N.of_uint (Decimal.D0 d) = N.of_uint d.
Proof.
  rewrite <- (DecimalN.Unsigned.of_uint_norm (Decimal.D0 d)).
  rewrite <- (DecimalN.Unsigned.of_uint_norm d).
  now rewrite DecimalFacts.unorm_D0.
Qed.

Lemma digits_pad_uint (k : nat) (d : Decimal.uint) :
  digits_of_uint (pad_uint k d) = repeat 0x30 k ++ digits_of_uint d.
Proof. induction k; simpl; [reflexivity | now rewrite <- IHk]. Qed.

Lemma of_uint_pad (k : nat) (d : Decimal.uint) :
  N.of_uint (pad_uint k d) = N.of_uint d.
Proof.
  induction k as [|k IH]; [reflexivity |].
  change (pad_uint (S k) d) with (Decimal.D0 (pad_uint k d)).
  now rewrite of_uint_D0.
Qed.

Lemma format_02d_inj (m n : N) : format_02d m = format_02d n -> m = n.
Proof.
  unfold format_02d, str_of_int. rewrite <- !digits_pad_uint.
  intros Heq. apply digits_of_uint_inj in Heq.
  apply (f_equal N.of_uint) in Heq.
  now rewrite !of_uint_pad, !DecimalN.Unsigned.of_to in Heq.
Qed.

(** [int] reads back what [str] writes. *)
Lemma int_of_digits_acc (d : Decimal.uint) (acc : positive) :
  fold_left (fun a c => 10 * a + (c - 0x30)) (digits_of_uint d) (N.pos acc)
  = N.pos (Pos.of_uint_acc d acc).
Proof.
  revert acc. induction d; intros acc; simpl digits_of_uint; simpl fold_left;
    simpl Pos.of_uint_acc; try reflexivity;
    match goal with
    | |- fold_left _ _ ?a = N.pos (Pos.of_uint_acc _ ?b) =>
      replace a with (N.pos b) by lia
    end; apply IHd.
Qed.

Lemma int_of_digits_uint (d : Decimal.uint) :
  int_of_digits (digits_of_uint d) = N.of_uint d.
Proof.
  unfold int_of_digits, N.of_uint.
  induction d; simpl digits_of_uint; simpl fold_left; simpl Pos.of_uint;
    try reflexivity; try exact IHd;
    match goal with
    | |- fold_left _ _ ?a = N.pos (Pos.of_uint_acc _ ?b) =>
      replace a with (N.pos b) by lia
    end; apply int_of_digits_acc.
Qed.

Lemma int_of_digits_str_of_int (n : N) : int_of_digits (str_of_int n) = n.
Proof. unfold str_of_int. rewrite int_of_digits_uint. apply DecimalN.Unsigned.of_to. Qed.

(** *** Stripping *)

Section Strip.
Variable p : N -> bool.

Lemma lstrip_by_suffix (s : str) : exists pre, s = pre ++ lstrip_by p s.
Proof.
  induction s as [|c s [pre IH]]; simpl.
  - now exists [].
  - destruct (p c).
    + exists (c :: pre). simpl. now f_equal.
    + now exists [].
Qed.

Lemma lstrip_by_head (s : str) (c : N) (t : str) :
  lstrip_by p s = c :: t -> p c = false.
Proof.
  induction s as [|d s IH]; simpl; [discriminate |].
  destruct (p d) eqn:Hd; [exact IH |].
  intros [= <- <-]. exact Hd.
Qed.

Lemma lstrip_by_id (s : str) :
  match s with [] => True | c :: _ => p c = false end -> lstrip_by p s = s.
Proof. destruct s as [|c s]; simpl; [reflexivity |]. now intros ->. Qed.

Lemma lstrip_by_idem (s : str) : lstrip_by p (lstrip_by p s) = lstrip_by p s.
Proof.
  apply lstrip_by_id. destruct (lstrip_by p s) eqn:E; [exact I |].
  eapply lstrip_by_head, E.
Qed.

Lemma rstrip_by_idem (s : str) : rstrip_by p (rstrip_by p s) = rstrip_by p s.
Proof. unfold rstrip_by. now rewrite rev_involutive, lstrip_by_idem. Qed.

Lemma rstrip_by_prefix (s : str) : exists post, s = rstrip_by p s ++ post.
Proof.
  unfold rstrip_by. destruct (lstrip_by_suffix (rev s)) as [pre H].
  exists (rev pre). rewrite <- rev_app_distr, <- H. now rewrite rev_involutive.
Qed.

(** Stripping on the right keeps the first character. *)
Lemma rstrip_by_head (s : str) :
  match s with [] => True | c :: _ => p c = false end ->
  match rstrip_by p s with [] => True | c :: _ => p c = false end.
Proof.
  destruct (rstrip_by_prefix s) as [post H].
  destruct (rstrip_by p s) as [|c t]; [trivial |].
  rewrite H. simpl. trivial.
Qed.

Lemma strip_by_head (s : str) :
  match strip_by p s with [] => True | c :: _ => p c = false end.
Proof.
  unfold strip_by. apply rstrip_by_head.
  destruct (lstrip_by p s) eqn:E; [exact I |]. eapply lstrip_by_head, E.
Qed.

Lemma strip_by_idem (s : str) : strip_by p (strip_by p s) = strip_by p s.
Proof.
  unfold strip_by at 1. rewrite (lstrip_by_id (strip_by p s)).
  - unfold strip_by. apply rstrip_by_idem.
  - apply strip_by_head.
Qed.

Lemma lstrip_by_length (s : str) : (length (lstrip_by p s) <= length s)%nat.
Proof.
  destruct (lstrip_by_suffix s) as [pre H].
  rewrite H at 2. rewrite length_app. lia.
Qed.

Lemma rstrip_by_length (s : str) : (length (rstrip_by p s) <= length s)%nat.
Proof.
  destruct (rstrip_by_prefix s) as [post H].
  rewrite H at 2. rewrite length_app. lia.
Qed.

Lemma strip_by_length (s : str) : (length (strip_by p s) <= length s)%nat.
Proof.
  unfold strip_by. etransitivity; [apply rstrip_by_length | apply lstrip_by_length].
Qed.

Lemma lstrip_by_incl (s : str) (c : N) : In c (lstrip_by p s) -> In c s.
Proof.
  destruct (lstrip_by_suffix s) as [pre H]. intros Hin.
  rewrite H. apply in_or_app. now right.
Qed.

Lemma rstrip_by_incl (s : str) (c : N) : In c (rstrip_by p s) -> In c s.
Proof.
  destruct (rstrip_by_prefix s) as [post H]. intros Hin.
  rewrite H. apply in_or_app. now left.
Qed.

Lemma strip_by_incl (s : str) (c : N) : In c (strip_by p s) -> In c s.
Proof. unfold strip_by. intros H. now apply lstrip_by_incl, rstrip_by_incl. Qed.

End Strip.

Lemma strip_idem (s : str) : strip (strip s) = strip s.
Proof. apply strip_by_idem. Qed.

(** *** Replacing a character *)

Lemma replace_char_app (old : N) (new s t : str) :
  replace_char old new (s ++ t) = replace_char old new s ++ replace_char old new t.
Proof. unfold replace_char. apply flat_map_app. Qed.

Lemma remove_char_absent (old : N) (s : str) :
  ~ In old s -> replace_char old [] s = s.
Proof.
  induction s as [|c s IH]; simpl; [reflexivity |].
  intros H. destruct (N.eqb_spec c old) as [->|Hne].
  - exfalso. apply H. now left.
  - simpl. f_equal. apply IH. intros Hin. apply H. now right.
Qed.

Lemma remove_char_not_in (old : N) (s : str) : ~ In old (replace_char old [] s).
Proof.
  induction s as [|c s IH]; simpl; [tauto |].
  destruct (N.eqb_spec c old) as [->|Hne]; simpl; [exact IH |].
  intros [H|H]; [congruence | contradiction].
Qed.

Lemma remove_char_incl (old c : N) (s : str) :
  In c (replace_char old [] s) -> In c s.
Proof.
  induction s as [|d s IH]; simpl; [tauto |].
  destruct (N.eqb_spec d old) as [->|Hne]; simpl; intuition.
Qed.

Lemma escape_app (s t : str) : escape (s ++ t) = escape s ++ escape t.
Proof. unfold escape. now rewrite !replace_char_app. Qed.

(** *** Substrings *)

Lemma startswith_app (s t : str) : startswith s (s ++ t) = true.
Proof.
  induction s as [|c s IH]; simpl; [reflexivity |].
  now rewrite N.eqb_refl, IH.
Qed.

Lemma contains_unfold (s hay : str) :
  contains s hay =
  startswith s hay || match hay with [] => false | _ :: hay' => contains s hay' end.
Proof. destruct hay; reflexivity. Qed.

Lemma contains_app (pre s post : str) : contains s (pre ++ s ++ post) = true.
Proof.
  induction pre as [|c pre IH].
  - rewrite contains_unfold. simpl app. now rewrite startswith_app.
  - rewrite contains_unfold. change ((c :: pre) ++ s ++ post) with (c :: (pre ++ s ++ post)).
    cbv beta iota. rewrite IH. apply orb_true_r.
Qed.

Lemma contains_prefix (s post : str) : contains s (s ++ post) = true.
Proof. apply (contains_app [] s post). Qed.

(** [needle in hay] holds exactly when [hay] is some text, [needle], and
    some more text. *)
Lemma startswith_true (s hay : str) :
  startswith s hay = true -> exists post, hay = s ++ post.
Proof.
  revert hay. induction s as [|c s IH]; intros hay H.
  - now exists hay.
  - destruct hay as [|d hay]; [discriminate |]. simpl in H.
    apply andb_prop in H as [Hc Hs]. apply N.eqb_eq in Hc as ->.
    destruct (IH _ Hs) as [post ->]. now exists post.
Qed.

Lemma contains_true (s hay : str) :
  contains s hay = true <-> exists pre post, hay = pre ++ s ++ post.
Proof.
  split.
  - induction hay as [|c hay IH]; rewrite contains_unfold; intros H.
    + rewrite orb_false_r in H. apply startswith_true in H as [post ->].
      now exists [], post.
    + apply orb_prop in H as [H|H].
      * apply startswith_true in H as [post ->]. now exists [], post.
      * destruct (IH H) as (pre & post & ->). now exists (c :: pre), post.
  - intros (pre & post & ->). apply contains_app.
Qed.

Lemma contains_refl (s : str) : contains s s = true.
Proof. apply contains_true. exists [], []. now rewrite app_nil_r. Qed.

Lemma contains_nil (hay : str) : contains [] hay = true.
Proof. apply contains_true. now exists [], hay. Qed.

Lemma contains_trans (a b c : str) :
  contains a b = true -> contains b c = true -> contains a c = true.
Proof.
  rewrite !contains_true. intros (p1 & q1 & ->) (p2 & q2 & ->).
  exists (p2 ++ p1), (q1 ++ q2). now rewrite <- !app_assoc.
Qed.

Lemma contains_concat (piece : str) (pieces : list str) :
  In piece pieces -> contains piece (concat pieces) = true.
Proof.
  intros (l1 & l2 & ->)%in_split. rewrite concat_app. simpl concat.
  apply contains_app.
Qed.

(** A text found in a piece is found in the whole. *)
Lemma contains_piece (s piece : str) (pieces : list str) :
  In piece pieces -> contains s piece = true -> contains s (concat pieces) = true.
Proof. intros Hin Hs. eapply contains_trans; [exact Hs | now apply contains_concat]. Qed.

Lemma contains_escape (a b : str) :
  contains a b = true -> contains (escape a) (escape b) = true.
Proof.
  rewrite !contains_true. intros (pre & post & ->).
  exists (escape pre), (escape post). now rewrite !escape_app.
Qed.

Lemma contains_join (sep piece : str) (pieces : list str) :
  In piece pieces -> contains piece (join sep pieces) = true.
Proof.
  induction pieces as [|p rest IH]; [intros [] |].
  intros [->|Hin].
  - destruct rest; simpl.
    + apply contains_refl.
    + apply contains_prefix.
  - destruct rest as [|q rest]; [destruct Hin |].
    change (join sep (p :: q :: rest)) with (p ++ sep ++ join sep (q :: rest)).
    apply contains_true. apply IH, contains_true in Hin as (pre & post & ->).
    exists (p ++ sep ++ pre), post. now rewrite <- !app_assoc.
Qed.

Lemma forallb_contains (f : str -> str) (l : list str) (hay : str) :
  (forall x, In x l -> contains (f x) hay = true) ->
  forallb (fun x => contains (f x) hay) l = true.
Proof. intros H. apply forallb_forall. exact H. Qed.

Lemma if_truthy_Some {A : Type} (s : str) (f : str -> A) (d : A) :
  s <> [] -> if_truthy (Some s) f d = f s.
Proof. intros H%truthy_true. unfold if_truthy. now rewrite H. Qed.

(** An optional text is shown when every text that is not empty is. *)
Lemma shown_intro (o : option str) (hay : str) :
  (forall s, o = Some s -> s <> [] -> contains (escape s) hay = true) ->
  shown o hay = true.
Proof.
  intros H. destruct o as [s|]; [| reflexivity]. simpl.
  destruct s as [|c s]; [apply contains_nil |]. now apply H.
Qed.

Lemma in_if_truthy_keep (o : option str) (f : str -> str) (m : list str) (x : str) :
  In x m -> In x (if_truthy o (fun v => m ++ [f v]) m).
Proof.
  intros H. unfold if_truthy. destruct o as [v|]; [| exact H].
  destruct (truthy v); [| exact H]. apply in_or_app. now left.
Qed.

Lemma in_if_truthy_new (v : str) (f : str -> str) (m : list str) :
  v <> [] -> In (f v) (if_truthy (Some v) (fun v => m ++ [f v]) m).
Proof.
  intros H. rewrite (if_truthy_Some v _ _ H). apply in_or_app. right. now left.
Qed.

(** A text found in [part] is found in [if part then part else other]
    or is empty. *)
Lemma contains_or_default (s part other hay : str) :
  contains s part = true ->
  contains (if truthy part then part else other) hay = true ->
  contains s hay = true.
Proof.
  intros Hs Hpart. destruct part as [|c part]; simpl in Hpart.
  - apply contains_true in Hs as (pre & post & Heq).
    symmetry in Heq. apply app_eq_nil in Heq as [_ Heq].
    apply app_eq_nil in Heq as [-> _]. apply contains_nil.
  - eapply contains_trans; eassumption.
Qed.

(** The last element of a list with one more element in front. *)
Lemma last_cons_omap {A : Type} (x : A) (l : list A) :
  last (x :: l) = match last l with Some y => Some y | None => Some x end.
Proof.
  destruct l as [|y l]; [reflexivity |].
  change (last (x :: y :: l)) with (last (y :: l)).
  assert (exists z, last (y :: l) = Some z) as [z ->]; [| reflexivity].
  revert y. induction l as [|a l IH]; intros y; [now exists y |].
  change (last (y :: a :: l)) with (last (a :: l)). apply IH.
Qed.

Lemma omap_cons {A B : Type} (f : A -> option B) (x : A) (l : list A) :
  omap f (x :: l) = match f x with Some y => y :: omap f l | None => omap f l end.
Proof. reflexivity. Qed.

End PyFacts.

(** ** Facts about [src/generate_pages.py] *)

Module RootFacts.
Import Py PyFacts Root.

(** *** Cleaning *)

Lemma clean_value_no_glyph (s : str) :
  ~ In 0x22C5 (clean_value s) /\ ~ In 0xB7 (clean_value s).
Proof.
  unfold clean_value, strip. split; intros H%strip_by_incl.
  - apply remove_char_incl in H. revert H. apply remove_char_not_in.
  - revert H. apply remove_char_not_in.
Qed.

Lemma clean_value_idem (s : str) : clean_value (clean_value s) = clean_value s.
Proof.
  destruct (clean_value_no_glyph s) as [H1 H2].
  unfold clean_value at 1.
  rewrite (remove_char_absent _ _ H1), (remove_char_absent _ _ H2).
  unfold clean_value. apply strip_idem.
Qed.

(** *** The slug loop *)

Lemma candidate_inj (base : str) (j k : N) :
  candidate base j = candidate base k -> j = k.
Proof.
  unfold candidate. intros H.
  apply app_inv_head in H. apply app_inv_head in H.
  now apply str_of_int_inj.
Qed.

Lemma candidate_neq_base (base : str) (k : N) : candidate base k <> base.
Proof.
  unfold candidate. intros H. apply (f_equal (@length N)) in H.
  rewrite !length_app in H. simpl in H. lia.
Qed.

Lemma candidate_nonempty (base : str) (k : N) : candidate base k <> [].
Proof.
  unfold candidate. intros H. apply app_eq_nil in H as [_ H]. discriminate.
Qed.

(** The loop stops, on a slug outside [existing], as soon as the bound
    exceeds the number of slugs that can still be met. *)
Lemma slug_loop_stops (base : str) (existing : gset str) :
  forall (fuel : nat) (rest : gset str) (slug : str) (counter : N),
    (size rest < fuel)%nat ->
    (slug ∈ existing -> slug ∈ rest) ->
    (forall k, counter <= k -> candidate base k ∈ existing -> candidate base k ∈ rest) ->
    (forall k, counter <= k -> candidate base k <> slug) ->
    exists s, slug_loop fuel base existing slug counter = Some s /\ s ∉ existing.
Proof.
  induction fuel as [|fuel IH]; intros rest slug counter Hsize Hslug Hrest Hnew.
  - lia.
  - simpl. destruct (decide (slug ∈ existing)) as [Hin|Hout].
    + apply (IH (rest ∖ {[slug]})).
      * assert (size (rest ∖ {[slug]}) = size rest - size ({[slug]} : gset str))%nat
          as Hd by (apply size_difference; set_solver).
        rewrite size_singleton in Hd.
        assert (size rest <> 0)%nat.
        { intros H0. apply size_empty_inv in H0. set_solver. }
        lia.
      * intros Hc. apply elem_of_difference. split.
        -- apply (Hrest counter); [lia | exact Hc].
        -- intros Heq%elem_of_singleton. apply (Hnew counter); [lia | exact Heq].
      * intros k Hk Hc. apply elem_of_difference. split.
        -- apply Hrest; [lia | exact Hc].
        -- intros Heq%elem_of_singleton. apply (Hnew k); [lia | exact Heq].
      * intros k Hk Heq. apply candidate_inj in Heq. lia.
    + exists slug. split; [reflexivity | exact Hout].
Qed.

(** A larger bound does not change the result. *)
Lemma slug_loop_more_fuel (base : str) (existing : gset str) :
  forall (fuel fuel' : nat) (slug : str) (counter : N) (s : str),
    (fuel <= fuel')%nat ->
    slug_loop fuel base existing slug counter = Some s ->
    slug_loop fuel' base existing slug counter = Some s.
Proof.
  induction fuel as [|fuel IH]; intros fuel' slug counter s Hle H.
  - discriminate.
  - destruct fuel' as [|fuel']; [lia |].
    simpl in *. destruct (decide (slug ∈ existing)); [| exact H].
    apply IH; [lia | exact H].
Qed.

(** The result is the first slug or one of the candidates. *)
Lemma slug_loop_shape (base : str) (existing : gset str) :
  forall (fuel : nat) (slug : str) (counter : N) (s : str),
    slug_loop fuel base existing slug counter = Some s ->
    s = slug \/ exists k, s = candidate base k.
Proof.
  induction fuel as [|fuel IH]; intros slug counter s H; [discriminate |].
  simpl in H. destruct (decide (slug ∈ existing)).
  - apply IH in H as [->|H]; right; [now exists counter | exact H].
  - injection H as <-. now left.
Qed.

Lemma slug_base_nonempty (name : str) : slug_base name <> [].
Proof.
  unfold slug_base.
  destruct (truthy _) eqn:E; [now apply truthy_true | discriminate].
Qed.

(** [slugify] returns, with a slug that is new and not empty, and adds
    that slug to the set. *)
Lemma slugify_returns (name : str) (existing : gset str) :
  exists slug,
    slugify name existing = Some (slug, {[slug]} ∪ existing)
    /\ (slug ∉ existing) /\ slug <> [].
Proof.
  unfold slugify.
  destruct (slug_loop_stops (slug_base name) existing (S (size existing))
              existing (slug_base name) 2) as (s & Hs & Hout).
  - lia.
  - trivial.
  - trivial.
  - intros k _. apply candidate_neq_base.
  - exists s. rewrite Hs. split; [reflexivity |]. split; [exact Hout |].
    apply slug_loop_shape in Hs as [->|[k ->]].
    + apply slug_base_nonempty.
    + apply candidate_nonempty.
Qed.

(** *** The loop of [load_stores] *)

Import World.

(** A cleaned text that is not empty is more than separators. *)
Lemma clean_value_meaningful (s : str) :
  clean_value s <> [] -> meaningful (clean_value s) = true.
Proof.
  intros Hne. destruct (clean_value_no_glyph s) as [H1 H2].
  pose proof (strip_by_head isspace
                (replace_char 0xB7 [] (replace_char 0x22C5 [] s))) as Hh.
  fold (strip (replace_char 0xB7 [] (replace_char 0x22C5 [] s))) in Hh.
  fold (clean_value s) in Hh.
  destruct (clean_value s) as [|c t]; [congruence |].
  cbn [meaningful existsb]. rewrite Hh. unfold separator.
  destruct (N.eqb_spec c 0xB7) as [->|_]; [exfalso; apply H2; now left |].
  destruct (N.eqb_spec c 0x22C5) as [->|_]; [exfalso; apply H1; now left |].
  reflexivity.
Qed.

Lemma features_kept (c1 c2 : str) :
  Forall (fun t => t <> [] /\ ~ In 0x22C5 t /\ ~ In 0xB7 t /\ meaningful t = true)
    (List.filter truthy [clean_value c1; clean_value c2]).
Proof.
  apply List.Forall_forall. intros t [Hin Ht]%filter_In.
  apply truthy_true in Ht. split; [exact Ht |].
  destruct Hin as [<-|[<-|[]]].
  all: split; [apply clean_value_no_glyph |];
    split; [apply clean_value_no_glyph | now apply clean_value_meaningful].
Qed.

Ltac cells :=
  cbn [call mbind outcome_bind mret outcome_ret option_bind present
       andb orb negb forallb fold_loop] in *;
  unfold add_feature in *;
  cbn [call mbind outcome_bind mret outcome_ret option_bind present
       andb orb negb forallb fold_loop] in *.

Ltac cell key :=
  destruct (get _ key) as [?cell|]; cells; try discriminate; try reflexivity.

Lemma load_stores_row_unreadable (st : loader) (r : row) :
  readable r = false -> load_stores_row st r = Raise AttributeError.
Proof.
  unfold readable, accepted, load_stores_row.
  cell (u "qBF1Pd"). cell (u "hfpxzc href").
  destruct (truthy (strip cell)); cells; [| discriminate].
  cell (u "MW4etd"). cell (u "UY7F9"). cell (u "W4Efsd"). cell (u "W4Efsd (3)").
  cell (u "W4Efsd (4)"). cell (u "W4Efsd (5)"). cell (u "lcr4fd href").
  cell (u "UsdlK"). cell (u "ah5Ghc"). cell (u "ah5Ghc (2)").
Qed.

Lemma load_stores_row_skip (st : loader) (r : row) :
  readable r = true -> accepted r = false -> load_stores_row st r = Ok st.
Proof.
  unfold readable, accepted, load_stores_row.
  cell (u "qBF1Pd"). cell (u "hfpxzc href").
  intros _ ->. reflexivity.
Qed.

Lemma load_stores_row_accept (st : loader) (r : row) :
  readable r = true -> accepted r = true ->
  exists slug s,
    (slug ∉ seen_slugs st) /\ slug <> []
    /\ record_of (images st) r slug = Some s
    /\ load_stores_row st r =
         Ok {| images := images st;
               stores := stores st ++ [s];
               seen_slugs := {[slug]} ∪ seen_slugs st |}.
Proof.
  unfold readable, accepted, load_stores_row, record_of.
  cell (u "qBF1Pd"). cell (u "hfpxzc href").
  intros Hr Ha. rewrite Ha in *. cells.
  cell (u "MW4etd"). cell (u "UY7F9"). cell (u "W4Efsd"). cell (u "W4Efsd (3)").
  cell (u "W4Efsd (4)"). cell (u "W4Efsd (5)"). cell (u "lcr4fd href").
  cell (u "UsdlK"). cell (u "ah5Ghc"). cell (u "ah5Ghc (2)").
  destruct (slugify_returns (strip cell) (seen_slugs st)) as (slug & Hs & Hout & Hne).
  rewrite Hs. exists slug. eexists. split; [exact Hout |]. split; [exact Hne |].
  split; [reflexivity |].
  cbn [List.filter].
  destruct (truthy (clean_value cell9)); destruct (truthy (clean_value cell10));
    cells; reflexivity.
Qed.

Lemma record_of_slug (imgs : gmap str str) (r : row) (sl : str) (s : Store) :
  record_of imgs r sl = Some s -> slug s = sl.
Proof.
  unfold record_of.
  cell (u "qBF1Pd"). cell (u "hfpxzc href").
  cell (u "MW4etd"). cell (u "UY7F9"). cell (u "W4Efsd"). cell (u "W4Efsd (3)").
  cell (u "W4Efsd (4)"). cell (u "W4Efsd (5)"). cell (u "lcr4fd href").
  cell (u "UsdlK"). cell (u "ah5Ghc"). cell (u "ah5Ghc (2)").
  now intros [= <-].
Qed.

Lemma slugs_fresh_init (imgs : gmap str str) :
  slugs_fresh {| images := imgs; stores := []; seen_slugs := ∅ |}.
Proof.
  unfold slugs_fresh. simpl. split; [constructor |]. split; [constructor |].
  intros s [].
Qed.

(** The loop returns when every row can be read, with one record for each
    accepted row; otherwise it raises. *)
Lemma load_stores_loop_spec (rows : list row) :
  forall st : loader,
    slugs_fresh st ->
    if forallb readable rows
    then exists st' new,
        fold_loop load_stores_row rows st = Ok st'
        /\ images st' = images st
        /\ stores st' = stores st ++ new
        /\ Forall2 (built_from (images st)) (List.filter accepted rows) new
        /\ slugs_fresh st'
    else fold_loop load_stores_row rows st = Raise AttributeError.
Proof.
  induction rows as [|r rows IH]; intros st Hst.
  - exists st, []. simpl. rewrite app_nil_r. repeat split; try apply Hst. constructor.
  - cbn [forallb fold_loop List.filter].
    destruct (readable r) eqn:Hread; cbn [andb];
      [| now rewrite (load_stores_row_unreadable st r Hread)].
    destruct (accepted r) eqn:Hacc.
    + destruct (load_stores_row_accept st r Hread Hacc)
        as (sl & s & Hout & Hne & Hrec & ->).
      pose proof (record_of_slug _ _ _ _ Hrec) as Hsl.
      set (st1 := {| images := images st;
                     stores := stores st ++ [s];
                     seen_slugs := {[sl]} ∪ seen_slugs st |}).
      assert (slugs_fresh st1) as Hst1.
      { destruct Hst as (Hnd & Hall & Hseen). unfold slugs_fresh, slugs. simpl.
        rewrite map_app. simpl. rewrite Hsl. repeat split.
        - apply NoDup_app. split; [exact Hnd |]. split.
          + intros x Hx%list_elem_of_In [->|[]]%list_elem_of_In%List.in_inv.
            apply Hout, Hseen, Hx.
          + apply NoDup_singleton.
        - apply Forall_app. split; [exact Hall |]. now constructor.
        - intros x [Hx|[<-|[]]]%in_app_or.
          + apply elem_of_union_r, Hseen, Hx.
          + apply elem_of_union_l, elem_of_singleton. reflexivity. }
      specialize (IH st1 Hst1). cbn [mbind outcome_bind].
      destruct (forallb readable rows); [| exact IH].
      destruct IH as (st' & new & Hrun & Himg & Hstores & Hnew & Hfresh).
      exists st', (s :: new).
      split; [exact Hrun |]. split; [exact Himg |]. split.
      { rewrite Hstores. simpl. now rewrite <- app_assoc. }
      split; [| exact Hfresh].
      constructor; [| exact Hnew]. unfold built_from. now rewrite Hsl.
    + rewrite (load_stores_row_skip st r Hread Hacc). cbn [mbind outcome_bind].
      apply IH, Hst.
Qed.

Lemma load_stores_from_spec (imgs : gmap str str) (rows : list row) :
  if forallb readable rows
  then exists st,
      load_stores_from imgs rows = Ok st
      /\ images st = imgs
      /\ Forall2 (built_from imgs) (List.filter accepted rows) (stores st)
      /\ slugs_fresh st
  else load_stores_from imgs rows = Raise AttributeError.
Proof.
  pose proof (load_stores_loop_spec rows _ (slugs_fresh_init imgs)) as H.
  unfold load_stores_from. destruct (forallb readable rows); [| exact H].
  destruct H as (st & new & Hrun & Himg & Hstores & Hnew & Hfresh).
  exists st. simpl in *. subst. repeat split; try assumption; apply Hfresh.
Qed.

(** What a record built from a row holds. *)
Lemma record_of_Some (imgs : gmap str str) (r : row) (sl : str) (s : Store) :
  record_of imgs r sl = Some s ->
  exists name_cell link_cell rating_cell review_cell category_cell address_cell
         status_cell hours_cell website_cell phone_cell feature_cell feature_cell2,
    (get r (u "qBF1Pd") = Some name_cell /\ get r (u "hfpxzc href") = Some link_cell
     /\ get r (u "MW4etd") = Some rating_cell /\ get r (u "UY7F9") = Some review_cell
     /\ get r (u "W4Efsd") = Some category_cell
     /\ get r (u "W4Efsd (3)") = Some address_cell
     /\ get r (u "W4Efsd (4)") = Some status_cell
     /\ get r (u "W4Efsd (5)") = Some hours_cell
     /\ get r (u "lcr4fd href") = Some website_cell
     /\ get r (u "UsdlK") = Some phone_cell
     /\ get r (u "ah5Ghc") = Some feature_cell
     /\ get r (u "ah5Ghc (2)") = Some feature_cell2)
    /\ s = {|
         name := strip name_cell;
         map_url := strip link_cell;
         rating := Some (clean_value rating_cell);
         review_count := Some (clean_value (strip_chars (u "()") review_cell));
         category := Some (clean_value category_cell);
         address := Some (clean_value address_cell);
         status := Some (clean_value status_cell);
         hours := Some (clean_value hours_cell);
         website := or_none (strip website_cell);
         phone := or_none (clean_value phone_cell);
         features :=
           List.filter truthy [clean_value feature_cell; clean_value feature_cell2];
         image_url := imgs !! strip link_cell;
         slug := sl
       |}.
Proof.
  unfold record_of.
  destruct (get r (u "qBF1Pd")) as [c1|]; [| discriminate].
  destruct (get r (u "hfpxzc href")) as [c2|]; [| discriminate].
  destruct (get r (u "MW4etd")) as [c3|]; [| discriminate].
  destruct (get r (u "UY7F9")) as [c4|]; [| discriminate].
  destruct (get r (u "W4Efsd")) as [c5|]; [| discriminate].
  destruct (get r (u "W4Efsd (3)")) as [c6|]; [| discriminate].
  destruct (get r (u "W4Efsd (4)")) as [c7|]; [| discriminate].
  destruct (get r (u "W4Efsd (5)")) as [c8|]; [| discriminate].
  destruct (get r (u "lcr4fd href")) as [c9|]; [| discriminate].
  destruct (get r (u "UsdlK")) as [c10|]; [| discriminate].
  destruct (get r (u "ah5Ghc")) as [c11|]; [| discriminate].
  destruct (get r (u "ah5Ghc (2)")) as [c12|]; [| discriminate].
  cbn [mbind option_bind]. intros [= <-].
  exists c1, c2, c3, c4, c5, c6, c7, c8, c9, c10, c11, c12.
  repeat split.
Qed.

(** *** The loop of [load_images] *)

Lemma load_images_row_unreadable (m : gmap str str) (r : row) :
  image_readable r = false -> load_images_row m r = Raise AttributeError.
Proof.
  unfold image_readable, load_images_row.
  cell (u "hfpxzc href"). cell (u "aoRNLd src").
Qed.

Lemma load_images_row_readable (m : gmap str str) (r : row) :
  image_readable r = true ->
  exists m',
    load_images_row m r = Ok m'
    /\ forall k, m' !! k = match image_entry k r with
                           | Some img => Some img
                           | None => m !! k
                           end.
Proof.
  unfold image_readable, load_images_row, image_entry.
  cell (u "hfpxzc href"). cell (u "aoRNLd src"). intros _.
  eexists. split; [reflexivity |]. intros k.
  destruct (truthy (strip cell) && truthy (strip cell0)) eqn:Hvalid; cbn [andb].
  - destruct (bool_decide_reflect (strip cell = k)) as [Hk|Hk].
    + rewrite Hk. apply lookup_insert_eq.
    + now apply lookup_insert_ne.
  - reflexivity.
Qed.

Lemma load_images_loop_spec (rows : list row) :
  forall m : gmap str str,
    if forallb image_readable rows
    then exists m',
        fold_loop load_images_row rows m = Ok m'
        /\ forall k, m' !! k = match last (omap (image_entry k) rows) with
                               | Some img => Some img
                               | None => m !! k
                               end
    else fold_loop load_images_row rows m = Raise AttributeError.
Proof.
  induction rows as [|r rows IH]; intros m.
  - exists m. split; reflexivity.
  - cbn [forallb fold_loop].
    destruct (image_readable r) eqn:Hread; cbn [andb];
      [| now rewrite (load_images_row_unreadable m r Hread)].
    destruct (load_images_row_readable m r Hread) as (m1 & -> & Hm1).
    cbn [mbind outcome_bind]. specialize (IH m1).
    destruct (forallb image_readable rows); [| exact IH].
    destruct IH as (m' & Hrun & Hm'). exists m'. split; [exact Hrun |].
    intros k. rewrite Hm', Hm1. simpl omap.
    destruct (image_entry k r) as [img|].
    + rewrite last_cons_omap. now destruct (last _).
    + reflexivity.
Qed.

(** [load_images] returns when every row of the detail file can be read,
    and also without a detail file; otherwise it raises. *)
Lemma load_images_spec (detail : option (list row)) :
  if forallb image_readable (default [] detail)
  then exists m,
      load_images detail = Ok m
      /\ forall k, m !! k = last (omap (image_entry k) (default [] detail))
  else load_images detail = Raise AttributeError.
Proof.
  destruct detail as [rows|]; cbn [default from_option id load_images forallb].
  - pose proof (load_images_loop_spec rows ∅) as H.
    destruct (forallb image_readable rows); [| exact H].
    destruct H as (m & Hrun & Hm). exists m. split; [exact Hrun |].
    intros k. rewrite Hm, lookup_empty. now destruct (last _).
  - exists ∅. split; [reflexivity |]. intros k. apply lookup_empty.
Qed.

(** [load_stores] returns when every row of both files can be read, and
    otherwise raises. *)
Lemma load_stores_spec (detail : option (list row)) (data : list row) :
  if forallb image_readable (default [] detail) && forallb readable data
  then exists imgs st,
      load_images detail = Ok imgs
      /\ load_stores_from imgs data = Ok st
      /\ load_stores detail data = Ok (stores st)
      /\ (forall k, imgs !! k = last (omap (image_entry k) (default [] detail)))
      /\ images st = imgs
      /\ Forall2 (built_from imgs) (List.filter accepted data) (stores st)
      /\ slugs_fresh st
  else load_stores detail data = Raise AttributeError.
Proof.
  unfold load_stores. pose proof (load_images_spec detail) as Hi.
  destruct (forallb image_readable (default [] detail)); cbn [andb];
    [| now rewrite Hi].
  destruct Hi as (imgs & Hi & Himgs). rewrite Hi. cbn [mbind outcome_bind].
  pose proof (load_stores_from_spec imgs data) as Hs.
  destruct (forallb readable data); [| now rewrite Hs].
  destruct Hs as (st & Hs & Himg & Hall & Hfresh). exists imgs, st.
  rewrite Hs. cbn [mbind outcome_bind]. auto 10.
Qed.

(** What [load_stores] returns has distinct slugs. *)
Lemma load_stores_distinct (detail : option (list row)) (data : list row)
    (l : list Store) :
  load_stores detail data = Ok l -> NoDup (slugs l).
Proof.
  intros H. pose proof (load_stores_spec detail data) as Hs.
  destruct (_ && _); [| congruence].
  destruct Hs as (imgs & st & _ & _ & Hl & _ & _ & _ & Hnd & _).
  rewrite Hl in H. injection H as <-. exact Hnd.
Qed.

End RootFacts.

(** ** Facts about [src/scripts/generate_pages.py] *)

Module ScriptsFacts.
Import Py PyFacts Scripts.

Lemma ordinal_slug_inj (m n : nat) : ordinal_slug m = ordinal_slug n -> m = n.
Proof.
  unfold ordinal_slug. intros H. apply app_inv_head in H.
  apply format_02d_inj in H. lia.
Qed.

Lemma ordinal_slug_nonempty (n : nat) : ordinal_slug n <> [].
Proof. unfold ordinal_slug. intros H. apply app_eq_nil in H as [H _]. discriminate. Qed.

(** *** Cleaning *)

Lemma small_dot : u "⋅" = [0x22C5].
Proof. reflexivity. Qed.

Lemma middle_dot : u "·" = [0xB7].
Proof. reflexivity. Qed.

(** A result of [clean_text] is not empty and has no white space at its ends. *)
Lemma clean_text_Some (v : option str) (t : str) :
  clean_text v = Some t -> t <> [] /\ strip t = t.
Proof.
  unfold clean_text. destruct v as [s|]; [| discriminate].
  destruct (negb (truthy s)); [discriminate |].
  intros [<- Hne]%or_none_Some. split; [exact Hne | apply strip_idem].
Qed.

Lemma clean_text_again (t : str) :
  t <> [] -> strip t = t ->
  clean_text (Some t) = or_none (strip (lstrip_chars (u "⋅") t)).
Proof.
  intros Hne Hs. unfold clean_text.
  apply truthy_true in Hne. rewrite Hne. simpl. now rewrite Hs.
Qed.

(** Cleaning a cleaned text changes it exactly when it begins with the
    small dot. *)
Lemma clean_text_idem_iff (v : option str) :
  clean_text (clean_text v) = clean_text v
  <-> startswith (u "⋅") (default [] (clean_text v)) = false.
Proof.
  destruct (clean_text v) as [t|] eqn:E; [| simpl; tauto].
  destruct (clean_text_Some v t E) as [Hne Hs].
  rewrite (clean_text_again t Hne Hs). simpl default.
  rewrite small_dot. unfold lstrip_chars.
  destruct t as [|c t]; [congruence |]. simpl.
  destruct (N.eqb_spec c 0x22C5) as [->|Hc]; simpl.
  - split; [| discriminate].
    intros [H _]%or_none_Some. apply (f_equal (@length N)) in H.
    pose proof (strip_by_length isspace (lstrip_by (mem_char [0x22C5]) t)) as H1.
    pose proof (lstrip_by_length (mem_char [0x22C5]) t) as H2.
    unfold strip in H. simpl in H. lia.
  - split; [reflexivity | intros _].
    rewrite Hs. reflexivity.
Qed.

(** What [service_of] keeps is a result of [clean_text] other than the bare
    middle dot. *)
Lemma service_of_Some (chunk text : str) :
  service_of chunk = Some text ->
  clean_text (Some chunk) = Some text /\ text <> [] /\ text <> u "·".
Proof.
  unfold service_of. destruct (clean_text (Some chunk)) as [t|] eqn:E; [| discriminate].
  destruct (truthy t) eqn:Ht; simpl; [| discriminate].
  destruct (bool_decide_reflect (t = u "·")) as [|Hne]; simpl; [discriminate |].
  intros [= <-]. split; [reflexivity |]. split; [now apply truthy_true | exact Hne].
Qed.

Lemma services_kept (cells : list str) :
  Forall (fun t => t <> [] /\ t <> u "·") (omap service_of cells).
Proof.
  induction cells as [|c cells IH]; simpl; [constructor |].
  destruct (service_of c) as [t|] eqn:E; [| exact IH].
  constructor; [| exact IH]. apply service_of_Some in E. tauto.
Qed.

Section Parsing.
Context {float : Type}.
Variable float_of_str : str -> option float.

Abbreviation Store := (@Store float).
Abbreviation parser := (@parser float).
Abbreviation parse_row := (parse_row float_of_str).
Abbreviation record_of := (record_of float_of_str).
Abbreviation records_from := (records_from float_of_str).

Lemma middle_dot_bare : meaningful (u "·") = false.
Proof. reflexivity. Qed.

(** The services are cleaned texts of the cells, in cell order. *)
Lemma services_sublist (cells : list str) :
  sublist (omap service_of cells) (omap (fun cell => clean_text (Some cell)) cells).
Proof.
  induction cells as [|c cells IH]; [constructor |].
  rewrite !omap_cons. unfold service_of at 1.
  destruct (clean_text (Some c)) as [t|]; [| exact IH].
  destruct (truthy t && negb (bool_decide (t = u "·")));
    [now apply sublist_skip | now apply sublist_cons].
Qed.

(** Every cleaned text that is more than separators is among the services. *)
Lemma services_meaningful (cells : list str) :
  List.filter meaningful (omap service_of cells)
  = List.filter meaningful (omap (fun cell => clean_text (Some cell)) cells).
Proof.
  induction cells as [|c cells IH]; [reflexivity |].
  rewrite !omap_cons. unfold service_of at 1.
  destruct (clean_text (Some c)) as [t|] eqn:E; [| exact IH].
  destruct (clean_text_Some _ _ E) as [Hne _]. apply truthy_true in Hne. rewrite Hne.
  destruct (bool_decide_reflect (t = u "·")) as [->|Hdot]; cbn [andb negb List.filter].
  - now rewrite middle_dot_bare.
  - now rewrite IH.
Qed.

Lemma services_omap (cells : list str) :
  forall acc : list str,
    fold_left add_service cells acc = acc ++ omap service_of cells.
Proof.
  induction cells as [|c cells IH]; intros acc; simpl.
  - now rewrite app_nil_r.
  - rewrite IH. unfold add_service, service_of.
    destruct (clean_text (Some c)) as [text|]; [| reflexivity].
    destruct (truthy text && negb (bool_decide (text = u "·"))); [| reflexivity].
    now rewrite <- app_assoc.
Qed.

Lemma parse_row_skip (st : parser) (r : row) :
  accepted r = false -> parse_row st r = st.
Proof.
  unfold accepted, Scripts.parse_row.
  destruct (length r <? 3)%nat; [reflexivity |]. simpl. now intros ->.
Qed.

Lemma parse_row_accept (st : parser) (r : row) :
  accepted r = true ->
  parse_row st r =
    {| image_lookup := image_lookup st;
       stores := stores st
                 ++ [record_of (image_lookup st) r (length (stores st) + 1)] |}.
Proof.
  unfold accepted, Scripts.parse_row.
  destruct (length r <? 3)%nat; [discriminate |]. simpl. intros ->. simpl.
  unfold Scripts.record_of, ordinal_slug. now rewrite (services_omap _ []).
Qed.

Lemma parse_rows_spec (rows : list row) :
  forall st : parser,
    fold_left parse_row rows st =
      {| image_lookup := image_lookup st;
         stores := stores st
                   ++ records_from (image_lookup st) (length (stores st) + 1)
                        (List.filter accepted rows) |}.
Proof.
  induction rows as [|r rows IH]; intros st; simpl.
  - rewrite app_nil_r. now destruct st.
  - destruct (accepted r) eqn:Hacc.
    + rewrite IH, (parse_row_accept st r Hacc). simpl.
      rewrite length_app, <- app_assoc. simpl.
      now replace (length (stores st) + 1 + 1)%nat with (S (length (stores st) + 1)) by lia.
    + now rewrite (parse_row_skip st r Hacc), IH.
Qed.

Lemma parse_stores_from_spec (lookup : gmap str str) (data : list row) :
  parse_stores_from float_of_str lookup data =
    {| image_lookup := lookup;
       stores := records_from lookup 1 (List.filter accepted (tail data)) |}.
Proof. unfold parse_stores_from. now rewrite parse_rows_spec. Qed.

Lemma records_from_slugs (lookup : gmap str str) (rows : list row) :
  forall n, slugs (records_from lookup n rows)
            = List.map ordinal_slug (seq n (length rows)).
Proof.
  induction rows as [|r rows IH]; intros n; simpl; [reflexivity |].
  now rewrite <- IH.
Qed.

Lemma records_from_Forall2 (lookup : gmap str str) (rows : list row) :
  forall n, Forall2 (fun r s => exists k, s = record_of lookup r k)
              rows (records_from lookup n rows).
Proof.
  induction rows as [|r rows IH]; intros n; simpl; constructor; eauto.
Qed.

End Parsing.

End ScriptsFacts.

(** ** Facts about runs *)

Module WorldFacts.
Import Py World.

Lemma returns_impl {A : Type} (m : run A) (Q R : A -> world -> Prop) (w : world) :
  returns m Q w -> (forall a w', Q a w' -> R a w') -> returns m R w.
Proof. intros (a & w' & H & HQ) HR. exists a, w'. auto. Qed.

Lemma returns_ret {A : Type} (a : A) (Q : A -> world -> Prop) (w : world) :
  Q a w -> returns (mret a) Q w.
Proof. intros H. now exists a, w. Qed.

Lemma returns_bind {A B : Type} (m : run A) (k : A -> run B)
    (Q : B -> world -> Prop) (w : world) :
  returns m (fun a w' => returns (k a) Q w') w -> returns (m ≫= k) Q w.
Proof.
  intros (a & w' & Hm & b & w'' & Hk & HQ). exists b, w''.
  split; [| exact HQ]. unfold mbind, run_bind. now rewrite Hm.
Qed.

Lemma parent_exists_in (p : path) (w : world) :
  removelast p ∈ dirs w -> parent_exists p w = true.
Proof.
  unfold parent_exists. intros H. destruct (removelast p); [reflexivity |].
  now apply bool_decide_eq_true.
Qed.

Lemma removelast_snoc (d : path) (x : str) : removelast (d ++ [x]) = d.
Proof. apply removelast_last. Qed.

Lemma self_in_ancestors (p : path) : p <> [] -> In p (ancestors p).
Proof.
  intros Hne. unfold ancestors. apply in_map_iff. exists (length p). split.
  - apply firstn_all.
  - apply in_seq. destruct p; [congruence | simpl; lia].
Qed.

Lemma returns_mkdir_parents (p : path) (Q : unit -> world -> Prop) (w : world) :
  Q tt {| dirs := list_to_set (ancestors p) ∪ dirs w;
          files := files w; stdout := stdout w |} ->
  returns (mkdir_parents p) Q w.
Proof. intros H. eexists tt, _. split; [reflexivity | exact H]. Qed.

Lemma returns_mkdir (p : path) (Q : unit -> world -> Prop) (w : world) :
  parent_exists p w = true ->
  Q tt {| dirs := {[p]} ∪ dirs w; files := files w; stdout := stdout w |} ->
  returns (mkdir p) Q w.
Proof.
  intros Hp H. eexists tt, _. split; [| exact H]. unfold mkdir. now rewrite Hp.
Qed.

Lemma returns_write_text (p : path) (text : str) (Q : unit -> world -> Prop)
    (w : world) :
  parent_exists p w = true ->
  Q tt {| dirs := dirs w; files := <[p := text]> (files w); stdout := stdout w |} ->
  returns (write_text p text) Q w.
Proof.
  intros Hp H. eexists tt, _. split; [| exact H]. unfold write_text. now rewrite Hp.
Qed.

Lemma returns_path_exists (p : path) (Q : bool -> world -> Prop) (w : world) :
  (forall b : bool, Q b w) -> returns (path_exists p) Q w.
Proof. intros H. eexists _, w. split; [reflexivity | apply H]. Qed.

Lemma in_own_ancestors (p : path) (ds : gset path) :
  p <> [] -> p ∈ list_to_set (ancestors p) ∪ ds.
Proof.
  intros Hne. apply elem_of_union_l, elem_of_list_to_set, list_elem_of_In.
  now apply self_in_ancestors.
Qed.

Lemma returns_print (line : str) (Q : unit -> world -> Prop) (w : world) :
  Q tt {| dirs := dirs w; files := files w; stdout := stdout w ++ [line] |} ->
  returns (print line) Q w.
Proof. intros H. eexists tt, _. split; [reflexivity | exact H]. Qed.

(** A loop whose body keeps [I] and leaves [J x] for the element [x] it
    handles, without undoing [J] for the others. *)
Lemma returns_for_each {A : Type} (f : A -> run unit)
    (I : world -> Prop) (J : A -> world -> Prop) :
  (forall x w, I w -> returns (f x) (fun _ w' => I w' /\ J x w') w) ->
  (forall x y w, I w -> J y w -> returns (f x) (fun _ w' => J y w') w) ->
  forall (l : list A) (w : world),
    I w ->
    returns (for_each f l) (fun _ w' => I w' /\ Forall (fun x => J x w') l) w.
Proof.
  intros Hstep Hkeep. induction l as [|x l IH]; intros w HI; simpl.
  - apply returns_ret. split; [exact HI | constructor].
  - apply returns_bind.
    destruct (Hstep x w HI) as ([] & w1 & Hrun & HI1 & HJ1).
    exists tt, w1. split; [exact Hrun |].
    assert (forall (k : list A) (v : world),
               I v -> J x v ->
               returns (for_each f k) (fun _ v' => J x v') v) as Hx.
    { induction k as [|y k IHk]; intros v HIv HJv; simpl.
      - now apply returns_ret.
      - apply returns_bind.
        destruct (Hstep y v HIv) as ([] & v1 & Hv & HIv1 & _).
        destruct (Hkeep y x v HIv HJv) as ([] & v2 & Hv2 & HJv2).
        rewrite Hv in Hv2. injection Hv2 as <-.
        exists tt, v1. split; [exact Hv |]. now apply IHk. }
    destruct (IH w1 HI1) as ([] & w2 & Hrest & HI2 & HJ2).
    destruct (Hx l w1 HI1 HJ1) as ([] & w3 & Hrest' & HJx).
    rewrite Hrest in Hrest'. injection Hrest' as <-.
    exists tt, w2. split; [exact Hrest |]. split; [exact HI2 |].
    constructor; assumption.
Qed.

End WorldFacts.

(** ** Facts about the run of [src/generate_pages.py] *)

Module RootRun.
Import Py World WorldFacts Root.

Lemma page_path_neq_index (store : Store) : page_path store <> index_path.
Proof. intros H. apply (f_equal (@length str)) in H. discriminate H. Qed.

Lemma style_path_neq_index : style_path <> index_path.
Proof. intros H. apply (f_equal (@length str)) in H. discriminate H. Qed.

Lemma extends_refl (w : world) : extends w w.
Proof. unfold extends. auto. Qed.

Lemma extends_trans (w1 w2 w3 : world) :
  extends w1 w2 -> extends w2 w3 -> extends w1 w3.
Proof.
  intros (Hd1 & Hi1 & Hs1) (Hd2 & Hi2 & Hs2). unfold extends.
  split; [set_solver |]. split; [congruence | auto].
Qed.

Lemma extends_dirs (w : world) (ds : gset path) :
  extends w {| dirs := ds ∪ dirs w; files := files w; stdout := stdout w |}.
Proof. unfold extends. cbn. split; [set_solver | auto]. Qed.

Lemma extends_write (w : world) (p : path) (text : str) :
  p <> index_path ->
  extends w {| dirs := dirs w; files := <[p := text]> (files w); stdout := stdout w |}.
Proof.
  intros Hne. unfold extends. cbn. split; [set_solver |]. split.
  - now apply lookup_insert_ne.
  - intros q Hq. rewrite lookup_insert. case_decide; eauto.
Qed.

Lemma ensure_assets_returns (w : world) :
  returns ensure_assets (fun _ w' => extends w w') w.
Proof.
  unfold ensure_assets. apply returns_bind, returns_mkdir_parents.
  apply returns_bind, returns_path_exists. intros present.
  destruct present; simpl negb; cbv iota.
  - apply returns_ret, extends_dirs.
  - apply returns_write_text.
    + apply parent_exists_in. rewrite removelast_snoc. cbn [dirs].
      apply in_own_ancestors. discriminate.
    + eapply extends_trans; [apply extends_dirs |].
      apply (extends_write _ _ _ style_path_neq_index).
Qed.

Lemma output_dir_made (w : world) :
  returns (mkdir OUTPUT_DIR) (fun _ w' => extends w w' /\ OUTPUT_DIR ∈ dirs w') w.
Proof.
  apply returns_mkdir; [reflexivity |]. split; [apply extends_dirs |].
  cbn [dirs]. apply elem_of_union_l, elem_of_singleton. reflexivity.
Qed.

Lemma render_index_returns (stores : list Store) (w : world) :
  returns (render_index stores)
    (fun _ w' => files w' !! index_path = Some (index_html stores)) w.
Proof.
  unfold render_index. apply returns_bind.
  apply (returns_impl _ _ _ _ (output_dir_made w)). intros _ w1 [_ Hdir].
  apply returns_bind.
  apply (returns_impl _ _ _ _ (ensure_assets_returns w1)). intros _ w2 [Hsub _].
  apply returns_write_text.
  - apply parent_exists_in. rewrite removelast_snoc. set_solver.
  - cbn [files]. apply lookup_insert_eq.
Qed.

Lemma render_store_page_returns (store : Store) (w : world) :
  returns (render_store_page store)
    (fun _ w' => extends w w' /\ is_Some (files w' !! page_path store)) w.
Proof.
  unfold render_store_page. apply returns_bind.
  apply (returns_impl _ _ _ _ (output_dir_made w)). intros _ w1 [H1 _].
  apply returns_bind.
  apply (returns_impl _ _ _ _ (ensure_assets_returns w1)). intros _ w2 H2.
  apply returns_bind, returns_mkdir_parents.
  apply returns_write_text.
  - apply parent_exists_in. rewrite removelast_snoc. cbn [dirs].
    apply in_own_ancestors. discriminate.
  - split.
    + eapply extends_trans; [exact H1 |]. eapply extends_trans; [exact H2 |].
      eapply extends_trans; [apply extends_dirs |].
      apply (extends_write _ _ _ (page_path_neq_index store)).
    + cbn [files]. fold (page_path store). rewrite lookup_insert_eq. eauto.
Qed.

Lemma render_pages_returns (stores : list Store) (text : str) (w : world) :
  files w !! index_path = Some text ->
  returns (for_each render_store_page stores)
    (fun _ w' => files w' !! index_path = Some text
                 /\ Forall (fun s => is_Some (files w' !! page_path s)) stores) w.
Proof.
  apply (returns_for_each render_store_page
           (fun v => files v !! index_path = Some text)
           (fun s v => is_Some (files v !! page_path s))).
  - intros s v Hv. apply (returns_impl _ _ _ _ (render_store_page_returns s v)).
    intros _ v' [(_ & Hi & _) Hp]. split; [congruence | exact Hp].
  - intros s t v _ Ht. apply (returns_impl _ _ _ _ (render_store_page_returns s v)).
    intros _ v' [(_ & _ & Hs) _]. auto.
Qed.

(** With the data file there, [load_stores_run] is [load_stores]. *)
Lemma load_stores_run_data (detail : option (list row)) (data : list row) (w : world) :
  load_stores_run {| data_file := Some data; detail_file := detail |} w
  = (load_stores detail data, w).
Proof.
  unfold load_stores_run, load_stores, lift, mbind, run_bind.
  cbn [data_file detail_file]. destruct (load_images detail) as [imgs| |]; try reflexivity.
  cbn [outcome_bind]. now destruct (load_stores_from imgs data).
Qed.

Lemma returns_load_stores_run (detail : option (list row)) (data : list row)
    (l : list Store) (Q : list Store -> world -> Prop) (w : world) :
  load_stores detail data = Ok l -> Q l w ->
  returns (load_stores_run {| data_file := Some data; detail_file := detail |}) Q w.
Proof.
  intros Hl HQ. exists l, w. split; [| exact HQ]. now rewrite load_stores_run_data, Hl.
Qed.

(** When [load_stores] raises, nothing is made or written. *)
Lemma build_site_raises (detail : option (list row)) (data : list row) (e : exn)
    (w : world) :
  load_stores detail data = Raise e ->
  build_site {| data_file := Some data; detail_file := detail |} w = (Raise e, w).
Proof.
  intros H. unfold build_site. unfold mbind at 1. unfold run_bind.
  now rewrite load_stores_run_data, H.
Qed.

(** Whatever the number of records, [build_site] returns once [load_stores]
    has; the index and every page are written. *)
Lemma build_site_returns (detail : option (list row)) (data : list row)
    (l : list Store) (w : world) :
  load_stores detail data = Ok l ->
  returns (build_site {| data_file := Some data; detail_file := detail |})
    (fun _ w' =>
       files w' !! index_path = Some (index_html l)
       /\ Forall (fun s => is_Some (files w' !! page_path s)) l) w.
Proof.
  intros Hl. unfold build_site.
  apply returns_bind, (returns_load_stores_run _ _ _ _ _ Hl).
  apply returns_bind.
  apply (returns_impl _ _ _ _ (render_index_returns l w)). intros _ w1 Hidx.
  apply returns_bind.
  apply (returns_impl _ _ _ _ (render_pages_returns l _ w1 Hidx)).
  intros _ w2 H2. apply returns_print. exact H2.
Qed.

End RootRun.

(** ** Facts about the run of [src/scripts/generate_pages.py] *)

Module ScriptsRun.
Import Py World WorldFacts Scripts.

Section Run.
Context {float : Type}.
Variable float_of_str : str -> option float.
Variable format_1f : float -> str.
Variable json_dumps : list (@Store float) -> str.

Abbreviation generate_pages := (generate_pages float_of_str format_1f json_dumps).
Abbreviation write_store_page := (write_store_page format_1f).

Lemma store_page_neq_index (store : @Store float) : page_path store <> index_path.
Proof. intros H. apply (f_equal (@length str)) in H. discriminate H. Qed.

Lemma write_store_page_returns (store : @Store float) (w : world) :
  returns (write_store_page store)
    (fun _ w' => files w' = <[page_path store := render_store format_1f store]> (files w))
    w.
Proof.
  unfold Scripts.write_store_page. apply returns_bind, returns_mkdir_parents.
  apply returns_write_text; [| reflexivity].
  apply parent_exists_in. rewrite removelast_snoc. cbn [dirs].
  apply in_own_ancestors. discriminate.
Qed.

Lemma write_pages_returns (stores : list (@Store float)) (text : str) (w : world) :
  files w !! index_path = Some text ->
  returns (for_each write_store_page stores)
    (fun _ w' => files w' !! index_path = Some text
                 /\ Forall (fun s => is_Some (files w' !! page_path s)) stores) w.
Proof.
  apply (returns_for_each write_store_page
           (fun v => files v !! index_path = Some text)
           (fun s v => is_Some (files v !! page_path s))).
  - intros s v Hv. apply (returns_impl _ _ _ _ (write_store_page_returns s v)).
    intros _ v' ->. split.
    + rewrite lookup_insert_ne; [exact Hv | apply store_page_neq_index].
    + rewrite lookup_insert_eq. eauto.
  - intros s t v _ Ht. apply (returns_impl _ _ _ _ (write_store_page_returns s v)).
    intros _ v' ->. rewrite lookup_insert. case_decide; eauto.
Qed.

(** With no record, the run stops before anything is made. *)
Lemma generate_pages_empty (detail data : list row) (w : world) :
  parse_stores float_of_str (load_images detail) data = [] ->
  generate_pages {| data_csv := Some data; detail_csv := Some detail |} w
  = (Raise (SystemExit (u "No stores found to generate")), w).
Proof.
  intros H. unfold Scripts.generate_pages, load_images_run, parse_stores_run.
  unfold mbind, run_bind, mret, run_ret. simpl. now rewrite H.
Qed.

(** With a record, the run returns, and the index and every page are
    written. *)
Lemma generate_pages_nonempty (detail data : list row) (w : world) :
  parse_stores float_of_str (load_images detail) data <> [] ->
  returns (generate_pages {| data_csv := Some data; detail_csv := Some detail |})
    (fun _ w' =>
       let stores := parse_stores float_of_str (load_images detail) data in
       files w' !! index_path = Some (render_index format_1f stores)
       /\ Forall (fun s => is_Some (files w' !! page_path s)) stores) w.
Proof.
  intros Hne. unfold Scripts.generate_pages, load_images_run, parse_stores_run.
  simpl data_csv. simpl detail_csv.
  apply returns_bind, returns_ret. apply returns_bind, returns_ret.
  destruct (parse_stores float_of_str (load_images detail) data) as [|s0 rest] eqn:E;
    [congruence |].
  apply returns_bind, returns_mkdir_parents.
  apply returns_bind, returns_mkdir_parents.
  apply returns_bind. unfold write_json.
  apply returns_bind, returns_mkdir_parents.
  apply returns_write_text.
  { apply parent_exists_in. rewrite removelast_snoc. cbn [dirs].
    apply in_own_ancestors. discriminate. }
  apply returns_bind, returns_write_text.
  { apply parent_exists_in. rewrite removelast_snoc. cbn [dirs].
    do 2 apply elem_of_union_r. apply elem_of_union_l.
    apply elem_of_list_to_set, list_elem_of_In. left. reflexivity. }
  apply write_pages_returns. cbn [files]. apply lookup_insert_eq.
Qed.

End Run.

End ScriptsRun.

(** ** Facts about the detail document of [src/generate_pages.py] *)

Module RootRender.
Import Py PyFacts Root.

#[local] Opaque u tpl.

Ltac in_pieces := solve [repeat first [apply in_eq | apply in_cons]].

Ltac open_doc := unfold store_html; cbv zeta.

Lemma page_shows_display_name (s : Store) :
  contains (escape (display_name s)) (store_html s) = true.
Proof. open_doc. apply contains_concat. in_pieces. Qed.

Lemma page_shows_map_url (s : Store) :
  contains (escape (map_url s)) (store_html s) = true.
Proof. open_doc. apply contains_concat. in_pieces. Qed.

Lemma page_shows_rating (s : Store) :
  contains (escape (or_else (rating s) (u "尚無評分"))) (store_html s) = true.
Proof. open_doc. apply contains_concat. in_pieces. Qed.

Lemma page_shows_review_count (s : Store) : shown (review_count s) (store_html s) = true.
Proof.
  apply shown_intro. intros c Hc Hne. open_doc.
  rewrite Hc, (if_truthy_Some c _ _ Hne).
  eapply (contains_piece _ (concat [_; escape c; _])); [in_pieces |].
  apply contains_concat. in_pieces.
Qed.

Lemma page_shows_category (s : Store) : shown (category s) (store_html s) = true.
Proof.
  apply shown_intro. intros c Hc Hne. open_doc.
  rewrite Hc, (if_truthy_Some c _ _ Hne).
  eapply (contains_piece _ (concat [_; escape c; _])); [in_pieces |].
  apply contains_concat. in_pieces.
Qed.

Lemma page_shows_website (s : Store) : shown (website s) (store_html s) = true.
Proof.
  apply shown_intro. intros c Hc Hne. open_doc.
  rewrite Hc, (if_truthy_Some c _ _ Hne).
  eapply (contains_piece _ (concat [_; escape c; _])); [in_pieces |].
  apply contains_concat. in_pieces.
Qed.

Lemma page_shows_image_url (s : Store) : shown (image_url s) (store_html s) = true.
Proof.
  apply shown_intro. intros c Hc Hne. open_doc.
  eapply (contains_piece _ (image_block s)); [in_pieces |].
  unfold image_block. rewrite Hc, (if_truthy_Some c _ _ Hne).
  apply contains_concat. in_pieces.
Qed.

Tactic Notation "in_meta_items" integer(n) :=
  eapply (contains_piece _ (concat (meta_items _))); [in_pieces |];
  unfold meta_items; cbv zeta;
  match goal with H : _ = Some _ |- _ => rewrite H end;
  eapply contains_piece;
  [ do n apply in_if_truthy_keep; apply in_if_truthy_new; assumption
  | apply contains_concat; in_pieces ].

Lemma page_shows_address (s : Store) : shown (address s) (store_html s) = true.
Proof. apply shown_intro. intros c Hc Hne. open_doc. in_meta_items 3. Qed.

Lemma page_shows_phone (s : Store) : shown (phone s) (store_html s) = true.
Proof. apply shown_intro. intros c Hc Hne. open_doc. in_meta_items 2. Qed.

Lemma page_shows_status (s : Store) : shown (status s) (store_html s) = true.
Proof. apply shown_intro. intros c Hc Hne. open_doc. in_meta_items 1. Qed.

Lemma page_shows_hours (s : Store) : shown (hours s) (store_html s) = true.
Proof. apply shown_intro. intros c Hc Hne. open_doc. in_meta_items 0. Qed.

Lemma features_html_shows (s : Store) (f : str) :
  In f (features s) -> contains (escape f) (features_html s) = true.
Proof.
  intros Hf. unfold features_html. eapply contains_piece.
  - apply in_map_iff. exists f. split; [reflexivity | exact Hf].
  - cbv beta. apply contains_concat. in_pieces.
Qed.

Lemma page_shows_features (s : Store) :
  forallb (fun f => contains (escape f) (store_html s)) (features s) = true.
Proof.
  apply forallb_contains. intros f Hf.
  pose proof (features_html_shows s f Hf) as Hin. open_doc.
  destruct (truthy (features_html s)) eqn:Ht.
  - eapply (contains_piece _ (concat [_; features_html s; _])); [in_pieces |].
    eapply contains_trans; [exact Hin |]. apply contains_concat. in_pieces.
  - apply truthy_false in Ht. rewrite Ht in Hin.
    apply contains_true in Hin as (pre & post & Heq).
    symmetry in Heq. apply app_eq_nil in Heq as [_ Heq].
    apply app_eq_nil in Heq as [-> _]. apply contains_nil.
Qed.

End RootRender.

(** ** Facts about the detail document of [src/scripts/generate_pages.py] *)

Module ScriptsRender.
Import Py PyFacts Scripts.

#[local] Opaque u tpl.

Ltac in_pieces := solve [repeat first [apply in_eq | apply in_cons]].

Ltac open_doc := unfold render_store; cbv zeta.

Section Document.
Context {float : Type}.
Variable format_1f : float -> str.

Abbreviation Store := (@Store float).
Abbreviation render_store := (render_store format_1f).

Lemma shows_name (s : Store) : contains (escape (name s)) (render_store s) = true.
Proof. open_doc. apply contains_concat. in_pieces. Qed.

Lemma shows_map_url (s : Store) : contains (escape (map_url s)) (render_store s) = true.
Proof. open_doc. apply contains_concat. in_pieces. Qed.

Lemma shows_rating_text (s : Store) :
  contains (rating_text format_1f s) (render_store s) = true.
Proof. open_doc. apply contains_concat. in_pieces. Qed.

Lemma shows_reviews_text (s : Store) :
  contains (reviews_text s) (render_store s) = true.
Proof. open_doc. apply contains_concat. in_pieces. Qed.

Lemma shows_review_count (s : Store) (n : N) :
  review_count s = Some n -> contains (str_of_int n) (render_store s) = true.
Proof.
  intros Hn. eapply contains_trans; [| apply shows_reviews_text].
  unfold reviews_text. rewrite Hn. apply contains_concat. in_pieces.
Qed.

Lemma shows_address (s : Store) :
  contains (escape (or_else (address s) (u "地址未提供"))) (render_store s) = true.
Proof. open_doc. apply contains_concat. in_pieces. Qed.

Lemma shows_status (s : Store) :
  contains (escape (or_else (status s) (u "營業狀態未提供"))) (render_store s) = true.
Proof. open_doc. apply contains_concat. in_pieces. Qed.

Lemma shows_hours_note (s : Store) :
  contains (escape (or_else (hours_note s) (u "歡迎電話詢問營業時間")))
    (render_store s) = true.
Proof. open_doc. apply contains_concat. in_pieces. Qed.

Lemma shows_phone (s : Store) :
  contains (if_truthy (phone s) escape (u "未提供")) (render_store s) = true.
Proof. open_doc. apply contains_concat. in_pieces. Qed.

Lemma shows_image_url (s : Store) :
  contains
    (escape (or_else (image_url s)
               (u "https://via.placeholder.com/960x540?text=Pet+Grooming")))
    (render_store s) = true.
Proof. open_doc. apply contains_concat. in_pieces. Qed.

Lemma shows_website (s : Store) : shown (website s) (render_store s) = true.
Proof.
  apply shown_intro. intros c Hc Hne. open_doc.
  rewrite Hc, (if_truthy_Some c _ _ Hne).
  eapply (contains_piece _ (concat [_; escape c; _])); [in_pieces |].
  apply contains_concat. in_pieces.
Qed.

Lemma contains_truthy (c b : str) :
  c <> [] -> contains c b = true -> truthy b = true.
Proof.
  intros Hne (pre & post & ->)%contains_true. apply truthy_true.
  intros H. apply app_eq_nil in H as [_ H]. apply app_eq_nil in H as [H _].
  contradiction.
Qed.

Lemma badge_text_category (s : Store) (c : str) :
  category s = Some c -> c <> [] -> contains c (badge_text s) = true.
Proof.
  intros Hc Hne. unfold badge_text. cbv zeta. rewrite Hc.
  apply truthy_true in Hne. cbn [truthy_opt default]. rewrite Hne.
  apply contains_join.
  destruct (truthy_opt (status s)); destruct (truthy_opt (hours_note s));
    simpl; now left.
Qed.

Lemma shows_category (s : Store) : shown (category s) (render_store s) = true.
Proof.
  apply shown_intro. intros c Hc Hne.
  pose proof (badge_text_category s c Hc Hne) as Hb.
  open_doc. eapply contains_piece; [| apply contains_escape, Hb].
  rewrite (contains_truthy _ _ Hne Hb). in_pieces.
Qed.

Lemma service_items_shows (s : Store) (item : str) :
  In item (services s) -> contains (escape item) (service_items s) = true.
Proof.
  intros Hi. unfold service_items. eapply contains_piece.
  - apply in_map_iff. exists item. split; [reflexivity | exact Hi].
  - cbv beta. apply contains_concat. in_pieces.
Qed.

Lemma shows_services (s : Store) :
  forallb (fun item => contains (escape item) (render_store s)) (services s) = true.
Proof.
  apply forallb_contains. intros item Hi.
  eapply contains_or_default; [apply (service_items_shows s item Hi) |].
  open_doc. apply contains_concat. in_pieces.
Qed.

Lemma shows_no_services (s : Store) :
  services s = [] ->
  contains (u "<li>歡迎電話洽詢服務內容</li>") (render_store s) = true.
Proof.
  intros Hs.
  assert (service_items s = []) as Hnone by (unfold service_items; now rewrite Hs).
  open_doc. rewrite Hnone. cbn [truthy]. apply contains_concat. in_pieces.
Qed.

End Document.

End ScriptsRender.

(** ** More facts about the string operations *)

Module MorePyFacts.
Import Py PyFacts.

(** *** Stripping keeps what it must *)

Section Strip.
Variable p : N -> bool.

Lemma lstrip_by_all (s : str) : forallb p s = true -> lstrip_by p s = [].
Proof.
  induction s as [|c s IH]; simpl; [reflexivity |].
  intros [Hc Hs]%andb_prop. rewrite Hc. auto.
Qed.

Lemma strip_by_all (s : str) : forallb p s = true -> strip_by p s = [].
Proof. intros H. unfold strip_by, rstrip_by. now rewrite (lstrip_by_all s H). Qed.

Lemma lstrip_by_keeps (s : str) (c : N) :
  In c s -> p c = false -> In c (lstrip_by p s).
Proof.
  induction s as [|d s IH]; simpl; [tauto |].
  intros Hin Hc. destruct (p d) eqn:Hd; [| exact Hin].
  destruct Hin as [->|Hin]; [congruence | auto].
Qed.

Lemma rstrip_by_keeps (s : str) (c : N) :
  In c s -> p c = false -> In c (rstrip_by p s).
Proof.
  intros Hin Hc. unfold rstrip_by. apply in_rev.
  rewrite rev_involutive. apply lstrip_by_keeps; [| exact Hc]. now apply in_rev in Hin.
Qed.

Lemma strip_by_keeps (s : str) (c : N) :
  In c s -> p c = false -> In c (strip_by p s).
Proof.
  intros Hin Hc. unfold strip_by.
  apply rstrip_by_keeps; [| exact Hc]. now apply lstrip_by_keeps.
Qed.

(** The last character left by stripping is not one of those stripped. *)
Lemma rstrip_by_last (s : str) :
  match rev (rstrip_by p s) with [] => True | c :: _ => p c = false end.
Proof.
  unfold rstrip_by. rewrite rev_involutive.
  destruct (lstrip_by p (rev s)) eqn:E; [exact I |]. eapply lstrip_by_head, E.
Qed.

Lemma strip_by_last (s : str) :
  match rev (strip_by p s) with [] => True | c :: _ => p c = false end.
Proof. unfold strip_by. apply rstrip_by_last. Qed.

End Strip.

Lemma strip_trimmed (s : str) : trimmed (strip s) = true.
Proof.
  unfold trimmed, strip.
  pose proof (strip_by_head isspace s) as Hh.
  pose proof (strip_by_last isspace s) as Hl.
  destruct (strip_by isspace s) as [|c t]; [reflexivity |].
  rewrite Hh. simpl negb. destruct (rev (c :: t)); [reflexivity |]. now rewrite Hl.
Qed.

(** *** Digits *)

Lemma digits_of_uint_digits (d : Decimal.uint) :
  forallb is_digit (digits_of_uint d) = true.
Proof. induction d; simpl; auto. Qed.

Lemma filter_all (f : N -> bool) (s : str) :
  forallb f s = true -> List.filter f s = s.
Proof.
  induction s as [|c s IH]; simpl; [reflexivity |].
  intros [Hc Hs]%andb_prop. rewrite Hc. f_equal. auto.
Qed.

Lemma filter_none (f : N -> bool) (s : str) :
  forallb (fun c => negb (f c)) s = true -> List.filter f s = [].
Proof.
  induction s as [|c s IH]; simpl; [reflexivity |].
  intros [Hc Hs]%andb_prop. apply negb_true_iff in Hc. rewrite Hc. auto.
Qed.

(** *** Escaping *)

Lemma replace_char_in (old : N) (new s : str) (c : N) :
  In c (replace_char old new s) -> In c new \/ (In c s /\ c <> old).
Proof.
  induction s as [|d s IH]; simpl; [tauto |].
  intros [H|H]%in_app_or.
  - destruct (N.eqb_spec d old) as [->|Hne]; [now left |].
    destruct H as [<-|[]]. right. split; [now left | exact Hne].
  - destruct (IH H) as [H1|[H1 H2]]; [now left |]. right. split; [now right | exact H2].
Qed.

Lemma escape_no_markup (s : str) (c : N) :
  In c (escape s) -> markup_char c = false.
Proof.
  unfold escape. intros H.
  apply replace_char_in in H as [H|[H H5]];
    [vm_compute in H; intuition (subst; reflexivity) |].
  apply replace_char_in in H as [H|[H H4]];
    [vm_compute in H; intuition (subst; reflexivity) |].
  apply replace_char_in in H as [H|[H H3]];
    [vm_compute in H; intuition (subst; reflexivity) |].
  apply replace_char_in in H as [H|[H H2]];
    [vm_compute in H; intuition (subst; reflexivity) |].
  unfold markup_char.
  apply N.eqb_neq in H2, H3, H4, H5. now rewrite H2, H3, H4, H5.
Qed.

Lemma replace_char_absent (old : N) (new s : str) :
  ~ In old s -> replace_char old new s = s.
Proof.
  induction s as [|c s IH]; simpl; [reflexivity |].
  intros H. destruct (N.eqb_spec c old) as [->|Hne].
  - exfalso. apply H. now left.
  - simpl. f_equal. apply IH. intros Hin. apply H. now right.
Qed.

Lemma escape_nonempty (s : str) : s <> [] -> escape s <> [].
Proof.
  intros Hne Hs. destruct s as [|c s]; [congruence |].
  change (c :: s) with ([c] ++ s) in Hs. rewrite escape_app in Hs.
  apply app_eq_nil in Hs as [Hs _].
  unfold escape, replace_char in Hs. simpl in Hs.
  destruct (c =? 0x26) eqn:E1; [vm_compute in Hs; discriminate |].
  simpl in Hs. destruct (c =? 0x3C) eqn:E2; [vm_compute in Hs; discriminate |].
  simpl in Hs. destruct (c =? 0x3E) eqn:E3; [vm_compute in Hs; discriminate |].
  simpl in Hs. destruct (c =? 0x22) eqn:E4; [vm_compute in Hs; discriminate |].
  simpl in Hs. destruct (c =? 0x27) eqn:E5; [vm_compute in Hs; discriminate |].
  simpl in Hs. discriminate.
Qed.

(** *** Joining *)

Lemma join_nonempty (sep p : str) (rest : list str) :
  p <> [] -> join sep (p :: rest) <> [].
Proof.
  intros Hp H. destruct rest; simpl in H.
  - contradiction.
  - apply app_eq_nil in H as [H _]. contradiction.
Qed.

End MorePyFacts.

(** ** More facts about [src/generate_pages.py] *)

Module MoreRootFacts.
Import Py PyFacts MorePyFacts Root RootFacts.

(** *** The image mapping *)

Lemma image_entry_Some (k : str) (r : row) (img : str) :
  image_entry k r = Some img ->
  k <> [] /\ img <> [] /\ trimmed k = true /\ trimmed img = true.
Proof.
  unfold image_entry.
  destruct (get r (u "hfpxzc href")) as [link_cell|]; [| discriminate].
  destruct (get r (u "aoRNLd src")) as [image_cell|]; [| discriminate].
  cbn [mbind option_bind].
  destruct (truthy (strip link_cell)) eqn:Hk; [| discriminate].
  destruct (truthy (strip image_cell)) eqn:Hi; [| discriminate].
  simpl. destruct (bool_decide_reflect (strip link_cell = k)) as [<-|];
    [| discriminate].
  intros [= <-]. repeat split; try now apply truthy_true.
  all: apply strip_trimmed.
Qed.

Lemma last_omap_Some {A B : Type} (f : A -> option B) (l : list A) (y : B) :
  last (omap f l) = Some y -> exists x, In x l /\ f x = Some y.
Proof.
  intros Hin%last_Some_elem_of.
  apply list_elem_of_omap in Hin as (x & Hx & Hf). exists x.
  split; [now apply list_elem_of_In | exact Hf].
Qed.

(** *** The shape of a slug *)

Lemma sub_runs_chars (s : str) :
  forall (in_run : bool) (c : N),
    In c (sub_runs in_run s) -> slug_char c = true \/ c = 0x2D.
Proof.
  induction s as [|d s IH]; intros in_run c; simpl; [tauto |].
  destruct (slug_char d) eqn:Hd.
  - intros [<-|H]; [now left | eauto].
  - destruct in_run; [eauto |]. intros [<-|H]; [now right | eauto].
Qed.

Lemma lower_char_safe (c : N) :
  slug_char c = true \/ c = 0x2D -> slug_safe (lower_char c) = true.
Proof.
  intros [H| ->]; [| reflexivity]. unfold lower_char.
  destruct ((0x41 <=? c) && (c <=? 0x5A)) eqn:Hup.
  - apply andb_prop in Hup as [H1 H2]. apply N.leb_le in H1, H2.
    unfold slug_safe.
    replace (0x61 <=? c + 0x20) with true by (symmetry; apply N.leb_le; lia).
    replace (c + 0x20 <=? 0x7A) with true by (symmetry; apply N.leb_le; lia).
    reflexivity.
  - unfold slug_char in H. rewrite Hup, orb_false_r in H. unfold slug_safe.
    apply orb_prop in H as [H|H].
    + apply orb_prop in H as [H|H]; rewrite H, ?orb_true_r; reflexivity.
    + rewrite H, ?orb_true_r. reflexivity.
Qed.

Lemma slug_base_safe (name : str) : forallb slug_safe (slug_base name) = true.
Proof.
  unfold slug_base. destruct (truthy _); [| reflexivity].
  apply forallb_forall. intros c (d & <- & Hd)%in_map_iff.
  apply lower_char_safe. apply strip_by_incl in Hd. eapply sub_runs_chars, Hd.
Qed.

Lemma digit_safe (c : N) : is_digit c = true -> slug_safe c = true.
Proof. unfold is_digit, slug_safe. intros ->. now rewrite ?orb_true_r. Qed.

Lemma candidate_safe (base : str) (k : N) :
  forallb slug_safe base = true -> forallb slug_safe (candidate base k) = true.
Proof.
  intros Hb. unfold candidate. rewrite !forallb_app, Hb. simpl.
  apply forallb_forall. intros c Hc. apply digit_safe.
  revert c Hc. apply forallb_forall, digits_of_uint_digits.
Qed.

Lemma lower_char_hyphen (c : N) : lower_char c = 0x2D -> c = 0x2D.
Proof.
  unfold lower_char. destruct ((0x41 <=? c) && (c <=? 0x5A)) eqn:Hup; [| trivial].
  apply andb_prop in Hup as [H1 H2]. apply N.leb_le in H1, H2. lia.
Qed.

Lemma hyphen : u "-" = [0x2D].
Proof. reflexivity. Qed.

Lemma slug_base_head (name : str) : startswith (u "-") (slug_base name) = false.
Proof.
  unfold slug_base. destruct (truthy _) eqn:Ht; [| reflexivity].
  unfold strip_chars in *.
  pose proof (strip_by_head (mem_char (u "-")) (sub_runs false name)) as Hh.
  destruct (strip_by (mem_char (u "-")) (sub_runs false name)) as [|c t];
    [discriminate |].
  rewrite hyphen in *. cbn [lower List.map startswith].
  destruct (N.eqb_spec (lower_char c) 0x2D) as [He|]; [| reflexivity].
  apply lower_char_hyphen in He. subst c. discriminate Hh.
Qed.

Lemma startswith_app_l (p s t : str) :
  s <> [] -> length p = 1%nat -> startswith p (s ++ t) = startswith p s.
Proof.
  intros Hs Hp. destruct p as [|a [|b p]]; try discriminate.
  destruct s as [|c s]; [congruence |]. reflexivity.
Qed.

(** The loop returns the first slug, or the first candidate outside
    [existing]. *)
Lemma slug_loop_first (base : str) (existing : gset str) :
  forall (fuel : nat) (slug : str) (counter : N) (s : str),
    slug_loop fuel base existing slug counter = Some s ->
    (s = slug /\ slug ∉ existing)
    \/ (slug ∈ existing
        /\ exists k, counter <= k /\ s = candidate base k
                     /\ (candidate base k ∉ existing)
                     /\ forall j, counter <= j < k -> candidate base j ∈ existing).
Proof.
  induction fuel as [|fuel IH]; intros slug counter s H; [discriminate |].
  simpl in H. destruct (decide (slug ∈ existing)) as [Hin|Hout].
  - right. split; [exact Hin |].
    apply IH in H as [[-> Hnew]|(Hc & k & Hk & -> & Hnew & Hall)].
    + exists counter. split; [lia |]. split; [reflexivity |]. split; [exact Hnew |].
      intros j Hj. lia.
    + exists k. split; [lia |]. split; [reflexivity |]. split; [exact Hnew |].
      intros j Hj. destruct (N.eq_dec j counter) as [->|Hne]; [exact Hc |].
      apply Hall. lia.
  - injection H as <-. now left.
Qed.

(** *** The base of a slug *)

Lemma sub_runs_keeps (s : str) :
  forall in_run : bool,
    existsb slug_char s = true ->
    exists c, In c (sub_runs in_run s) /\ slug_char c = true.
Proof.
  induction s as [|d s IH]; intros in_run; simpl; [discriminate |].
  destruct (slug_char d) eqn:Hd; simpl.
  - intros _. exists d. split; [now left | exact Hd].
  - intros H. destruct in_run.
    + apply (IH true H).
    + destruct (IH true H) as (c & Hc & Hs). exists c. split; [now right | exact Hs].
Qed.

Lemma sub_runs_hyphens (s : str) :
  forall in_run : bool,
    existsb slug_char s = false ->
    forallb (mem_char (u "-")) (sub_runs in_run s) = true.
Proof.
  induction s as [|d s IH]; intros in_run; simpl; [reflexivity |].
  intros [Hd Hs]%orb_false_elim. rewrite Hd.
  destruct in_run; [auto |]. simpl. change (mem_char (u "-") 0x2D) with true.
  simpl. auto.
Qed.

Lemma slug_char_not_hyphen (c : N) : slug_char c = true -> mem_char (u "-") c = false.
Proof.
  intros H. change (mem_char (u "-") c) with ((c =? 0x2D) || false).
  destruct (N.eqb_spec c 0x2D) as [->|]; [discriminate H | reflexivity].
Qed.

Lemma slug_base_cases (name : str) :
  slug_base name =
    if existsb slug_char name
    then lower (strip_chars (u "-") (sub_runs false name))
    else u "store".
Proof.
  unfold slug_base. destruct (existsb slug_char name) eqn:He.
  - destruct (sub_runs_keeps name false He) as (c & Hc & Hs).
    assert (In c (strip_chars (u "-") (sub_runs false name))) as Hin.
    { apply strip_by_keeps; [exact Hc | now apply slug_char_not_hyphen]. }
    destruct (strip_chars (u "-") (sub_runs false name)); [destruct Hin | reflexivity].
  - unfold strip_chars. rewrite strip_by_all; [reflexivity |].
    now apply sub_runs_hyphens.
Qed.

End MoreRootFacts.

(** ** More facts about [src/scripts/generate_pages.py] *)

Module MoreScriptsFacts.
Import Py PyFacts MorePyFacts Scripts ScriptsFacts.

(** *** The image mapping *)

Lemma images_fold (k : str) (rows : list row) :
  forall m : gmap str str,
    fold_left load_images_row rows m !! k =
    match last (omap (image_entry k) rows) with
    | Some img => Some img
    | None => m !! k
    end.
Proof.
  induction rows as [|r rows IH]; intros m; [reflexivity |].
  simpl fold_left. rewrite IH. simpl omap. unfold load_images_row, image_entry.
  destruct (length r <? 2)%nat; [reflexivity |].
  destruct (truthy (strip (nth 0 r [])) && truthy (strip (nth 1 r []))) eqn:Hvalid;
    simpl; [| reflexivity].
  destruct (bool_decide_reflect (strip (nth 0 r []) = k)) as [Hk|Hk].
  - rewrite last_cons_omap. destruct (last _); [reflexivity |].
    rewrite Hk. apply lookup_insert_eq.
  - destruct (last _); [reflexivity |]. now apply lookup_insert_ne.
Qed.

Lemma images_lookup (detail : list row) (k : str) :
  load_images detail !! k = last (omap (image_entry k) (tail detail)).
Proof.
  unfold load_images. rewrite images_fold, lookup_empty. now destruct (last _).
Qed.

Lemma image_entry_shape (k : str) (r : row) (img : str) :
  image_entry k r = Some img ->
  k <> [] /\ img <> [] /\ trimmed k = true /\ trimmed img = true.
Proof.
  unfold image_entry. destruct (length r <? 2)%nat; [discriminate |].
  destruct (truthy (strip (nth 0 r []))) eqn:Hk; [| discriminate].
  destruct (truthy (strip (nth 1 r []))) eqn:Hi; [| discriminate].
  simpl. destruct (bool_decide_reflect (strip (nth 0 r []) = k)) as [<-|];
    [| discriminate].
  intros [= <-]. repeat split; try now apply truthy_true.
  all: apply strip_trimmed.
Qed.

(** *** Reading integers *)

Lemma coerce_int_digits (d : str) :
  d <> [] -> forallb is_digit d = true -> coerce_int d = Some (int_of_digits d).
Proof.
  intros Hne Hd. unfold coerce_int. rewrite (filter_all _ _ Hd).
  apply truthy_true in Hne. now rewrite Hne.
Qed.

Lemma coerce_int_filter (s : str) : coerce_int s = coerce_int (List.filter is_digit s).
Proof.
  unfold coerce_int. f_equal.
  rewrite (filter_all is_digit (List.filter is_digit s)); [reflexivity |].
  apply forallb_forall. intros c Hc. now apply filter_In in Hc.
Qed.

Lemma coerce_int_between (pre post : str) (n : N) :
  forallb (fun c => negb (is_digit c)) pre = true ->
  forallb (fun c => negb (is_digit c)) post = true ->
  coerce_int (pre ++ str_of_int n ++ post) = Some n.
Proof.
  intros Hpre Hpost. rewrite coerce_int_filter, !List.filter_app.
  rewrite (filter_none _ _ Hpre), (filter_none _ _ Hpost), app_nil_r. simpl app.
  rewrite (filter_all is_digit (str_of_int n)) by apply digits_of_uint_digits.
  rewrite coerce_int_digits.
  - now rewrite int_of_digits_str_of_int.
  - apply str_of_int_nonempty.
  - apply digits_of_uint_digits.
Qed.

(** *** The records *)

Section Parsing.
Context {float : Type}.
Variable float_of_str : str -> option float.

Lemma records_from_length (lookup : gmap str str) (rows : list row) :
  forall n, length (records_from float_of_str lookup n rows) = length rows.
Proof. induction rows as [|r rows IH]; intros n; simpl; auto. Qed.

Lemma records_from_accepted (lookup : gmap str str) (rows : list row) :
  forall n,
    Forall2 (fun r s => accepted r = true
                        /\ exists k, s = record_of float_of_str lookup r k)
      (List.filter accepted rows)
      (records_from float_of_str lookup n (List.filter accepted rows)).
Proof.
  induction rows as [|r rows IH]; intros n; simpl; [constructor |].
  destruct (accepted r) eqn:Hr; [| apply IH].
  simpl. constructor; [| apply IH]. eauto.
Qed.

Lemma clean_text_truthy (v : option str) :
  truthy_opt (clean_text v) = false <-> clean_text v = None.
Proof.
  destruct (clean_text v) as [t|] eqn:E; [| tauto].
  destruct (clean_text_Some v t E) as [Hne _]. apply truthy_true in Hne.
  simpl. rewrite Hne. split; discriminate.
Qed.

Lemma parse_stores_records (lookup : gmap str str) (data : list row) (s : Store) :
  In s (parse_stores float_of_str lookup data) ->
  exists r k, s = record_of float_of_str lookup r k.
Proof.
  unfold parse_stores. rewrite parse_stores_from_spec. cbn [stores].
  generalize 1%nat. induction (List.filter accepted (tail data)) as [|r rows IH];
    intros n; simpl; [tauto |].
  intros [<-|Hin]; eauto.
Qed.

End Parsing.

End MoreScriptsFacts.

(** ** More facts about runs *)

Module MoreRunFacts.
Import Py PyFacts World WorldFacts.

(** A loop over elements with pairwise distinct keys, whose body leaves
    [J x] for the element it handles and keeps [J y] for the elements with
    another key. *)
Lemma returns_for_each_distinct {A K : Type} (key : A -> K) (f : A -> run unit)
    (I : world -> Prop) (J : A -> world -> Prop) :
  (forall x w, I w -> returns (f x) (fun _ w' => I w' /\ J x w') w) ->
  (forall x y w, key x <> key y -> I w -> J y w ->
                 returns (f x) (fun _ w' => J y w') w) ->
  forall (l : list A) (w : world),
    NoDup (List.map key l) ->
    I w ->
    returns (for_each f l) (fun _ w' => I w' /\ Forall (fun x => J x w') l) w.
Proof.
  intros Hstep Hkeep. induction l as [|x l IH]; intros w Hnd HI; simpl.
  - apply returns_ret. split; [exact HI | constructor].
  - simpl in Hnd. apply NoDup_cons in Hnd as [Hx Hnd].
    apply returns_bind.
    destruct (Hstep x w HI) as ([] & w1 & Hrun & HI1 & HJ1).
    exists tt, w1. split; [exact Hrun |].
    assert (forall (k : list A) (v : world),
               (forall y, In y k -> key y <> key x) ->
               I v -> J x v ->
               returns (for_each f k) (fun _ v' => J x v') v) as Hrest.
    { induction k as [|y k IHk]; intros v Hk HIv HJv; simpl.
      - now apply returns_ret.
      - apply returns_bind.
        destruct (Hstep y v HIv) as ([] & v1 & Hv & HIv1 & _).
        destruct (Hkeep y x v (Hk y (or_introl eq_refl)) HIv HJv)
          as ([] & v2 & Hv2 & HJv2).
        rewrite Hv in Hv2. injection Hv2 as <-.
        exists tt, v1. split; [exact Hv |]. apply IHk; auto.
        intros z Hz. apply Hk. now right. }
    destruct (IH w1 Hnd HI1) as ([] & w2 & Hl & HI2 & HJ2).
    destruct (Hrest l w1) as ([] & w3 & Hl' & HJx); [| exact HI1 | exact HJ1 |].
    { intros y Hy Heq. apply Hx. rewrite <- Heq.
      apply list_elem_of_In, in_map, Hy. }
    rewrite Hl in Hl'. injection Hl' as <-.
    exists tt, w2. split; [exact Hl |]. split; [exact HI2 |].
    constructor; assumption.
Qed.

End MoreRunFacts.

(** ** The properties of the specification *)

Import Py PyFacts.

Lemma Forall2_right {A B : Type} (R : A -> B -> Prop) (P : B -> Prop)
    (l : list A) (k : list B) :
  Forall2 R l k -> (forall x y, R x y -> P y) -> Forall P k.
Proof. induction 1; intros HP; constructor; eauto. Qed.

Lemma Forall2_impl' {A B : Type} (R Q : A -> B -> Prop) (l : list A) (k : list B) :
  Forall2 R l k -> (forall x y, R x y -> Q x y) -> Forall2 Q l k.
Proof. induction 1; intros HQ; constructor; eauto. Qed.

(** C10.  For every name and every set of slugs already given out,
    [slugify] returns; the slug it returns was not in the set, and the set
    it leaves is the former set with that slug added. *)
Theorem C10_slugify_returns_fresh (name : str) (existing : gset str) :
  exists slug : str,
    Root.slugify name existing = Some (slug, {[slug]} ∪ existing)
    /\ (slug ∉ existing).
Proof.
  destruct (RootFacts.slugify_returns name existing) as (slug & H & Hout & _).
  now exists slug.
Qed.

(** C1.  In one run the slugs of the records are pairwise distinct and none
    is the empty string, under the name-derived policy ([load_stores]) as
    under the sequential policy ([parse_stores]).  [load_stores] returns its
    records when every row it reads has the cells it needs; on a row that
    is too short it raises and there is no record. *)
Theorem C1_slugs_unique_nonempty {float : Type} (float_of_str : str -> option float)
    (detail : option (list Root.row)) (data : list Root.row)
    (lookup : gmap str str) (rows : list Scripts.row) :
  (if forallb Root.image_readable (default [] detail) && forallb Root.readable data
   then exists stores : list Root.Store,
       Root.load_stores detail data = World.Ok stores
       /\ NoDup (Root.slugs stores)
       /\ Forall (fun s => s <> []) (Root.slugs stores)
   else Root.load_stores detail data = World.Raise World.AttributeError)
  /\ NoDup (Scripts.slugs (Scripts.parse_stores float_of_str lookup rows))
  /\ Forall (fun s => s <> [])
       (Scripts.slugs (Scripts.parse_stores float_of_str lookup rows)).
Proof.
  split.
  - pose proof (RootFacts.load_stores_spec detail data) as H.
    destruct (_ && _); [| exact H].
    destruct H as (imgs & st & _ & _ & Hl & _ & _ & _ & Hnd & Hne & _).
    exists (Root.stores st). auto.
  - unfold Scripts.parse_stores.
    rewrite ScriptsFacts.parse_stores_from_spec. simpl.
    rewrite ScriptsFacts.records_from_slugs. split.
    + apply NoDup_fmap_2; [| apply NoDup_seq].
      intros m n. apply ScriptsFacts.ordinal_slug_inj.
    + apply List.Forall_forall. intros s (n & <- & _)%in_map_iff.
      apply ScriptsFacts.ordinal_slug_nonempty.
Qed.

(** C6.  The image of a record is the value the mapping holds for the
    record's [map_url], and absent when the mapping has no such key; the
    mapping after the loop is the mapping before it.  This holds in both
    variants ([load_stores] raises, and builds no record, on a row that is
    too short). *)
Theorem C6_join_lookup {float : Type} (float_of_str : str -> option float)
    (imgs : gmap str str) (rows : list Root.row) (data : list Scripts.row) :
  (if forallb Root.readable rows
   then exists st : Root.loader,
       Root.load_stores_from imgs rows = World.Ok st
       /\ Root.images st = imgs
       /\ Forall (fun s => Root.image_url s = imgs !! Root.map_url s) (Root.stores st)
   else Root.load_stores_from imgs rows = World.Raise World.AttributeError)
  /\ Scripts.image_lookup (Scripts.parse_stores_from float_of_str imgs data) = imgs
  /\ Forall (fun s => Scripts.image_url s = imgs !! Scripts.map_url s)
       (Scripts.parse_stores float_of_str imgs data).
Proof.
  split.
  - pose proof (RootFacts.load_stores_from_spec imgs rows) as H.
    destruct (forallb Root.readable rows); [| exact H].
    destruct H as (st & Hrun & Himg & Hall & _).
    exists st. split; [exact Hrun |]. split; [exact Himg |].
    apply (Forall2_right _ _ _ _ Hall). intros r s Hs.
    apply RootFacts.record_of_Some in Hs as (? & ? & ? & ? & ? & ? & ? & ? & ? & ? & ? & ?
                                             & _ & ->).
    reflexivity.
  - unfold Scripts.parse_stores. rewrite ScriptsFacts.parse_stores_from_spec. simpl.
    split; [reflexivity |].
    apply (Forall2_right _ _ _ _ (ScriptsFacts.records_from_Forall2 _ _ _ 1%nat)).
    intros r s [k ->]. reflexivity.
Qed.

(** C4 (as stated, fails).  Cleaning ["⋅ ⋅x"] with [clean_text] gives
    ["⋅x"], and cleaning that gives ["x"]. *)
Lemma C4_clean_text_not_idempotent :
  Scripts.clean_text (Some Samples.dotted) = Some (u "⋅x")
  /\ Scripts.clean_text (Scripts.clean_text (Some Samples.dotted)) = Some (u "x")
  /\ Scripts.clean_text (Scripts.clean_text (Some Samples.dotted))
     <> Scripts.clean_text (Some Samples.dotted).
Proof. vm_compute. repeat split; discriminate. Qed.

(** C4 (amended).  [clean_value] is idempotent on every string.
    [clean_text] applied to one of its results returns it unchanged exactly
    when that result does not begin with the small dot U+22C5. *)
Theorem C4_cleaning_idempotent (s : str) (v : option str) :
  Root.clean_value (Root.clean_value s) = Root.clean_value s
  /\ (Scripts.clean_text (Scripts.clean_text v) = Scripts.clean_text v
      <-> startswith (u "⋅") (default [] (Scripts.clean_text v)) = false).
Proof.
  split.
  - apply RootFacts.clean_value_idem.
  - apply ScriptsFacts.clean_text_idem_iff.
Qed.

Lemma C4_cleaning_idempotent_witness :
  Scripts.clean_text (Scripts.clean_text (Some (u " ⋅ Open 24h ")))
  = Scripts.clean_text (Some (u " ⋅ Open 24h ")).
Proof.
  apply (proj2 (C4_cleaning_idempotent [] (Some (u " ⋅ Open 24h ")))).
  vm_compute. reflexivity.
Defined.

(** C2 (at the failing input).  For a listing whose category cell cleans
    to the empty string, [load_stores] builds a record whose category is the
    empty string, while its phone, cleaned in the same way from an empty
    cell, is absent. *)
Theorem C2_root_keeps_empty_strings :
  Root.clean_value <$> Root.get Samples.bare_listing (u "W4Efsd") = Some []
  /\ (List.map Root.category <$> Root.load_stores None [Samples.bare_listing])
     = World.Ok [Some []]
  /\ (List.map Root.phone <$> Root.load_stores None [Samples.bare_listing])
     = World.Ok [None].
Proof. vm_compute. auto. Qed.

(** C3 (as stated, fails).  In [load_stores] a review cell without any digit
    and a rating cell that is no number are kept as text; they are not
    absent. *)
Lemma C3_root_keeps_text :
  Scripts.coerce_int <$> Root.get Samples.odd_listing (u "UY7F9") = Some None
  /\ (List.map Root.review_count <$> Root.load_stores None [Samples.odd_listing])
     = World.Ok [Some (u "abc")]
  /\ (List.map Root.rating <$> Root.load_stores None [Samples.odd_listing])
     = World.Ok [Some (u "N/A")].
Proof. vm_compute. auto. Qed.

(** C3 (amended).  In [parse_stores], for every accepted row, the rating is
    the number [float] reads from the trimmed cell of column 3, absent when
    [float] fails or the column is missing; the review count is the integer
    written by the digits of the cell of column 4, absent when the cell has
    no digit or the column is missing.  In [load_stores] both fields are
    text: the cleaned rating cell, and the cleaned review cell with the
    parentheses at its ends removed ([load_stores] raises, and builds no
    record, on a row that is too short). *)
Theorem C3_numeric_fields {float : Type} (float_of_str : str -> option float)
    (lookup : gmap str str) (data : list Scripts.row)
    (imgs : gmap str str) (rows : list Root.row) :
  Forall2
    (fun r s =>
       Scripts.rating s = r !! 3%nat ≫= (fun v => float_of_str (strip v))
       /\ Scripts.review_count s =
            r !! 4%nat ≫= (fun v =>
              let digits := List.filter is_digit v in
              if truthy digits then Some (int_of_digits digits) else None))
    (List.filter Scripts.accepted (tail data))
    (Scripts.parse_stores float_of_str lookup data)
  /\ if forallb Root.readable rows
     then exists st : Root.loader,
         Root.load_stores_from imgs rows = World.Ok st
         /\ Forall2
              (fun r s =>
                 exists rating_cell review_cell : str,
                   Root.get r (u "MW4etd") = Some rating_cell
                   /\ Root.get r (u "UY7F9") = Some review_cell
                   /\ Root.rating s = Some (Root.clean_value rating_cell)
                   /\ Root.review_count s =
                        Some (Root.clean_value (strip_chars (u "()") review_cell)))
              (List.filter Root.accepted rows) (Root.stores st)
     else Root.load_stores_from imgs rows = World.Raise World.AttributeError.
Proof.
  split.
  - unfold Scripts.parse_stores. rewrite ScriptsFacts.parse_stores_from_spec. simpl.
    apply (Forall2_impl' _ _ _ _ (ScriptsFacts.records_from_Forall2 _ _ _ 1%nat)).
    intros r s [k ->]. split; reflexivity.
  - pose proof (RootFacts.load_stores_from_spec imgs rows) as H.
    destruct (forallb Root.readable rows); [| exact H].
    destruct H as (st & Hrun & _ & Hall & _).
    exists st. split; [exact Hrun |].
    apply (Forall2_impl' _ _ _ _ Hall). intros r s Hs.
    apply RootFacts.record_of_Some in Hs
      as (? & ? & c3 & c4 & ? & ? & ? & ? & ? & ? & ? & ?
          & (_ & _ & H3 & H4 & _) & ->).
    exists c3, c4. auto.
Qed.

(** C5 (as stated, fails).  [load_stores] keeps a website cell that does not
    begin with a scheme. *)
Lemma C5_root_keeps_any_website :
  (fun cell => startswith (u "http") (strip cell))
    <$> Root.get Samples.odd_listing (u "lcr4fd href") = Some false
  /\ (List.map Root.website <$> Root.load_stores None [Samples.odd_listing])
     = World.Ok [Some (u "example.com")].
Proof. vm_compute. auto. Qed.

(** C5 (amended).  In [parse_stores], for every accepted row, the website is
    the trimmed cell of column 10 when that text begins with ["http"], and
    absent otherwise (also when the column is missing).  In [load_stores]
    the website is the trimmed cell whenever that text is not empty, and
    absent when it is empty ([load_stores] raises, and builds no record, on
    a row that is too short). *)
Theorem C5_website_field {float : Type} (float_of_str : str -> option float)
    (lookup : gmap str str) (data : list Scripts.row)
    (imgs : gmap str str) (rows : list Root.row) :
  Forall2
    (fun r s =>
       let website_raw := default [] (strip <$> r !! 10%nat) in
       Scripts.website s =
         if startswith (u "http") website_raw then Some website_raw else None)
    (List.filter Scripts.accepted (tail data))
    (Scripts.parse_stores float_of_str lookup data)
  /\ if forallb Root.readable rows
     then exists st : Root.loader,
         Root.load_stores_from imgs rows = World.Ok st
         /\ Forall2
              (fun r s =>
                 exists website_cell : str,
                   Root.get r (u "lcr4fd href") = Some website_cell
                   /\ Root.website s =
                        if truthy (strip website_cell)
                        then Some (strip website_cell) else None)
              (List.filter Root.accepted rows) (Root.stores st)
     else Root.load_stores_from imgs rows = World.Raise World.AttributeError.
Proof.
  split.
  - unfold Scripts.parse_stores. rewrite ScriptsFacts.parse_stores_from_spec. simpl.
    apply (Forall2_impl' _ _ _ _ (ScriptsFacts.records_from_Forall2 _ _ _ 1%nat)).
    intros r s [k ->]. reflexivity.
  - pose proof (RootFacts.load_stores_from_spec imgs rows) as H.
    destruct (forallb Root.readable rows); [| exact H].
    destruct H as (st & Hrun & _ & Hall & _).
    exists st. split; [exact Hrun |].
    apply (Forall2_impl' _ _ _ _ Hall). intros r s Hs.
    apply RootFacts.record_of_Some in Hs
      as (? & ? & ? & ? & ? & ? & ? & ? & c9 & ? & ? & ?
          & (_ & _ & _ & _ & _ & _ & _ & _ & H9 & _) & ->).
    exists c9. split; [exact H9 | reflexivity].
Qed.







(** ** More facts about the run of [src/generate_pages.py] *)

Module MoreRootRun.
Import Py PyFacts World WorldFacts MoreRunFacts Root RootRun.

Lemma returns_path_exists_value (p : path) (Q : bool -> world -> Prop) (w : world) :
  Q (bool_decide (p ∈ dirs w) || bool_decide (is_Some (files w !! p))) w ->
  returns (path_exists p) Q w.
Proof. intros H. eexists _, w. split; [reflexivity | exact H]. Qed.

Lemma style_path_no_ancestor (ds : gset path) :
  style_path ∈ list_to_set (ancestors ASSETS_DIR) ∪ ds <-> style_path ∈ ds.
Proof.
  rewrite elem_of_union, elem_of_list_to_set. split; [| now right].
  intros [H|H]; [| exact H]. apply list_elem_of_In in H.
  destruct H as [H|[H|[]]]; apply (f_equal (@length str)) in H; discriminate H.
Qed.

Lemma page_path_neq_style (s : Store) : page_path s <> style_path.
Proof.
  unfold page_path, style_path, ASSETS_DIR, OUTPUT_DIR. simpl.
  intros H. injection H as _ H. vm_compute in H. discriminate H.
Qed.

Lemma page_path_inj (s t : Store) : page_path s = page_path t -> slug s = slug t.
Proof.
  unfold page_path. intros H. apply app_inv_tail in H. apply app_inv_head in H.
  now injection H.
Qed.

(** The world that [ensure_assets] leaves. *)
Lemma ensure_assets_exact (w : world) :
  returns ensure_assets
    (fun _ w' =>
       w' = {| dirs := list_to_set (ancestors ASSETS_DIR) ∪ dirs w;
               files := if bool_decide (style_path ∈ dirs w)
                           || bool_decide (is_Some (files w !! style_path))
                        then files w
                        else <[style_path := style_css]> (files w);
               stdout := stdout w |}) w.
Proof.
  unfold ensure_assets. apply returns_bind, returns_mkdir_parents.
  apply returns_bind, returns_path_exists_value. cbn [dirs files stdout].
  fold style_path.
  rewrite (bool_decide_ext _ _ (style_path_no_ancestor (dirs w))).
  destruct (bool_decide (style_path ∈ dirs w)
            || bool_decide (is_Some (files w !! style_path))); simpl negb; cbv iota.
  - now apply returns_ret.
  - apply returns_write_text; [| reflexivity].
    apply parent_exists_in. unfold style_path. rewrite removelast_snoc. cbn [dirs].
    apply in_own_ancestors. discriminate.
Qed.

Lemma ensure_assets_frame (w : world) :
  returns ensure_assets
    (fun _ w' => stdout w' = stdout w /\ dirs w ⊆ dirs w'
                 /\ forall p, p <> style_path -> files w' !! p = files w !! p) w.
Proof.
  apply (returns_impl _ _ _ _ (ensure_assets_exact w)). intros _ w' ->.
  cbn [dirs files stdout]. split; [reflexivity |]. split; [set_solver |].
  intros p Hp. destruct (_ || _); [reflexivity |]. now apply lookup_insert_ne.
Qed.

Lemma output_dir_exact (w : world) :
  returns (mkdir OUTPUT_DIR)
    (fun _ w' => w' = {| dirs := {[OUTPUT_DIR]} ∪ dirs w;
                         files := files w; stdout := stdout w |}) w.
Proof. apply returns_mkdir; reflexivity. Qed.

Lemma render_index_writes (stores : list Store) (w : world) :
  returns (render_index stores)
    (fun _ w' => files w' !! index_path = Some (index_html stores)
                 /\ stdout w' = stdout w) w.
Proof.
  unfold render_index. apply returns_bind.
  apply (returns_impl _ _ _ _ (output_dir_exact w)). intros _ w1 ->.
  apply returns_bind.
  eapply returns_impl; [apply ensure_assets_frame |].
  cbn [dirs files stdout]. intros _ w2 (Hout & Hsub & _).
  apply returns_write_text.
  - apply parent_exists_in. rewrite removelast_snoc. set_solver.
  - cbn [files stdout]. split; [apply lookup_insert_eq | exact Hout].
Qed.

Lemma render_store_page_writes (store : Store) (w : world) :
  returns (render_store_page store)
    (fun _ w' =>
       files w' !! page_path store = Some (store_html store)
       /\ stdout w' = stdout w
       /\ forall p, p <> style_path -> p <> page_path store ->
                    files w' !! p = files w !! p) w.
Proof.
  unfold render_store_page. apply returns_bind.
  apply (returns_impl _ _ _ _ (output_dir_exact w)). intros _ w1 ->.
  apply returns_bind.
  eapply returns_impl; [apply ensure_assets_frame |].
  cbn [dirs files stdout]. intros _ w2 (Hout & _ & Hfiles).
  apply returns_bind, returns_mkdir_parents.
  apply returns_write_text.
  - apply parent_exists_in. rewrite removelast_snoc. cbn [dirs].
    apply in_own_ancestors. discriminate.
  - cbn [files stdout]. fold (page_path store). split; [apply lookup_insert_eq |].
    split; [exact Hout |]. intros p Hs Hp.
    rewrite lookup_insert_ne by congruence. now apply Hfiles.
Qed.

Lemma render_pages_write (stores : list Store) (text : str) (out : list str)
    (w : world) :
  NoDup (slugs stores) ->
  files w !! index_path = Some text -> stdout w = out ->
  returns (for_each render_store_page stores)
    (fun _ w' =>
       (files w' !! index_path = Some text /\ stdout w' = out)
       /\ Forall (fun s => files w' !! page_path s = Some (store_html s)) stores) w.
Proof.
  intros Hnd Hidx Hout.
  apply (returns_for_each_distinct slug render_store_page
           (fun v => files v !! index_path = Some text /\ stdout v = out)
           (fun s v => files v !! page_path s = Some (store_html s)));
    [| | exact Hnd | now split].
  - intros s v [Hv Ho].
    apply (returns_impl _ _ _ _ (render_store_page_writes s v)).
    intros _ v' (Hpage & Hstd & Hrest). split; [| exact Hpage]. split; [| congruence].
    rewrite Hrest; [exact Hv | |].
    + intros H. now apply style_path_neq_index.
    + intros H. now apply (page_path_neq_index s).
  - intros s t v Hst _ Ht.
    apply (returns_impl _ _ _ _ (render_store_page_writes s v)).
    intros _ v' (_ & _ & Hrest). rewrite Hrest; [exact Ht | |].
    + apply page_path_neq_style.
    + intros H. apply Hst. symmetry. now apply page_path_inj.
Qed.

(** [build_site] writes the index, the page of every record and one line. *)
Lemma build_site_writes (detail : option (list row)) (data : list row)
    (l : list Store) (w : world) :
  load_stores detail data = Ok l ->
  returns (build_site {| data_file := Some data; detail_file := detail |})
    (fun _ w' =>
       files w' !! index_path = Some (index_html l)
       /\ Forall (fun s => files w' !! page_path s = Some (store_html s)) l
       /\ stdout w' =
            stdout w ++ [u "Generated " ++ str_of_int (N.of_nat (length l))
                           ++ u " store pages in docs/"]) w.
Proof.
  intros Hl. pose proof (RootFacts.load_stores_distinct _ _ _ Hl) as Hnd.
  unfold build_site.
  apply returns_bind, (RootRun.returns_load_stores_run _ _ _ _ _ Hl).
  apply returns_bind.
  apply (returns_impl _ _ _ _ (render_index_writes l w)).
  intros _ w1 [Hidx Hout].
  apply returns_bind.
  apply (returns_impl _ _ _ _ (render_pages_write l _ _ w1 Hnd Hidx Hout)).
  intros _ w2 [[Hidx2 Hout2] Hpages]. apply returns_print.
  cbn [files stdout]. split; [exact Hidx2 |]. split; [exact Hpages |].
  rewrite Hout2. reflexivity.
Qed.

(** A second run of [ensure_assets] changes nothing. *)
Lemma ensure_assets_twice (w w1 : world) :
  ensure_assets w = (Ok tt, w1) -> ensure_assets w1 = (Ok tt, w1).
Proof.
  intros H1.
  destruct (ensure_assets_exact w) as ([] & v1 & Hv1 & Hw1).
  rewrite H1 in Hv1. injection Hv1 as Heq. subst v1. clear H1. subst w1.
  match goal with |- ensure_assets ?r = _ =>
    destruct (ensure_assets_exact r) as ([] & w2 & Hrun & Hw2)
  end.
  rewrite Hrun, Hw2. cbn [dirs files stdout]. do 2 f_equal.
  - now rewrite (assoc_L (∪)), (idemp_L (∪)).
  - rewrite (bool_decide_ext _ _ (style_path_no_ancestor (dirs w))).
    destruct (bool_decide (style_path ∈ dirs w)) eqn:Hd; [reflexivity |].
    destruct (bool_decide (is_Some (files w !! style_path))) eqn:Hf; cbn [orb].
    + now rewrite Hf.
    + rewrite lookup_insert_eq.
      now rewrite (bool_decide_eq_true_2 (is_Some (Some style_css))) by eauto.
Qed.

End MoreRootRun.

(** ** More facts about the run of [src/scripts/generate_pages.py] *)

Module MoreScriptsRun.
Import Py PyFacts World WorldFacts MoreRunFacts Scripts ScriptsFacts.

Section Run.
Context {float : Type}.
Variable float_of_str : str -> option float.
Variable format_1f : float -> str.
Variable json_dumps : list (@Store float) -> str.

Abbreviation generate_pages := (generate_pages float_of_str format_1f json_dumps).
Abbreviation write_store_page := (write_store_page format_1f).

Lemma parse_stores_slugs_distinct (lookup : gmap str str) (data : list row) :
  NoDup (slugs (parse_stores float_of_str lookup data)).
Proof.
  unfold parse_stores. rewrite parse_stores_from_spec. cbn [stores].
  rewrite (records_from_slugs float_of_str).
  apply NoDup_fmap_2; [| apply NoDup_seq].
  intros m n. apply ordinal_slug_inj.
Qed.

Lemma store_page_inj (s t : @Store float) : page_path s = page_path t -> slug s = slug t.
Proof.
  unfold page_path. intros H. apply app_inv_tail in H. apply app_inv_head in H.
  now injection H.
Qed.

Lemma store_page_neq_json (s : @Store float) :
  page_path s <> DATA_DIR ++ [u "stores.json"].
Proof. intros H. apply (f_equal (@length str)) in H. discriminate H. Qed.

Lemma write_store_page_exact (store : @Store float) (w : world) :
  returns (write_store_page store)
    (fun _ w' =>
       w' = {| dirs := list_to_set (ancestors (STORES_DIR ++ [slug store])) ∪ dirs w;
               files := <[page_path store := render_store format_1f store]> (files w);
               stdout := stdout w |}) w.
Proof.
  unfold Scripts.write_store_page. apply returns_bind, returns_mkdir_parents.
  apply returns_write_text; [| reflexivity].
  apply parent_exists_in. rewrite removelast_snoc. cbn [dirs].
  apply in_own_ancestors. discriminate.
Qed.

Lemma write_pages_exact (stores : list (@Store float)) (json index : str)
    (out : list str) (ds : gset path) (w : world) :
  NoDup (slugs stores) ->
  kept json index out ds w ->
  returns (for_each write_store_page stores)
    (fun _ w' =>
       kept json index out ds w'
       /\ Forall (fun s => files w' !! page_path s = Some (render_store format_1f s))
            stores) w.
Proof.
  intros Hnd Hw.
  apply (returns_for_each_distinct slug write_store_page
           (kept json index out ds)
           (fun s v => files v !! page_path s = Some (render_store format_1f s)));
    [| | exact Hnd | exact Hw].
  - intros s v (Hj & Hi & Ho & Hd).
    apply (returns_impl _ _ _ _ (write_store_page_exact s v)). intros _ v' ->.
    unfold kept. cbn [dirs files stdout]. split; [| apply lookup_insert_eq].
    split; [| split; [| split; [exact Ho | set_solver]]].
    + rewrite lookup_insert_ne; [exact Hj | apply store_page_neq_json].
    + rewrite lookup_insert_ne; [exact Hi | apply ScriptsRun.store_page_neq_index].
  - intros s t v Hst _ Ht.
    apply (returns_impl _ _ _ _ (write_store_page_exact s v)). intros _ v' ->.
    cbn [files]. rewrite lookup_insert_ne; [exact Ht |].
    intros H. apply Hst. now apply store_page_inj.
Qed.

(** With a record, [generate_pages] writes the snapshot, the index and the
    page of every record, makes the three directories and prints nothing. *)
Lemma generate_pages_writes (detail data : list row) (w : world) :
  parse_stores float_of_str (load_images detail) data <> [] ->
  returns (generate_pages {| data_csv := Some data; detail_csv := Some detail |})
    (fun _ w' =>
       let stores := parse_stores float_of_str (load_images detail) data in
       kept (json_dumps stores) (render_index format_1f stores) (stdout w)
         {[ASSETS_DIR; STORES_DIR; DATA_DIR]} w'
       /\ Forall (fun s => files w' !! page_path s = Some (render_store format_1f s))
            stores) w.
Proof.
  intros Hne. unfold Scripts.generate_pages, load_images_run, parse_stores_run.
  simpl data_csv. simpl detail_csv.
  apply returns_bind, returns_ret. apply returns_bind, returns_ret.
  pose proof (parse_stores_slugs_distinct (load_images detail) data) as Hnd.
  destruct (parse_stores float_of_str (load_images detail) data) as [|s0 rest] eqn:E;
    [congruence |].
  apply returns_bind, returns_mkdir_parents.
  apply returns_bind, returns_mkdir_parents.
  apply returns_bind. unfold write_json.
  apply returns_bind, returns_mkdir_parents.
  apply returns_write_text.
  { apply parent_exists_in. rewrite removelast_snoc. cbn [dirs].
    apply in_own_ancestors. discriminate. }
  apply returns_bind, returns_write_text.
  { apply parent_exists_in. rewrite removelast_snoc. cbn [dirs].
    do 2 apply elem_of_union_r. apply elem_of_union_l.
    apply elem_of_list_to_set, list_elem_of_In. left. reflexivity. }
  apply (write_pages_exact _ _ _ _ _ _ Hnd).
  unfold kept. cbn [dirs files stdout]. split; [| split; [| split]].
  - rewrite lookup_insert_ne; [apply lookup_insert_eq |].
    intros H. apply (f_equal (@length str)) in H. discriminate H.
  - apply lookup_insert_eq.
  - reflexivity.
  - intros p Hp. apply elem_of_union in Hp as [Hp|Hp%elem_of_singleton].
    + apply elem_of_union in Hp as [Hp%elem_of_singleton|Hp%elem_of_singleton]; subst p.
      * do 2 apply elem_of_union_r. apply elem_of_union_l.
        apply elem_of_list_to_set, list_elem_of_In. right. left. reflexivity.
      * apply elem_of_union_r, elem_of_union_l.
        apply elem_of_list_to_set, list_elem_of_In. right. left. reflexivity.
    + subst p. apply elem_of_union_l.
      apply elem_of_list_to_set, list_elem_of_In. right. left. reflexivity.
Qed.

End Run.

End MoreScriptsRun.

(** ** Facts about the index pages *)

Module MoreRootRender.
Import Py PyFacts MorePyFacts Root.

(** *** The name shown for a record *)

Lemma lstrip_by_split (p : N -> bool) (s : str) :
  exists pre, s = pre ++ lstrip_by p s /\ forallb p pre = true.
Proof.
  induction s as [|c s (pre & IH & Hpre)]; simpl.
  - now exists [].
  - destruct (p c) eqn:Hc.
    + exists (c :: pre). simpl. rewrite Hc, Hpre. split; [now f_equal | reflexivity].
    + now exists [].
Qed.

Lemma rstrip_by_split (p : N -> bool) (s : str) :
  exists post, s = rstrip_by p s ++ post /\ forallb p post = true.
Proof.
  unfold rstrip_by. destruct (lstrip_by_split p (rev s)) as (pre & H & Hpre).
  exists (rev pre). split.
  - rewrite <- rev_app_distr, <- H. now rewrite rev_involutive.
  - rewrite forallb_forall in *. intros c Hc. apply Hpre. now apply in_rev.
Qed.

Lemma mem_char_bars (c : N) : mem_char (u "|｜") c = bar c.
Proof. unfold bar. change (mem_char (u "|｜") c) with ((c =? 0x7C) || ((c =? 0xFF5C) || false)).
  now rewrite orb_false_r.
Qed.

Lemma display_name_prefix (s : Store) :
  exists post, name s = display_name s ++ post /\ forallb bar post = true.
Proof.
  unfold display_name. cbv zeta. unfold rstrip_chars.
  destruct (rstrip_by_split (mem_char (u "|｜")) (name s)) as (post & H & Hpost).
  destruct (truthy _).
  - exists post. split; [exact H |].
    rewrite forallb_forall in *. intros c Hc. rewrite <- mem_char_bars. auto.
  - exists []. split; [now rewrite app_nil_r | reflexivity].
Qed.

Lemma display_name_nonempty (s : Store) : name s <> [] -> display_name s <> [].
Proof.
  unfold display_name. cbv zeta. intros Hne.
  destruct (truthy _) eqn:Ht; [now apply truthy_true | exact Hne].
Qed.

Lemma display_name_last (s : Store) :
  existsb (fun c => negb (bar c)) (name s) = true ->
  match rev (display_name s) with [] => False | c :: _ => bar c = false end.
Proof.
  intros (c & Hc & Hb)%existsb_exists. apply negb_true_iff in Hb.
  unfold display_name. cbv zeta. unfold rstrip_chars.
  assert (In c (rstrip_by (mem_char (u "|｜")) (name s))) as Hin.
  { apply rstrip_by_keeps; [exact Hc | now rewrite mem_char_bars]. }
  pose proof (rstrip_by_last (mem_char (u "|｜")) (name s)) as Hl.
  destruct (rstrip_by (mem_char (u "|｜")) (name s)) as [|d t] eqn:E; [destruct Hin |].
  cbn [truthy]. destruct (rev (d :: t)) as [|e r] eqn:Er.
  - apply (f_equal (@length N)) in Er. rewrite length_rev in Er. discriminate Er.
  - now rewrite <- mem_char_bars.
Qed.

Lemma display_name_bars (s : Store) :
  forallb bar (name s) = true -> display_name s = name s.
Proof.
  intros Hall. unfold display_name. cbv zeta. unfold rstrip_chars, rstrip_by.
  rewrite lstrip_by_all; [reflexivity |].
  rewrite forallb_forall in *. intros c Hc. rewrite mem_char_bars.
  apply Hall. now apply in_rev.
Qed.

(** *** The cards of the index page *)

Lemma link_tail : u "/index.html'><h3>" = u "/index.html'>" ++ u "<h3>".
Proof. reflexivity. Qed.

#[local] Opaque u tpl.

Ltac in_pieces := solve [repeat first [apply in_eq | apply in_cons]].

Ltac in_card_parts :=
  apply in_or_app; left; apply in_if_truthy_keep; apply in_or_app; left;
  do 2 apply in_if_truthy_keep; in_pieces.

Lemma card_html_link (s : Store) :
  contains (u "<a href='" ++ slug s ++ u "/index.html'>") (card_html s) = true.
Proof.
  unfold card_html. cbv zeta.
  eapply (contains_piece _ (concat [_; slug s; _; _; _])); [in_card_parts |].
  rewrite link_tail. cbn [concat]. apply contains_true.
  eexists [], _. cbn [app]. rewrite <- !app_assoc. reflexivity.
Qed.

Lemma card_html_name (s : Store) :
  contains (escape (display_name s)) (card_html s) = true.
Proof.
  unfold card_html. cbv zeta.
  eapply (contains_piece _ (concat [_; slug s; _; _; _])); [in_card_parts |].
  apply contains_concat. in_pieces.
Qed.

Lemma index_html_card (stores : list Store) (s : Store) (t : str) :
  In s stores -> contains t (card_html s) = true ->
  contains t (index_html stores) = true.
Proof.
  intros Hin Ht. unfold index_html. cbv zeta.
  eapply (contains_piece _ (concat (List.map card_html stores))); [in_pieces |].
  eapply contains_piece; [| exact Ht]. now apply in_map.
Qed.

End MoreRootRender.

Module MoreScriptsRender.
Import Py PyFacts MorePyFacts Scripts ScriptsFacts.

Section Cards.
Context {float : Type}.
Variable format_1f : float -> str.

(** *** The badge *)

Lemma badge_text_empty (s : @Store float) :
  badge_text s = []
  <-> truthy_opt (category s) = false /\ truthy_opt (status s) = false
      /\ truthy_opt (hours_note s) = false.
Proof.
  unfold badge_text. cbv zeta. split.
  - intros H.
    destruct (category s) as [c|]; [destruct (truthy c) eqn:Hc |];
      cbn [truthy_opt default app] in *; rewrite ?Hc in *;
      try (destruct (truthy_opt (status s)); destruct (truthy_opt (hours_note s));
           cbn [app] in H; exfalso; revert H; apply join_nonempty;
           now apply truthy_true).
    all: destruct (status s) as [t|]; [destruct (truthy t) eqn:Ht |];
      cbn [truthy_opt default app] in *; rewrite ?Ht in *;
      try (destruct (truthy_opt (hours_note s));
           cbn [app] in H; exfalso; revert H; apply join_nonempty;
           now apply truthy_true).
    all: destruct (hours_note s) as [h|]; [destruct (truthy h) eqn:Hh |];
      cbn [truthy_opt default app] in *; rewrite ?Hh in *;
      try (exfalso; revert H; apply join_nonempty; now apply truthy_true).
    all: auto.
  - intros (-> & -> & ->). reflexivity.
Qed.

(** *** The cards of the index page *)

Lemma render_card_link (s : Store) :
  contains (tpl "href=`stores/" ++ slug s ++ tpl "/index.html`")
    (render_card format_1f s) = true.
Proof.
  unfold render_card. cbv zeta.
  match goal with
  | |- contains _ (concat (?a :: slug s :: ?b :: ?rest)) = true =>
    let n := eval vm_compute in (length a - length (tpl "href=`stores/"))%nat in
    let pre := eval vm_compute in (firstn n a) in
    let m := eval vm_compute in (length (tpl "/index.html`")) in
    let post := eval vm_compute in (skipn m b) in
    assert (a = pre ++ tpl "href=`stores/") as -> by (vm_compute; reflexivity);
    assert (b = tpl "/index.html`" ++ post) as -> by (vm_compute; reflexivity);
    apply contains_true; exists pre, (post ++ concat rest)
  end.
  cbn [concat]. rewrite <- !app_assoc. reflexivity.
Qed.

Lemma render_card_name (s : Store) :
  contains (escape (name s)) (render_card format_1f s) = true.
Proof. unfold render_card. cbv zeta. apply contains_concat. simpl. tauto. Qed.

Lemma render_index_card (stores : list Store) (s : Store) (t : str) :
  In s stores -> contains t (render_card format_1f s) = true ->
  contains t (render_index format_1f stores) = true.
Proof.
  intros Hin Ht. unfold render_index. cbv zeta.
  eapply contains_piece; [right; left; reflexivity |].
  eapply contains_trans; [exact Ht |]. apply contains_join. now apply in_map.
Qed.

End Cards.

End MoreScriptsRender.

(** ** Slugs are stable *)

Module SlugFacts.
Import Py PyFacts MorePyFacts Root RootFacts MoreRootFacts.

Lemma sub_runs_length (s : str) :
  forall r : bool, (length (sub_runs r s) <= length s)%nat.
Proof.
  induction s as [|c s IH]; intros r; simpl; [lia |].
  destruct (slug_char c); simpl; [specialize (IH false); lia |].
  destruct r; simpl; [specialize (IH true); lia | specialize (IH true); lia].
Qed.

Lemma sub_runs_idem (s : str) :
  forall r : bool, sub_runs r (sub_runs r s) = sub_runs r s.
Proof.
  induction s as [|c s IH]; intros r; simpl; [reflexivity |].
  destruct (slug_char c) eqn:Hc; simpl.
  - rewrite Hc. now rewrite IH.
  - destruct r; [apply IH |]. simpl. change (slug_char 0x2D) with false.
    cbv iota. now rewrite IH.
Qed.

(** A text that [sub_runs] leaves as it is: its parts are such texts. *)
Lemma sub_runs_fixed_cons (r : bool) (c : N) (s : str) :
  sub_runs r (c :: s) = c :: s ->
  (slug_char c = true /\ sub_runs false s = s)
  \/ (slug_char c = false /\ c = 0x2D /\ r = false /\ sub_runs true s = s).
Proof.
  simpl. destruct (slug_char c) eqn:Hc.
  - intros [= H]. now left.
  - destruct r.
    + intros H. apply (f_equal (@length N)) in H. simpl in H.
      pose proof (sub_runs_length s true). lia.
    + intros [= <- H]. now right.
Qed.

Lemma sub_runs_fixed_suffix (a b : str) :
  forall r : bool, sub_runs r (a ++ b) = a ++ b -> exists r', sub_runs r' b = b.
Proof.
  induction a as [|c a IH]; intros r H; [now exists r |].
  change ((c :: a) ++ b) with (c :: (a ++ b)) in H.
  apply sub_runs_fixed_cons in H as [[_ H]|(_ & _ & _ & H)]; eauto.
Qed.

Lemma sub_runs_fixed_prefix (a b : str) :
  forall r : bool, sub_runs r (a ++ b) = a ++ b -> sub_runs r a = a.
Proof.
  induction a as [|c a IH]; intros r H; [reflexivity |].
  change ((c :: a) ++ b) with (c :: (a ++ b)) in H.
  apply sub_runs_fixed_cons in H as [[Hc H]|(Hc & -> & -> & H)];
    cbn [sub_runs]; rewrite Hc; f_equal; now apply IH.
Qed.

Lemma sub_runs_fixed_head (r : bool) (c : N) (s : str) :
  sub_runs r (c :: s) = c :: s -> c <> 0x2D -> sub_runs false (c :: s) = c :: s.
Proof.
  intros H Hc.
  apply sub_runs_fixed_cons in H as [[Hs H]|(_ & -> & _)]; [| congruence].
  simpl. rewrite Hs. now f_equal.
Qed.

Lemma slug_char_lower (c : N) : slug_char (lower_char c) = slug_char c.
Proof.
  unfold lower_char. destruct ((0x41 <=? c) && (c <=? 0x5A)) eqn:Hup; [| reflexivity].
  unfold slug_char. rewrite Hup.
  apply andb_prop in Hup as [H1 H2]. apply N.leb_le in H1, H2.
  replace (0x61 <=? c + 0x20) with true by (symmetry; apply N.leb_le; lia).
  replace (c + 0x20 <=? 0x7A) with true by (symmetry; apply N.leb_le; lia).
  simpl. now rewrite orb_true_r.
Qed.

Lemma lower_char_idem (c : N) : lower_char (lower_char c) = lower_char c.
Proof.
  unfold lower_char. destruct ((0x41 <=? c) && (c <=? 0x5A)) eqn:Hup;
    [| now rewrite Hup].
  apply andb_prop in Hup as [H1 H2]. apply N.leb_le in H1, H2.
  replace (c + 0x20 <=? 0x5A) with false by (symmetry; apply N.leb_gt; lia).
  now rewrite andb_false_r.
Qed.

Lemma lower_idem (s : str) : lower (lower s) = lower s.
Proof.
  unfold lower. rewrite List.map_map. apply List.map_ext. apply lower_char_idem.
Qed.

Lemma sub_runs_lower (s : str) :
  forall r : bool, sub_runs r (lower s) = lower (sub_runs r s).
Proof.
  induction s as [|c s IH]; intros r; [reflexivity |].
  cbn [lower List.map sub_runs]. rewrite slug_char_lower.
  destruct (slug_char c).
  - cbn [List.map]. f_equal. apply IH.
  - destruct r; [apply IH |]. cbn [List.map]. f_equal. apply IH.
Qed.

(** *** Texts that are their own base slug *)

Lemma strip_by_id (p : N -> bool) (s : str) :
  match s with [] => True | c :: _ => p c = false end ->
  match rev s with [] => True | c :: _ => p c = false end ->
  strip_by p s = s.
Proof.
  intros Hh Hl. unfold strip_by, rstrip_by.
  rewrite (lstrip_by_id p s Hh), (lstrip_by_id p (rev s) Hl).
  apply rev_involutive.
Qed.

Lemma sub_runs_all_slug (s : str) :
  forall r : bool, forallb slug_char s = true -> sub_runs r s = s.
Proof.
  induction s as [|c s IH]; intros r; simpl; [reflexivity |].
  intros [Hc Hs]%andb_prop. rewrite Hc. f_equal. auto.
Qed.

Lemma sub_runs_fixed_app (c : N) (b : str) (a : str) :
  forall r : bool,
    slug_char c = true -> sub_runs r (a ++ [c]) = a ++ [c] -> sub_runs false b = b ->
    sub_runs r ((a ++ [c]) ++ b) = (a ++ [c]) ++ b.
Proof.
  induction a as [|d a IH]; intros r Hc Ha Hb.
  - simpl. rewrite Hc. now f_equal.
  - change ((d :: a) ++ [c]) with (d :: (a ++ [c])) in *.
    change ((d :: (a ++ [c])) ++ b) with (d :: ((a ++ [c]) ++ b)).
    apply sub_runs_fixed_cons in Ha as [[Hd Ha]|(Hd & -> & -> & Ha)];
      cbn [sub_runs]; rewrite Hd; f_equal; now apply IH.
Qed.

Lemma sub_runs_fixed_chars (r : bool) (s : str) (c : N) :
  sub_runs r s = s -> In c s -> slug_char c = true \/ c = 0x2D.
Proof. intros H Hc. rewrite <- H in Hc. eapply sub_runs_chars, Hc. Qed.

Lemma hyphen_mem (c : N) : mem_char (u "-") c = (c =? 0x2D).
Proof. change (mem_char (u "-") c) with ((c =? 0x2D) || false). apply orb_false_r. Qed.

Lemma own_slug_base (s : str) : own_slug s -> slug_base s = s.
Proof.
  intros (Hne & Hsub & Hstrip & Hlow). unfold slug_base. cbv zeta.
  rewrite Hsub, Hstrip, Hlow. apply truthy_true in Hne. now rewrite Hne.
Qed.

Lemma lower_head (s : str) :
  match s with [] => True | c :: _ => mem_char (u "-") c = false end ->
  match lower s with [] => True | c :: _ => mem_char (u "-") c = false end.
Proof.
  destruct s as [|c s]; [trivial |]. cbn [lower List.map]. rewrite !hyphen_mem.
  intros Hc. destruct (N.eqb_spec (lower_char c) 0x2D) as [He|]; [| reflexivity].
  apply lower_char_hyphen in He. subst c. discriminate Hc.
Qed.

Lemma slug_base_own (name : str) : own_slug (slug_base name).
Proof.
  unfold slug_base. cbv zeta.
  destruct (truthy (lower (strip_chars (u "-") (sub_runs false name)))) eqn:Ht.
  - unfold strip_chars in *.
    set (T := sub_runs false name) in *.
    set (X := strip_by (mem_char (u "-")) T) in *.
    assert (sub_runs false X = X) as HX.
    { pose proof (sub_runs_idem name false) as HT. fold T in HT.
      destruct (lstrip_by_suffix (mem_char (u "-")) T) as [pre Hpre].
      rewrite Hpre in HT. apply sub_runs_fixed_suffix in HT as [r' HT].
      destruct (rstrip_by_prefix (mem_char (u "-")) (lstrip_by (mem_char (u "-")) T))
        as [post Hpost].
      fold (strip_by (mem_char (u "-")) T) in Hpost. fold X in Hpost.
      rewrite Hpost in HT. apply sub_runs_fixed_prefix in HT.
      pose proof (strip_by_head (mem_char (u "-")) T) as Hh. fold X in Hh.
      destruct X as [|c t]; [reflexivity |].
      apply (sub_runs_fixed_head r'); [exact HT |].
      intros ->. discriminate Hh. }
    split; [now apply truthy_true |]. split; [| split].
    + now rewrite sub_runs_lower, HX.
    + apply strip_by_id.
      * apply lower_head. apply strip_by_head.
      * unfold lower. rewrite <- List.map_rev. apply lower_head.
        apply strip_by_last.
    + apply lower_idem.
  - split; [discriminate |]. split; [reflexivity |]. split; reflexivity.
Qed.

Lemma lower_digits (s : str) : forallb is_digit s = true -> lower s = s.
Proof.
  induction s as [|c s IH]; simpl; [reflexivity |].
  intros [Hc Hs]%andb_prop. f_equal; [| auto].
  unfold is_digit in Hc. apply andb_prop in Hc as [H1 H2]. apply N.leb_le in H1, H2.
  unfold lower_char.
  replace (0x41 <=? c) with false by (symmetry; apply N.leb_gt; lia). reflexivity.
Qed.

Lemma digit_slug_char (c : N) : is_digit c = true -> slug_char c = true.
Proof. unfold is_digit, slug_char. intros ->. now rewrite ?orb_true_r. Qed.

Lemma candidate_own (base : str) (k : N) : own_slug base -> own_slug (candidate base k).
Proof.
  intros (Hne & Hsub & Hstrip & Hlow). unfold candidate. rewrite hyphen.
  pose proof (digits_of_uint_digits (N.to_uint k)) as Hd. fold (str_of_int k) in Hd.
  pose proof (str_of_int_nonempty k) as Hk.
  assert (exists a c, base = a ++ [c] /\ slug_char c = true) as (a & c & Hbase & Hc).
  { destruct (exists_last Hne) as (a & c & Ha). exists a, c. split; [exact Ha |].
    destruct (sub_runs_fixed_chars false base c Hsub) as [H| ->]; [| exact H |].
    - rewrite Ha. apply in_or_app. right. now left.
    - exfalso. pose proof (strip_by_last (mem_char (u "-")) base) as Hl.
      unfold strip_chars in Hstrip. rewrite Hstrip, Ha, rev_unit in Hl.
      discriminate Hl. }
  assert (match base with [] => True | c :: _ => mem_char (u "-") c = false end) as Hh.
  { unfold strip_chars in Hstrip. rewrite <- Hstrip. apply strip_by_head. }
  split; [| split; [| split]].
  - intros H. apply app_eq_nil in H as [H _]. contradiction.
  - rewrite Hbase in *. apply sub_runs_fixed_app; [exact Hc | exact Hsub |].
    cbn [app sub_runs]. change (slug_char 0x2D) with false. cbv iota. f_equal.
    apply sub_runs_all_slug. apply forallb_forall. intros d Hin.
    apply digit_slug_char. revert d Hin. now apply forallb_forall.
  - apply strip_by_id.
    + destruct base as [|b base]; [contradiction | exact Hh].
    + rewrite !rev_app_distr.
      destruct (exists_last Hk) as (ds & d & Hds). rewrite Hds, rev_unit. cbn [app].
      rewrite hyphen_mem.
      assert (is_digit d = true) as Hdig.
      { rewrite forallb_forall in Hd. apply Hd. rewrite Hds. apply in_or_app.
        right. now left. }
      unfold is_digit in Hdig. apply andb_prop in Hdig as [H1 _]. apply N.leb_le in H1.
      apply N.eqb_neq. lia.
  - unfold lower in *. rewrite !List.map_app, Hlow. f_equal. f_equal.
    now apply lower_digits.
Qed.

(** A slug returned by [slugify] is its own base slug. *)
Lemma slugify_own (name : str) (existing : gset str) (slug : str) (seen : gset str) :
  slugify name existing = Some (slug, seen) -> own_slug slug.
Proof.
  unfold slugify. cbv zeta.
  destruct (slug_loop _ _ _ _ _) as [s|] eqn:Hloop; [| discriminate].
  intros [= <- _].
  apply slug_loop_shape in Hloop as [->|[k ->]].
  - apply slug_base_own.
  - apply candidate_own, slug_base_own.
Qed.

End SlugFacts.

(** ** Running a script again *)

Module AgainFacts.
Import Py PyFacts World WorldFacts.

Lemma bind_again {A B : Type} (m : run A) (k : A -> run B) (a : A) (w : world) :
  m w = (Ok a, w) -> (m ≫= k) w = k a w.
Proof. intros H. unfold mbind, run_bind. now rewrite H. Qed.

Lemma mkdir_parents_again (p : path) (w : world) :
  list_to_set (ancestors p) ⊆ dirs w -> mkdir_parents p w = (Ok tt, w).
Proof.
  intros H. unfold mkdir_parents. destruct w as [d f o]. cbn [dirs files stdout] in *.
  do 2 f_equal. now apply subseteq_union_1_L.
Qed.

Lemma mkdir_again (p : path) (w : world) :
  parent_exists p w = true -> p ∈ dirs w -> mkdir p w = (Ok tt, w).
Proof.
  intros Hp H. unfold mkdir. rewrite Hp. destruct w as [d f o].
  cbn [dirs files stdout] in *. do 2 f_equal. apply subseteq_union_1_L.
  now apply singleton_subseteq_l.
Qed.

Lemma write_text_again (p : path) (text : str) (w : world) :
  parent_exists p w = true -> files w !! p = Some text ->
  write_text p text w = (Ok tt, w).
Proof.
  intros Hp H. unfold write_text. rewrite Hp. destruct w as [d f o].
  cbn [dirs files stdout] in *. do 2 f_equal. now apply insert_id.
Qed.

Lemma for_each_again {A : Type} (f : A -> run unit) (l : list A) (w : world) :
  Forall (fun x => f x w = (Ok tt, w)) l -> for_each f l w = (Ok tt, w).
Proof.
  induction 1 as [|x l Hx _ IH]; [reflexivity |].
  simpl. now rewrite (bind_again _ _ tt w Hx).
Qed.

(** Deterministic runs: two facts about one run hold together. *)
Lemma returns_conj {A : Type} (m : run A) (Q R : A -> world -> Prop) (w : world) :
  returns m Q w -> returns m R w -> returns m (fun a w' => Q a w' /\ R a w') w.
Proof.
  intros (a & w1 & H1 & HQ) (b & w2 & H2 & HR). rewrite H1 in H2.
  injection H2 as <- <-. now exists a, w1.
Qed.

End AgainFacts.

Module RootAgain.
Import Py PyFacts World WorldFacts MoreRunFacts AgainFacts Root RootRun MoreRootRun.

Lemma ensure_assets_again (w : world) : assets_made w -> ensure_assets w = (Ok tt, w).
Proof.
  intros [Hd Hs].
  destruct (ensure_assets_exact w) as ([] & w' & Hrun & ->). rewrite Hrun.
  destruct w as [d f o]. cbn [dirs files stdout] in *. do 2 f_equal.
  - now apply subseteq_union_1_L.
  - destruct Hs as [Hs|Hs].
    + now rewrite (bool_decide_eq_true_2 _ Hs).
    + rewrite (bool_decide_eq_true_2 _ Hs). now rewrite orb_true_r.
Qed.

Lemma ensure_assets_made (w : world) :
  returns ensure_assets
    (fun _ w' => assets_made w' /\ dirs w ⊆ dirs w' /\ stdout w' = stdout w
                 /\ forall p, p <> style_path -> files w' !! p = files w !! p) w.
Proof.
  apply (returns_impl _ _ _ _ (ensure_assets_exact w)). intros _ w' ->.
  unfold assets_made. cbn [dirs files stdout].
  split; [split |]; [set_solver | | split; [set_solver | split; [reflexivity |]]].
  - destruct (bool_decide (style_path ∈ dirs w)) eqn:Hd; cbn [orb].
    + left. apply bool_decide_eq_true in Hd. set_solver.
    + destruct (bool_decide (is_Some (files w !! style_path))) eqn:Hf.
      * right. now apply bool_decide_eq_true in Hf.
      * right. rewrite lookup_insert_eq. eauto.
  - intros p Hp. destruct (_ || _); [reflexivity |]. now apply lookup_insert_ne.
Qed.

Lemma output_dir_in_assets (w : world) : assets_made w -> OUTPUT_DIR ∈ dirs w.
Proof.
  intros [Hd _]. apply Hd. apply elem_of_list_to_set, list_elem_of_In.
  left. reflexivity.
Qed.

Lemma assets_made_keep (w w' : world) :
  assets_made w -> dirs w ⊆ dirs w' ->
  (files w' !! style_path = files w !! style_path) -> assets_made w'.
Proof.
  intros [Hd Hs] Hsub Hf. split; [set_solver |].
  destruct Hs as [Hs|Hs]; [left; set_solver | right; now rewrite Hf].
Qed.

Lemma render_index_made (stores : list Store) (w : world) :
  returns (render_index stores)
    (fun _ w' => assets_made w'
                 /\ files w' !! index_path = Some (index_html stores)
                 /\ stdout w' = stdout w) w.
Proof.
  unfold render_index. apply returns_bind.
  apply (returns_impl _ _ _ _ (output_dir_exact w)). intros _ w1 ->.
  apply returns_bind.
  eapply returns_impl; [apply ensure_assets_made |].
  cbn [dirs files stdout]. intros _ w2 (Ha & Hsub & Hout & _).
  apply returns_write_text.
  - apply parent_exists_in. rewrite removelast_snoc. set_solver.
  - split; [| split; [apply lookup_insert_eq | exact Hout]].
    apply (assets_made_keep w2); [exact Ha | reflexivity |].
    cbn [files]. apply lookup_insert_ne. apply not_eq_sym, style_path_neq_index.
Qed.

Lemma render_store_page_made (s : Store) (w : world) :
  returns (render_store_page s)
    (fun _ w' =>
       assets_made w' /\ page_made s w' /\ stdout w' = stdout w
       /\ dirs w ⊆ dirs w'
       /\ forall p, p <> style_path -> p <> page_path s ->
                    files w' !! p = files w !! p) w.
Proof.
  unfold render_store_page. apply returns_bind.
  apply (returns_impl _ _ _ _ (output_dir_exact w)). intros _ w1 ->.
  apply returns_bind.
  eapply returns_impl; [apply ensure_assets_made |].
  cbn [dirs files stdout]. intros _ w2 (Ha & Hsub & Hout & Hfiles).
  apply returns_bind, returns_mkdir_parents.
  apply returns_write_text.
  - apply parent_exists_in. rewrite removelast_snoc. cbn [dirs].
    apply in_own_ancestors. discriminate.
  - cbn [dirs files stdout]. fold (page_path s).
    split; [| split; [| split; [exact Hout | split]]].
    + apply (assets_made_keep w2); [exact Ha | cbn [dirs]; set_solver |].
      cbn [files]. apply lookup_insert_ne. apply page_path_neq_style.
    + split; cbn [dirs files]; [set_solver | apply lookup_insert_eq].
    + set_solver.
    + intros p Hs Hp. rewrite lookup_insert_ne by congruence. now apply Hfiles.
Qed.

Lemma render_pages_made (stores : list Store) (text : str) (out : list str)
    (w : world) :
  NoDup (slugs stores) ->
  assets_made w -> files w !! index_path = Some text -> stdout w = out ->
  returns (for_each render_store_page stores)
    (fun _ w' =>
       (assets_made w' /\ files w' !! index_path = Some text /\ stdout w' = out)
       /\ Forall (fun s => page_made s w') stores) w.
Proof.
  intros Hnd Ha Hidx Hout.
  apply (returns_for_each_distinct slug render_store_page
           (fun v => assets_made v /\ files v !! index_path = Some text /\ stdout v = out)
           page_made); [| | exact Hnd | auto].
  - intros s v (_ & Hv & Ho).
    apply (returns_impl _ _ _ _ (render_store_page_made s v)).
    intros _ v' (Ha' & Hpage & Hstd & _ & Hrest).
    split; [| exact Hpage]. split; [exact Ha' |]. split; [| congruence].
    rewrite Hrest; [exact Hv | |].
    + intros H. now apply style_path_neq_index.
    + intros H. now apply (page_path_neq_index s).
  - intros s t v Hst _ [Hd Ht].
    apply (returns_impl _ _ _ _ (render_store_page_made s v)).
    intros _ v' (_ & _ & _ & Hsub & Hrest). split; [set_solver |].
    rewrite Hrest; [exact Ht | |].
    + apply page_path_neq_style.
    + intros H. apply Hst. symmetry. now apply page_path_inj.
Qed.

(** The first run makes the site. *)
Lemma build_site_made (detail : option (list row)) (data : list row)
    (l : list Store) (w : world) :
  load_stores detail data = Ok l ->
  returns (build_site {| data_file := Some data; detail_file := detail |})
    (fun _ w' => site_made l w') w.
Proof.
  intros Hl. pose proof (RootFacts.load_stores_distinct _ _ _ Hl) as Hnd.
  unfold build_site.
  apply returns_bind, (RootRun.returns_load_stores_run _ _ _ _ _ Hl).
  apply returns_bind.
  apply (returns_impl _ _ _ _ (render_index_made l w)).
  intros _ w1 (Ha & Hidx & Hout).
  apply returns_bind.
  apply (returns_impl _ _ _ _ (render_pages_made l _ _ w1 Hnd Ha Hidx Hout)).
  intros _ w2 [(Ha2 & Hidx2 & _) Hpages]. apply returns_print.
  split; [exact Ha2 |]. split; [exact Hidx2 | exact Hpages].
Qed.

Lemma render_index_again (stores : list Store) (w : world) :
  site_made stores w -> render_index stores w = (Ok tt, w).
Proof.
  intros (Ha & Hidx & _). unfold render_index.
  pose proof (output_dir_in_assets w Ha) as Hout.
  rewrite (bind_again _ _ tt w (mkdir_again OUTPUT_DIR w eq_refl Hout)).
  rewrite (bind_again _ _ tt w (ensure_assets_again w Ha)).
  apply write_text_again; [| exact Hidx].
  apply parent_exists_in. now rewrite removelast_snoc.
Qed.

Lemma render_store_page_again (s : Store) (w : world) :
  assets_made w -> page_made s w -> render_store_page s w = (Ok tt, w).
Proof.
  intros Ha [Hd Hp]. unfold render_store_page.
  pose proof (output_dir_in_assets w Ha) as Hout.
  rewrite (bind_again _ _ tt w (mkdir_again OUTPUT_DIR w eq_refl Hout)).
  rewrite (bind_again _ _ tt w (ensure_assets_again w Ha)). cbv zeta.
  rewrite (bind_again _ _ tt w (mkdir_parents_again _ w Hd)).
  apply write_text_again; [| exact Hp].
  apply parent_exists_in. rewrite removelast_snoc. apply Hd.
  apply elem_of_list_to_set, list_elem_of_In, self_in_ancestors. discriminate.
Qed.

(** A run on a world that holds the site changes no file and no directory. *)
Lemma build_site_again (detail : option (list row)) (data : list row)
    (l : list Store) (w : world) :
  load_stores detail data = Ok l -> site_made l w ->
  exists line,
    build_site {| data_file := Some data; detail_file := detail |} w
    = (Ok tt, {| dirs := dirs w; files := files w; stdout := stdout w ++ [line] |}).
Proof.
  intros Hl (Ha & Hidx & Hpages). eexists. unfold build_site.
  rewrite (bind_again _ _ l w); [| now rewrite RootRun.load_stores_run_data, Hl].
  rewrite (bind_again _ _ tt w (render_index_again l w (conj Ha (conj Hidx Hpages)))).
  rewrite (bind_again _ _ tt w).
  - reflexivity.
  - apply for_each_again. eapply Forall_impl; [exact Hpages |].
    intros s Hs. now apply render_store_page_again.
Qed.

End RootAgain.

Module ScriptsAgain.
Import Py PyFacts World WorldFacts MoreRunFacts AgainFacts Scripts ScriptsFacts.

Section Run.
Context {float : Type}.
Variable float_of_str : str -> option float.
Variable format_1f : float -> str.
Variable json_dumps : list (@Store float) -> str.

Abbreviation generate_pages := (generate_pages float_of_str format_1f json_dumps).
Abbreviation write_store_page := (write_store_page format_1f).
Abbreviation page_made := (page_made format_1f).
Abbreviation site_made := (site_made format_1f json_dumps).

Lemma write_store_page_made (s : @Store float) (w : world) :
  returns (write_store_page s)
    (fun _ w' =>
       page_made s w' /\ dirs w ⊆ dirs w' /\ stdout w' = stdout w
       /\ forall p, p <> page_path s -> files w' !! p = files w !! p) w.
Proof.
  apply (returns_impl _ _ _ _ (MoreScriptsRun.write_store_page_exact format_1f s w)).
  intros _ w' ->. unfold Scripts.page_made. cbn [dirs files stdout].
  split; [split; [set_solver | apply lookup_insert_eq] |].
  split; [set_solver |]. split; [reflexivity |].
  intros p Hp. now apply lookup_insert_ne.
Qed.

Lemma write_pages_made (stores : list (@Store float)) (json index : str)
    (out : list str) (w : world) :
  NoDup (slugs stores) ->
  kept json index out site_dirs w ->
  returns (for_each write_store_page stores)
    (fun _ w' => kept json index out site_dirs w'
                 /\ Forall (fun s => page_made s w') stores) w.
Proof.
  intros Hnd Hw.
  apply (returns_for_each_distinct slug write_store_page
           (kept json index out site_dirs) page_made); [| | exact Hnd | exact Hw].
  - intros s v (Hj & Hi & Ho & Hd).
    apply (returns_impl _ _ _ _ (write_store_page_made s v)).
    intros _ v' (Hp & Hsub & Hout & Hrest). split; [| exact Hp].
    split; [| split; [| split; [congruence | set_solver]]].
    + rewrite Hrest; [exact Hj |]. apply not_eq_sym, MoreScriptsRun.store_page_neq_json.
    + rewrite Hrest; [exact Hi |]. apply not_eq_sym, ScriptsRun.store_page_neq_index.
  - intros s t v Hst _ [Hd Ht].
    apply (returns_impl _ _ _ _ (write_store_page_made s v)).
    intros _ v' (_ & Hsub & _ & Hrest). split; [set_solver |].
    rewrite Hrest; [exact Ht |].
    intros H. apply Hst. symmetry. now apply MoreScriptsRun.store_page_inj.
Qed.

(** The first run makes the site. *)
Lemma generate_pages_made (detail data : list row) (w : world) :
  parse_stores float_of_str (load_images detail) data <> [] ->
  returns (generate_pages {| data_csv := Some data; detail_csv := Some detail |})
    (fun _ w' =>
       site_made (parse_stores float_of_str (load_images detail) data) w'
       /\ stdout w' = stdout w) w.
Proof.
  intros Hne. unfold Scripts.generate_pages, load_images_run, parse_stores_run.
  simpl data_csv. simpl detail_csv.
  apply returns_bind, returns_ret. apply returns_bind, returns_ret.
  pose proof (MoreScriptsRun.parse_stores_slugs_distinct float_of_str
                (load_images detail) data) as Hnd.
  destruct (parse_stores float_of_str (load_images detail) data) as [|s0 rest] eqn:E;
    [congruence |].
  apply returns_bind, returns_mkdir_parents.
  apply returns_bind, returns_mkdir_parents.
  apply returns_bind. unfold write_json.
  apply returns_bind, returns_mkdir_parents.
  apply returns_write_text.
  { apply parent_exists_in. rewrite removelast_snoc. cbn [dirs].
    apply in_own_ancestors. discriminate. }
  apply returns_bind, returns_write_text.
  { apply parent_exists_in. rewrite removelast_snoc. cbn [dirs].
    do 2 apply elem_of_union_r. apply elem_of_union_l.
    apply elem_of_list_to_set, list_elem_of_In. left. reflexivity. }
  eapply returns_impl.
  - apply (write_pages_made _ (json_dumps (s0 :: rest))
             (render_index format_1f (s0 :: rest)) (stdout w) _ Hnd).
    unfold kept, site_dirs. cbn [dirs files stdout]. split; [| split; [| split]].
    + rewrite lookup_insert_ne; [apply lookup_insert_eq |].
      intros H. apply (f_equal (@length str)) in H. discriminate H.
    + apply lookup_insert_eq.
    + reflexivity.
    + set_solver.
  - intros _ w' [Hk Hp]. cbv beta.
    assert (stdout w' = stdout w) as Hout by apply Hk.
    split; [| exact Hout]. split; [| exact Hp]. now rewrite Hout.
Qed.

Lemma docs_in_site_dirs : DOCS_DIR ∈ site_dirs.
Proof.
  unfold site_dirs. do 2 apply elem_of_union_l.
  apply elem_of_list_to_set, list_elem_of_In. left. reflexivity.
Qed.

Lemma write_store_page_again (s : @Store float) (w : world) :
  page_made s w -> write_store_page s w = (Ok tt, w).
Proof.
  intros [Hd Hp]. unfold Scripts.write_store_page. cbv zeta.
  rewrite (bind_again _ _ tt w (mkdir_parents_again _ w Hd)).
  apply write_text_again; [| exact Hp].
  apply parent_exists_in. rewrite removelast_snoc. apply Hd.
  apply elem_of_list_to_set, list_elem_of_In, self_in_ancestors. discriminate.
Qed.

(** A run on a world that holds the site changes nothing. *)
Lemma generate_pages_again (detail data : list row) (w : world) :
  parse_stores float_of_str (load_images detail) data <> [] ->
  site_made (parse_stores float_of_str (load_images detail) data) w ->
  generate_pages {| data_csv := Some data; detail_csv := Some detail |} w = (Ok tt, w).
Proof.
  intros Hne [(Hj & Hi & _ & Hd) Hp].
  unfold Scripts.generate_pages, load_images_run, parse_stores_run.
  simpl data_csv. simpl detail_csv.
  rewrite (bind_again _ _ (load_images detail) w eq_refl).
  rewrite (bind_again _ _ (parse_stores float_of_str (load_images detail) data) w eq_refl).
  destruct (parse_stores float_of_str (load_images detail) data) as [|s0 rest] eqn:E;
    [congruence |].
  unfold site_dirs in Hd.
  unfold ensure_assets.
  rewrite (bind_again _ _ tt w (mkdir_parents_again ASSETS_DIR w ltac:(set_solver))).
  rewrite (bind_again _ _ tt w (mkdir_parents_again STORES_DIR w ltac:(set_solver))).
  rewrite (bind_again _ _ tt w).
  2:{ unfold write_json.
      rewrite (bind_again _ _ tt w (mkdir_parents_again DATA_DIR w ltac:(set_solver))).
      apply write_text_again; [| exact Hj].
      apply parent_exists_in. rewrite removelast_snoc. apply Hd.
      apply elem_of_union_r, elem_of_list_to_set, list_elem_of_In, self_in_ancestors.
      discriminate. }
  rewrite (bind_again _ _ tt w).
  2:{ apply write_text_again; [| exact Hi].
      apply parent_exists_in. rewrite removelast_snoc. apply Hd.
      do 2 apply elem_of_union_l.
      apply elem_of_list_to_set, list_elem_of_In. left. reflexivity. }
  apply for_each_again. eapply Forall_impl; [exact Hp |].
  intros s Hs. now apply write_store_page_again.
Qed.

End Run.

End ScriptsAgain.

(** ** Further properties of the two scripts *)

Lemma Forall2_map_eq {A B C : Type} (f : A -> C) (g : B -> C)
    (l : list A) (k : list B) :
  Forall2 (fun x y => g y = f x) l k -> List.map g k = List.map f l.
Proof. induction 1; simpl; [reflexivity |]. now f_equal. Qed.


(** X2.  [parse_stores] builds one record for each row after the header
    that has at least three cells, a trimmed name that is not empty and a
    trimmed map link that begins with ["http"], in row order, and no record
    for the other rows; every record has such a name and such a link. *)
Theorem X2_parse_stores_one_record_per_valid_row {float : Type}
    (float_of_str : str -> option float)
    (lookup : gmap str str) (data : list Scripts.row) :
  let stores := Scripts.parse_stores float_of_str lookup data in
  List.map Scripts.name stores =
    List.map (fun r => strip (nth 2 r []))
      (List.filter
         (fun r => negb (length r <? 3)%nat
                   && (truthy (strip (nth 1 r [])) && truthy (strip (nth 2 r []))
                       && startswith (u "http") (strip (nth 1 r []))))
         (tail data))
  /\ List.map Scripts.map_url stores =
     List.map (fun r => strip (nth 1 r [])) (List.filter Scripts.accepted (tail data))
  /\ Forall (fun s => Scripts.name s <> []
                      /\ startswith (u "http") (Scripts.map_url s) = true) stores.
Proof.
  cbv zeta. unfold Scripts.parse_stores.
  rewrite ScriptsFacts.parse_stores_from_spec. cbn [Scripts.stores].
  change (List.filter _ (tail data)) with (List.filter Scripts.accepted (tail data)).
  pose proof (MoreScriptsFacts.records_from_accepted float_of_str lookup (tail data) 1)
    as Hall.
  revert Hall.
  generalize (Scripts.records_from float_of_str lookup 1
                (List.filter Scripts.accepted (tail data))).
  generalize (List.filter Scripts.accepted (tail data)).
  induction 1 as [|r s rows stores [Hr [k ->]] Hrest (Hn & Hm & Hf)].
  - repeat split; constructor.
  - simpl. repeat split; [now f_equal | now f_equal |].
    constructor; [| exact Hf]. simpl.
    unfold Scripts.accepted in Hr.
    apply andb_prop in Hr as [_ Hr]. apply andb_prop in Hr as [Hr Hhttp].
    apply andb_prop in Hr as [_ Hname]. split; [now apply truthy_true | exact Hhttp].
Qed.

(** X3.  The slugs given by [parse_stores] are ["store-"] followed by the
    position of the record among the records, counted from 1 and written
    in decimal with at least two digits; rows that give no record do not
    use up a number. *)
Theorem X3_sequential_slugs_count_records {float : Type}
    (float_of_str : str -> option float)
    (lookup : gmap str str) (data : list Scripts.row) :
  let stores := Scripts.parse_stores float_of_str lookup data in
  length stores = length (List.filter Scripts.accepted (tail data))
  /\ List.map Scripts.slug stores =
     List.map (fun i => u "store-" ++ format_02d (N.of_nat i))
       (seq 1 (length stores)).
Proof.
  cbv zeta. unfold Scripts.parse_stores.
  rewrite ScriptsFacts.parse_stores_from_spec. cbn [Scripts.stores].
  rewrite MoreScriptsFacts.records_from_length. split; [reflexivity |].
  apply (ScriptsFacts.records_from_slugs float_of_str).
Qed.


(** X5.  No key and no value of the image mapping that [load_images] (root
    script) returns is empty or has white space at either end. *)
Theorem X5_root_images_entries_trimmed (detail : option (list Root.row)) :
  if forallb Root.image_readable (default [] detail)
  then exists m : gmap str str,
      Root.load_images detail = World.Ok m
      /\ map_Forall
           (fun k img => k <> [] /\ img <> [] /\ trimmed k = true /\ trimmed img = true)
           m
  else Root.load_images detail = World.Raise World.AttributeError.
Proof.
  pose proof (RootFacts.load_images_spec detail) as H.
  destruct (forallb _ _); [| exact H].
  destruct H as (m & Hm & Hlook). exists m. split; [exact Hm |].
  intros k img Hk. rewrite Hlook in Hk.
  apply MoreRootFacts.last_omap_Some in Hk as (r & _ & Hr).
  eapply MoreRootFacts.image_entry_Some, Hr.
Qed.

(** X6.  The image mapping of [load_images] (scripts variant) never reads
    the first row of the detail file; for a key it holds the trimmed second
    cell of the last later row with at least two cells whose trimmed first
    cell is that key, among the rows in which neither cell is empty after
    trimming.  No key and no value is empty or has white space at either
    end. *)
Theorem X6_scripts_images_last_row_wins (detail : list Scripts.row) (k : str) :
  Scripts.load_images detail !! k
  = last (omap (Scripts.image_entry k) (tail detail))
  /\ map_Forall
       (fun k img => k <> [] /\ img <> [] /\ trimmed k = true /\ trimmed img = true)
       (Scripts.load_images detail).
Proof.
  split; [apply MoreScriptsFacts.images_lookup |].
  intros j img Hj. rewrite MoreScriptsFacts.images_lookup in Hj.
  apply MoreRootFacts.last_omap_Some in Hj as (r & _ & Hr).
  eapply MoreScriptsFacts.image_entry_shape, Hr.
Qed.

(** X7.  The slug returned by [slugify] holds only lower-case ASCII letters,
    ASCII digits, ideographs U+4E00..U+9FFF and hyphens, and does not begin
    with a hyphen: it has no path separator, dot, space or capital. *)
Theorem X7_slug_characters (name : str) (existing : gset str) :
  exists slug : str,
    Root.slugify name existing = Some (slug, {[slug]} ∪ existing)
    /\ forallb Root.slug_safe slug = true
    /\ startswith (u "-") slug = false.
Proof.
  destruct (RootFacts.slugify_returns name existing) as (slug & Hs & _ & _).
  exists slug. split; [exact Hs |].
  unfold Root.slugify in Hs.
  destruct (Root.slug_loop _ _ _ _ _) as [s|] eqn:Hloop; [| discriminate].
  injection Hs as -> _.
  apply RootFacts.slug_loop_shape in Hloop as [->|[k ->]].
  - split; [apply MoreRootFacts.slug_base_safe | apply MoreRootFacts.slug_base_head].
  - split.
    + apply MoreRootFacts.candidate_safe, MoreRootFacts.slug_base_safe.
    + unfold Root.candidate. rewrite MoreRootFacts.startswith_app_l.
      * apply MoreRootFacts.slug_base_head.
      * apply RootFacts.slug_base_nonempty.
      * reflexivity.
Qed.

(** X8.  [slugify] returns the base slug of the name when that is not in
    the set; otherwise it returns the base followed by ["-k"] for the least
    [k >= 2] for which that text is not in the set: the text for [k] is not
    in the set, and the texts for [2], ..., [k-1] all are. *)
Theorem X8_slug_least_free_suffix (name : str) (existing : gset str) :
  exists slug : str,
    Root.slugify name existing = Some (slug, {[slug]} ∪ existing)
    /\ ((slug = Root.slug_base name /\ Root.slug_base name ∉ existing)
        \/ (Root.slug_base name ∈ existing
            /\ exists k : N,
                 2 <= k
                 /\ slug = Root.slug_base name ++ u "-" ++ str_of_int k
                 /\ (Root.slug_base name ++ u "-" ++ str_of_int k ∉ existing)
                 /\ forall j : N,
                      2 <= j < k ->
                      Root.slug_base name ++ u "-" ++ str_of_int j ∈ existing)).
Proof.
  destruct (RootFacts.slugify_returns name existing) as (slug & Hs & _ & _).
  exists slug. split; [exact Hs |].
  unfold Root.slugify in Hs.
  destruct (Root.slug_loop _ _ _ _ _) as [s|] eqn:Hloop; [| discriminate].
  injection Hs as -> _.
  apply MoreRootFacts.slug_loop_first in Hloop
    as [[-> Hout]|(Hin & k & Hk & -> & Hnew & Hall)].
  - now left.
  - right. split; [exact Hin |]. exists k. split; [exact Hk |].
    split; [reflexivity |]. split; [exact Hnew | exact Hall].
Qed.

(** X9.  For a name with no ASCII letter, ASCII digit or ideograph
    U+4E00..U+9FFF the base slug is the fixed word ["store"]; for any other
    name it is the lower-cased name with each run of other characters
    turned into one hyphen and the hyphens at both ends removed, and the
    fixed word is not needed. *)
Theorem X9_slug_base_fallback (name : str) :
  Root.slug_base name =
    if existsb Root.slug_char name
    then lower (strip_chars (u "-") (Root.sub_runs false name))
    else u "store".
Proof. apply MoreRootFacts.slug_base_cases. Qed.

(** X10.  [coerce_int] reads back a number written in decimal, whatever
    characters other than digits stand before and after it; in general its
    result depends only on the digits of its argument. *)
Theorem X10_coerce_int_reads_digits (pre post : str) (n : N) (s : str) :
  forallb (fun c => negb (is_digit c)) pre = true ->
  forallb (fun c => negb (is_digit c)) post = true ->
  Scripts.coerce_int (pre ++ str_of_int n ++ post) = Some n
  /\ Scripts.coerce_int s = Scripts.coerce_int (List.filter is_digit s).
Proof.
  intros Hpre Hpost. split.
  - now apply MoreScriptsFacts.coerce_int_between.
  - apply MoreScriptsFacts.coerce_int_filter.
Qed.

Lemma X10_coerce_int_reads_digits_witness :
  Scripts.coerce_int (u "(" ++ str_of_int 12 ++ u " reviews)") = Some 12.
Proof.
  apply (proj1 (X10_coerce_int_reads_digits (u "(") (u " reviews)") 12 []
                  eq_refl eq_refl)).
Defined.

(** X11.  A text returned by [clean_value] has no white space at either end
    and holds neither separator glyph.  A text returned by [clean_text] is
    not empty and has no white space at either end. *)
Theorem X11_cleaned_text_shape (s : str) (v : option str) :
  (trimmed (Root.clean_value s) = true
   /\ ~ In 0x22C5 (Root.clean_value s) /\ ~ In 0xB7 (Root.clean_value s))
  /\ match Scripts.clean_text v with
     | Some t => t <> [] /\ trimmed t = true
     | None => True
     end.
Proof.
  split.
  - split; [apply MorePyFacts.strip_trimmed | apply RootFacts.clean_value_no_glyph].
  - destruct (Scripts.clean_text v) as [t|] eqn:E; [| exact I].
    destruct (ScriptsFacts.clean_text_Some v t E) as [Hne Hs].
    split; [exact Hne |]. rewrite <- Hs. apply MorePyFacts.strip_trimmed.
Qed.

(** X12.  What [html.escape] returns holds no angle bracket and no quote,
    so a text that the renderers insert through it cannot end the tag or
    the attribute it is put in. *)
Theorem X12_escaped_text_has_no_markup (s : str) :
  forallb (fun c => negb (markup_char c)) (escape s) = true.
Proof.
  apply forallb_forall. intros c Hc.
  now rewrite (MorePyFacts.escape_no_markup s c Hc).
Qed.

(** X13.  [ensure_assets] (root script) never replaces a style sheet that is
    already there: it writes the style sheet only when nothing exists at
    its path, changes no other file and prints nothing; a second run
    changes nothing at all. *)
Theorem X13_ensure_assets_writes_once (w : World.world) :
  exists w1 : World.world,
    Root.ensure_assets w = (World.Ok tt, w1)
    /\ World.files w1 =
       (if bool_decide (Root.style_path ∈ World.dirs w)
           || bool_decide (is_Some (World.files w !! Root.style_path))
        then World.files w
        else <[Root.style_path := Root.style_css]> (World.files w))
    /\ World.stdout w1 = World.stdout w
    /\ Root.ensure_assets w1 = (World.Ok tt, w1).
Proof.
  destruct (MoreRootRun.ensure_assets_exact w) as ([] & w1 & Hrun & Hw1).
  exists w1. split; [exact Hrun |]. split; [now rewrite Hw1 |].
  split; [now rewrite Hw1 |]. now apply (MoreRootRun.ensure_assets_twice w).
Qed.



(** X16.  When parsing gives at least one record (and no file stands where
    a directory is made), [generate_pages] returns, and then the snapshot is at [docs/data/stores.json], the index page at
    [docs/index.html] and the detail document of every record at
    [docs/stores/<slug>/index.html]; the directories [docs/assets],
    [docs/stores] and [docs/data] exist and nothing was printed. *)
Theorem X16_generate_pages_output {float : Type} (float_of_str : str -> option float)
    (format_1f : float -> str) (json_dumps : list Scripts.Store -> str)
    (detail data : list Scripts.row) (w : World.world) :
  Scripts.parse_stores float_of_str (Scripts.load_images detail) data <> [] ->
  World.returns
    (Scripts.generate_pages float_of_str format_1f json_dumps
       {| Scripts.data_csv := Some data; Scripts.detail_csv := Some detail |})
    (fun _ w' =>
       let stores :=
         Scripts.parse_stores float_of_str (Scripts.load_images detail) data in
       World.files w' !! [u "docs"; u "data"; u "stores.json"]
       = Some (json_dumps stores)
       /\ World.files w' !! [u "docs"; u "index.html"]
          = Some (Scripts.render_index format_1f stores)
       /\ Forall
            (fun s => World.files w'
                        !! [u "docs"; u "stores"; Scripts.slug s; u "index.html"]
                      = Some (Scripts.render_store format_1f s)) stores
       /\ World.stdout w' = World.stdout w
       /\ ({[ [u "docs"; u "assets"]; [u "docs"; u "stores"]; [u "docs"; u "data"] ]}
           : gset World.path) ⊆ World.dirs w') w.
Proof.
  intros Hne.
  apply (WorldFacts.returns_impl _ _ _ _
           (MoreScriptsRun.generate_pages_writes float_of_str format_1f json_dumps
              detail data w Hne)).
  intros _ w' [(Hj & Hi & Ho & Hd) Hp]. cbv zeta. auto.
Qed.

Lemma X16_generate_pages_output_witness :
  World.returns
    (Scripts.generate_pages (fun _ => @None unit) (fun _ => u "0.0") (fun _ => u "[]")
       {| Scripts.data_csv := Some [Samples.header; Samples.twice_listing];
          Scripts.detail_csv := Some [] |})
    (fun _ w' =>
       World.files w' !! [u "docs"; u "index.html"]
       = Some (Scripts.render_index (fun _ => u "0.0")
                 (Scripts.parse_stores (fun _ => @None unit) (Scripts.load_images [])
                    [Samples.header; Samples.twice_listing])))
    World.fresh.
Proof.
  eapply WorldFacts.returns_impl.
  - apply (X16_generate_pages_output (fun _ => @None unit) (fun _ => u "0.0")
             (fun _ => u "[]") [] [Samples.header; Samples.twice_listing] World.fresh).
    vm_compute. discriminate.
  - cbv zeta. intros _ w' (_ & Hi & _). exact Hi.
Defined.

(** X17.  The index page that [build_site] writes links every detail page
    that it writes: for every record, the index holds the link
    [<a href='<slug>/index.html'>] and the record's name as it is shown,
    and the file [docs/<slug>/index.html] exists.  (On a row that is too
    short [build_site] raises and writes nothing.) *)
Theorem X17_root_index_links_every_page (detail : option (list Root.row))
    (data : list Root.row) (w : World.world) :
  if forallb Root.image_readable (default [] detail) && forallb Root.readable data
  then exists stores : list Root.Store,
      Root.load_stores detail data = World.Ok stores
      /\ World.returns
           (Root.build_site {| Root.data_file := Some data; Root.detail_file := detail |})
           (fun _ w' =>
              exists index : str,
                World.files w' !! [u "docs"; u "index.html"] = Some index
                /\ Forall
                     (fun s =>
                        contains (u "<a href='" ++ Root.slug s ++ u "/index.html'>") index
                        = true
                        /\ contains (escape (Root.display_name s)) index = true
                        /\ is_Some (World.files w'
                                      !! [u "docs"; Root.slug s; u "index.html"]))
                     stores) w
  else Root.build_site {| Root.data_file := Some data; Root.detail_file := detail |} w
       = (World.Raise World.AttributeError, w).
Proof.
  pose proof (RootFacts.load_stores_spec detail data) as H.
  destruct (_ && _); [| now apply RootRun.build_site_raises].
  destruct H as (imgs & st & _ & _ & Hl & _).
  exists (Root.stores st). split; [exact Hl |].
  apply (WorldFacts.returns_impl _ _ _ _
           (MoreRootRun.build_site_writes detail data _ w Hl)).
  intros _ w' (Hi & Hp & _).
  exists (Root.index_html (Root.stores st)). split; [exact Hi |].
  apply List.Forall_forall. intros s Hs. rewrite List.Forall_forall in Hp.
  split; [| split].
  - eapply MoreRootRender.index_html_card;
      [exact Hs | apply MoreRootRender.card_html_link].
  - eapply MoreRootRender.index_html_card;
      [exact Hs | apply MoreRootRender.card_html_name].
  - exists (Root.store_html s). apply (Hp s Hs).
Qed.

(** X18.  The index page that [generate_pages] writes links every detail
    page that it writes: for every record, the index holds the link target
    [href="stores/<slug>/index.html"] and the record's name, and the file
    [docs/stores/<slug>/index.html] exists. *)
Theorem X18_scripts_index_links_every_page {float : Type}
    (float_of_str : str -> option float) (format_1f : float -> str)
    (json_dumps : list Scripts.Store -> str)
    (detail data : list Scripts.row) (w : World.world) :
  Scripts.parse_stores float_of_str (Scripts.load_images detail) data <> [] ->
  World.returns
    (Scripts.generate_pages float_of_str format_1f json_dumps
       {| Scripts.data_csv := Some data; Scripts.detail_csv := Some detail |})
    (fun _ w' =>
       exists index : str,
         World.files w' !! [u "docs"; u "index.html"] = Some index
         /\ Forall
              (fun s =>
                 contains (tpl "href=`stores/" ++ Scripts.slug s ++ tpl "/index.html`")
                   index = true
                 /\ contains (escape (Scripts.name s)) index = true
                 /\ is_Some (World.files w'
                               !! [u "docs"; u "stores"; Scripts.slug s; u "index.html"]))
              (Scripts.parse_stores float_of_str (Scripts.load_images detail) data)) w.
Proof.
  intros Hne.
  apply (WorldFacts.returns_impl _ _ _ _
           (MoreScriptsRun.generate_pages_writes float_of_str format_1f json_dumps
              detail data w Hne)).
  intros _ w' [(_ & Hi & _) Hp]. eexists. split; [exact Hi |].
  apply List.Forall_forall. intros s Hs. rewrite List.Forall_forall in Hp.
  split; [| split].
  - eapply MoreScriptsRender.render_index_card;
      [exact Hs | apply MoreScriptsRender.render_card_link].
  - eapply MoreScriptsRender.render_index_card;
      [exact Hs | apply MoreScriptsRender.render_card_name].
  - eexists. apply (Hp s Hs).
Qed.

Lemma X18_scripts_index_links_every_page_witness :
  World.returns
    (Scripts.generate_pages (fun _ => @None unit) (fun _ => u "0.0") (fun _ => u "[]")
       {| Scripts.data_csv := Some [Samples.header; Samples.twice_listing];
          Scripts.detail_csv := Some [] |})
    (fun _ w' => is_Some (World.files w' !! [u "docs"; u "index.html"]))
    World.fresh.
Proof.
  eapply WorldFacts.returns_impl.
  - apply (X18_scripts_index_links_every_page (fun _ => @None unit) (fun _ => u "0.0")
             (fun _ => u "[]") [] [Samples.header; Samples.twice_listing] World.fresh).
    vm_compute. discriminate.
  - intros _ w' (index & Hi & _). exists index. exact Hi.
Defined.

(** X19.  The name shown for a record with a name is not empty; it is the
    name without some vertical bars (ASCII or full width) at its end; it is
    the whole name when the name holds nothing but bars, and otherwise it
    does not end with a bar. *)
Theorem X19_display_name_drops_trailing_bars (s : Root.Store) :
  Root.name s <> [] ->
  Root.display_name s <> []
  /\ (exists post : str,
        Root.name s = Root.display_name s ++ post /\ forallb Root.bar post = true)
  /\ (if forallb Root.bar (Root.name s)
      then Root.display_name s = Root.name s
      else match rev (Root.display_name s) with
           | [] => False
           | c :: _ => Root.bar c = false
           end).
Proof.
  intros Hne. split; [now apply MoreRootRender.display_name_nonempty |].
  split; [apply MoreRootRender.display_name_prefix |].
  destruct (forallb Root.bar (Root.name s)) eqn:Hall.
  - now apply MoreRootRender.display_name_bars.
  - apply MoreRootRender.display_name_last.
    clear Hne. induction (Root.name s) as [|c t IH]; [discriminate |].
    simpl in *. destruct (Root.bar c); simpl in *; auto.
Qed.

Lemma X19_display_name_drops_trailing_bars_witness :
  Root.display_name Samples.barred_store <> [].
Proof.
  apply (X19_display_name_drops_trailing_bars Samples.barred_store).
  vm_compute. discriminate.
Defined.

(** X20.  For a record built by [parse_stores], [badge_text] is empty
    exactly when the record has no category, no status and no hours note:
    these fields are never the empty string, so none is dropped from the
    badge. *)
Theorem X20_badge_of_parsed_record {float : Type} (float_of_str : str -> option float)
    (lookup : gmap str str) (data : list Scripts.row) :
  Forall
    (fun s => Scripts.badge_text s = []
              <-> Scripts.category s = None /\ Scripts.status s = None
                  /\ Scripts.hours_note s = None)
    (Scripts.parse_stores float_of_str lookup data).
Proof.
  apply List.Forall_forall. intros s Hs.
  apply MoreScriptsFacts.parse_stores_records in Hs as (r & k & ->).
  rewrite MoreScriptsRender.badge_text_empty. cbn [Scripts.record_of Scripts.category
    Scripts.status Scripts.hours_note].
  now rewrite !MoreScriptsFacts.clean_text_truthy.
Qed.

(** X21.  A slug returned by [slugify] is its own slug: computing the base
    slug of the slug gives the slug back, so [slugify] with an empty set
    returns it unchanged. *)
Theorem X21_slug_is_its_own_slug (name : str) (existing : gset str) :
  exists slug : str,
    Root.slugify name existing = Some (slug, {[slug]} ∪ existing)
    /\ Root.slug_base slug = slug
    /\ Root.slugify slug ∅ = Some (slug, {[slug]} ∪ ∅).
Proof.
  destruct (RootFacts.slugify_returns name existing) as (slug & Hs & _ & _).
  exists slug. split; [exact Hs |].
  pose proof (SlugFacts.own_slug_base slug (SlugFacts.slugify_own _ _ _ _ Hs)) as Hb.
  split; [exact Hb |].
  unfold Root.slugify. cbv zeta. rewrite Hb. cbn [Root.slug_loop].
  destruct (decide (slug ∈ (∅ : gset str))) as [Hin|_]; [| reflexivity].
  now apply not_elem_of_empty in Hin.
Qed.
